(** * perf-utils: the rotating trace log writer (lib/tracefile.js)

    A shallow embedding of [RotatingTraceLog] and of the part of the Node.js
    runtime it talks to (write streams, the file system, timers, the
    scheduling of [async] functions), followed by the properties of the
    writer that the specification states. The modules [PerformanceTraces]
    (lib/trace.js), [PerformanceLogger] and [Performance]
    (lib/performance.js) and [StreamHelpers] (openStream, endStream and
    closeStream, at the level of event listeners) embed the code around
    the writer.

    Conventions of the embedding:
    - an [async] function is split at its [await]s into the segments that
      run without interruption; the continuation of a suspended call is a
      [Frame], a suspended call with its awaiting callers is a [Task];
    - the writer object is the record [Writer]; the runtime is [Env];
    - a JavaScript number is a [Number]: NaN, an infinity or a rational
      (every finite double is a rational; rounding above 2^53 and the sign
      of zero are not represented);
    - a trace record is seen by the writer only through [JSON.stringify]
      and through its [length] property: [Json] keeps these two. *)

From stdpp Require Import gmap strings list fin_maps.
From Stdlib Require Import QArith ZArith DecimalString DecimalN.

Close Scope Q_scope.
Open Scope Z_scope.

(* ===================================================================== *)
(** ** JavaScript numbers and values *)
(* ===================================================================== *)

Inductive Number : Type :=
| NaN
| Infinity (negative : bool)
| Finite (q : Q).

Definition num_of_Z (z : Z) : Number := Finite (inject_Z z).

(** [ToUint32]: NaN and the infinities go to 0, a finite number is
    truncated toward zero and reduced modulo 2^32. *)
Definition to_uint32 (n : Number) : Z :=
  match n with
  | Finite q => (Z.quot (Qnum q) (Zpos (Qden q))) mod 2 ^ 32
  | _ => 0
  end.

(** [x >>> 0] *)
Definition ushr0 (n : Number) : Number := num_of_Z (to_uint32 n).

(** [a === b] on numbers. *)
Definition num_strict_eq (a b : Number) : bool :=
  match a, b with
  | Finite x, Finite y => Qeq_bool x y
  | Infinity s, Infinity t => Bool.eqb s t
  | _, _ => false
  end.

(** [a + b] on numbers. Finite sums are exact; they are the sums of
    IEEE 754 doubles whenever the operands and the result are integers
    below 2^53, which covers the sizes of files and the lengths of strings
    and arrays. No statement below depends on a sum outside that range:
    the general ones hold for either outcome of the size test. *)
Definition num_add (a b : Number) : Number :=
  match a, b with
  | NaN, _ | _, NaN => NaN
  | Finite x, Finite y => Finite (x + y)%Q
  | Infinity s, Infinity t => if Bool.eqb s t then Infinity s else NaN
  | Infinity s, Finite _ | Finite _, Infinity s => Infinity s
  end.

(** [a >= b] on numbers. *)
Definition num_ge (a b : Number) : bool :=
  match a, b with
  | NaN, _ | _, NaN => false
  | Finite x, Finite y => Qle_bool y x
  | Infinity false, _ => true
  | _, Infinity true => true
  | Infinity true, _ => false
  | Finite _, Infinity false => false
  end.

(** The values an option can hold. [VObject] stands for every value whose
    [typeof] is neither of the tags tested by the writer. *)
Inductive JsVal : Type :=
| VUndefined
| VNull
| VBoolean (b : bool)
| VNumber (n : Number)
| VString (s : string)
| VObject.

Definition typeof (v : JsVal) : string :=
  match v with
  | VUndefined => "undefined"
  | VNull => "object"
  | VBoolean _ => "boolean"
  | VNumber _ => "number"
  | VString _ => "string"
  | VObject => "object"
  end.

(** [v != null] *)
Definition not_nullish (v : JsVal) : bool :=
  match v with
  | VUndefined | VNull => false
  | _ => true
  end.

(** [number + v] where [v] is a property that is either absent
    ([undefined], which converts to NaN) or a number. *)
Definition num_add_prop (a : Number) (v : option Number) : Number :=
  match v with
  | None => num_add a NaN
  | Some b => num_add a b
  end.

(** A trace record as [writeTrace] sees it. *)
Record Json : Type := mkJson {
  json_length : option Number;   (* json.length; None is undefined *)
  json_text : string             (* JSON.stringify(json) *)
}.

Definition JSON_stringify (json : Json) : string := json_text json.

(** A record as [markTrace] builds it: an object literal with the keys
    pid, tid, ts, name and ph, hence without a [length] property. *)
Definition plain_record (text : string) : Json :=
  {| json_length := None; json_text := text |}.

(* ===================================================================== *)
(** ** Errors *)
(* ===================================================================== *)

Inductive Error : Type :=
| AssertionError (message : string)
| TypeError
| SystemError (code : string).

Definition Result (A : Type) : Type := Error + A.

Definition ok {A} (a : A) : Result A := inr a.
Definition throw {A} (e : Error) : Result A := inl e.

Arguments ok {A} a /.
Arguments throw {A} e /.

Definition bind {A B} (m : Result A) (f : A -> Result B) : Result B :=
  match m with
  | inl e => inl e
  | inr a => f a
  end.

Definition assert (b : bool) (message : string) : Result unit :=
  if b then ok tt else throw (AssertionError message).

Notation "'do' x <- m ; k" := (bind m (fun x => k))
  (at level 10, x name, m at level 100, k at level 200).

(* ===================================================================== *)
(** ** The writer object *)
(* ===================================================================== *)

(** A reference to a stream object of the runtime. *)
Definition StreamRef := nat.

Record Writer : Type := mkWriter {
  stream : option StreamRef;
  fileSize : Number;
  closed : bool;
  closing : bool;
  rotating : bool;
  _bufferedEntries : list Json;
  filename : string;
  maxFiles : Number;
  maxFileSize : Number;
  id : N;
  firstEntry : bool;
  timer : option nat             (* the Timeout handle; None is undefined/null *)
}.

Definition set_stream v (w : Writer) : Writer :=
  mkWriter v (fileSize w) (closed w) (closing w) (rotating w) (_bufferedEntries w)
    (filename w) (maxFiles w) (maxFileSize w) (id w) (firstEntry w) (timer w).
Definition set_fileSize v (w : Writer) : Writer :=
  mkWriter (stream w) v (closed w) (closing w) (rotating w) (_bufferedEntries w)
    (filename w) (maxFiles w) (maxFileSize w) (id w) (firstEntry w) (timer w).
Definition set_closed v (w : Writer) : Writer :=
  mkWriter (stream w) (fileSize w) v (closing w) (rotating w) (_bufferedEntries w)
    (filename w) (maxFiles w) (maxFileSize w) (id w) (firstEntry w) (timer w).
Definition set_closing v (w : Writer) : Writer :=
  mkWriter (stream w) (fileSize w) (closed w) v (rotating w) (_bufferedEntries w)
    (filename w) (maxFiles w) (maxFileSize w) (id w) (firstEntry w) (timer w).
Definition set_rotating v (w : Writer) : Writer :=
  mkWriter (stream w) (fileSize w) (closed w) (closing w) v (_bufferedEntries w)
    (filename w) (maxFiles w) (maxFileSize w) (id w) (firstEntry w) (timer w).
Definition set_bufferedEntries v (w : Writer) : Writer :=
  mkWriter (stream w) (fileSize w) (closed w) (closing w) (rotating w) v
    (filename w) (maxFiles w) (maxFileSize w) (id w) (firstEntry w) (timer w).
Definition set_filename v (w : Writer) : Writer :=
  mkWriter (stream w) (fileSize w) (closed w) (closing w) (rotating w) (_bufferedEntries w)
    v (maxFiles w) (maxFileSize w) (id w) (firstEntry w) (timer w).
Definition set_maxFiles v (w : Writer) : Writer :=
  mkWriter (stream w) (fileSize w) (closed w) (closing w) (rotating w) (_bufferedEntries w)
    (filename w) v (maxFileSize w) (id w) (firstEntry w) (timer w).
Definition set_maxFileSize v (w : Writer) : Writer :=
  mkWriter (stream w) (fileSize w) (closed w) (closing w) (rotating w) (_bufferedEntries w)
    (filename w) (maxFiles w) v (id w) (firstEntry w) (timer w).
Definition set_id v (w : Writer) : Writer :=
  mkWriter (stream w) (fileSize w) (closed w) (closing w) (rotating w) (_bufferedEntries w)
    (filename w) (maxFiles w) (maxFileSize w) v (firstEntry w) (timer w).
Definition set_firstEntry v (w : Writer) : Writer :=
  mkWriter (stream w) (fileSize w) (closed w) (closing w) (rotating w) (_bufferedEntries w)
    (filename w) (maxFiles w) (maxFileSize w) (id w) v (timer w).
Definition set_timer v (w : Writer) : Writer :=
  mkWriter (stream w) (fileSize w) (closed w) (closing w) (rotating w) (_bufferedEntries w)
    (filename w) (maxFiles w) (maxFileSize w) (id w) (firstEntry w) v.

Arguments set_stream v !w /.
Arguments set_fileSize v !w /.
Arguments set_closed v !w /.
Arguments set_closing v !w /.
Arguments set_rotating v !w /.
Arguments set_bufferedEntries v !w /.
Arguments set_filename v !w /.
Arguments set_maxFiles v !w /.
Arguments set_maxFileSize v !w /.
Arguments set_id v !w /.
Arguments set_firstEntry v !w /.
Arguments set_timer v !w /.

(** *** Construction *)

Record Options : Type := mkOptions {
  opt_filename : JsVal;
  opt_maxFiles : JsVal;
  opt_maxFileSize : JsVal
}.

(** The argument of the constructor: an object, [null], or a value whose
    [typeof] is not ['object']. *)
Inductive OptionsArg : Type :=
| ArgObject (o : Options)
| ArgNull
| ArgPrimitive.

(** assert(typeof v === 'number'); assert((v >>> 0) === v); *)
Definition check_uint32 (v : JsVal) : Result Number :=
  match v with
  | VNumber n =>
      do _ <- assert (num_strict_eq (ushr0 n) n) EmptyString;
      ok n
  | _ => throw (AssertionError EmptyString)
  end.

(** fromOptions(options): lines 89-108. *)
Definition fromOptions (options : OptionsArg) (this : Writer) : Result Writer :=
  match options with
  | ArgPrimitive => throw (AssertionError EmptyString)
  | ArgNull => throw TypeError
  | ArgObject o =>
      match opt_filename o with
      | VString name =>
          let this := set_filename name this in
          do this <-
            (if not_nullish (opt_maxFiles o)
             then do n <- check_uint32 (opt_maxFiles o); ok (set_maxFiles n this)
             else ok this);
          do this <-
            (if not_nullish (opt_maxFileSize o)
             then do n <- check_uint32 (opt_maxFileSize o); ok (set_maxFileSize n this)
             else ok this);
          ok this
      | _ => throw (AssertionError EmptyString)
      end
  end.

(** The fields as the constructor sets them, lines 65-78. [filename] is
    [null] there; the writer only tests whether it is truthy before using
    it, and the empty string, falsy like [null], stands for it. [timer] is
    not set by the constructor and is [undefined]. *)
Definition initial : Writer :=
  {| stream := None;
     fileSize := num_of_Z 0;
     closed := true;
     closing := false;
     rotating := false;
     _bufferedEntries := [];
     filename := EmptyString;
     maxFiles := num_of_Z 0;
     maxFileSize := num_of_Z 100000000;
     id := 0%N;
     firstEntry := true;
     timer := None |}.

(** [new RotatingTraceLog(options)]: lines 64-81. *)
Definition constructor (options : OptionsArg) : Result Writer :=
  fromOptions options initial.

(* ===================================================================== *)
(** ** The runtime: streams, files, timers, suspended calls *)
(* ===================================================================== *)

(** The [flags] of [createWriteStream]: ['w'] creates or truncates the
    file, ['a'] creates it or appends to it. *)
Inductive Flags : Type := FlagW | FlagA.

Record WriteStream : Type := mkStream {
  ws_path : string;
  ws_flags : Flags;
  ws_writable : bool             (* false once ended or closed *)
}.

(** Where a suspended [async] call waits. The first five wait for the
    runtime, the last two for a callee. *)
Inductive Frame : Type :=
| AwaitStat (path : string)                          (* open: await this.getFileSize() *)
| AwaitOpenStream (path : string) (flags : Flags)    (* open: await openStream(..) *)
| AwaitEnd (s : StreamRef)                           (* close: await endStream(..) *)
| AwaitClose (s : StreamRef)                         (* close: await closeStream(..) *)
| AwaitRename (oldPath newPath : string)             (* rotate: await bfs.rename(..) *)
| InRotateClose                                      (* rotate: await this.close() *)
| InRotateOpen.                                      (* rotate: await this.open() *)

(** A suspended call: its own frame first, then the callers awaiting it. *)
Definition Task : Type := list Frame.

Inductive Op : Type := OpOpen | OpClose | OpRotate.

Record Env : Type := mkEnv {
  fs : gmap string string;                 (* path -> content *)
  streams : list WriteStream;              (* the stream objects, by reference *)
  sunk : list string;                      (* chunks the streams took, in order *)
  renames : list (string * string);        (* renames done, in order *)
  timeouts : list nat;                     (* pending setTimeout delays (ms) *)
  tasks : list Task;                       (* suspended calls *)
  settled : list (Op * option Error);      (* promises of outermost calls, as they settle *)
  returned : list (Json * bool)            (* what writeTrace returned to its callers *)
}.

Definition set_fs v (e : Env) : Env :=
  mkEnv v (streams e) (sunk e) (renames e) (timeouts e) (tasks e) (settled e) (returned e).
Definition set_streams v (e : Env) : Env :=
  mkEnv (fs e) v (sunk e) (renames e) (timeouts e) (tasks e) (settled e) (returned e).
Definition set_sunk v (e : Env) : Env :=
  mkEnv (fs e) (streams e) v (renames e) (timeouts e) (tasks e) (settled e) (returned e).
Definition set_renames v (e : Env) : Env :=
  mkEnv (fs e) (streams e) (sunk e) v (timeouts e) (tasks e) (settled e) (returned e).
Definition set_timeouts v (e : Env) : Env :=
  mkEnv (fs e) (streams e) (sunk e) (renames e) v (tasks e) (settled e) (returned e).
Definition set_tasks v (e : Env) : Env :=
  mkEnv (fs e) (streams e) (sunk e) (renames e) (timeouts e) v (settled e) (returned e).
Definition set_settled v (e : Env) : Env :=
  mkEnv (fs e) (streams e) (sunk e) (renames e) (timeouts e) (tasks e) v (returned e).
Definition set_returned v (e : Env) : Env :=
  mkEnv (fs e) (streams e) (sunk e) (renames e) (timeouts e) (tasks e) (settled e) v.

Arguments set_fs v !e /.
Arguments set_streams v !e /.
Arguments set_sunk v !e /.
Arguments set_renames v !e /.
Arguments set_timeouts v !e /.
Arguments set_tasks v !e /.
Arguments set_settled v !e /.
Arguments set_returned v !e /.

Record State : Type := mkState {
  this : Writer;
  env : Env
}.

Definition upd_this (f : Writer -> Writer) (st : State) : State :=
  mkState (f (this st)) (env st).
Definition upd_env (f : Env -> Env) (st : State) : State :=
  mkState (this st) (f (env st)).

Arguments upd_this f !st /.
Arguments upd_env f !st /.

(** *** Stream objects *)

Definition file_content (e : Env) (path : string) : string :=
  default EmptyString (fs e !! path).

(** The file behind a stream that still takes data. *)
Definition writable_path (e : Env) (s : StreamRef) : option string :=
  match streams e !! s with
  | Some ws => if ws_writable ws then Some (ws_path ws) else None
  | None => None
  end.

(** [stream.write(data)]: a writable stream appends to its file; an ended
    or closed one drops the data. *)
Definition stream_write (s : StreamRef) (data : string) (e : Env) : Env :=
  set_sunk
    (match writable_path e s with
     | Some _ => sunk e ++ [data]
     | None => sunk e
     end)
    (set_fs
       (match writable_path e s with
        | Some p => <[p := file_content e p +:+ data]> (fs e)
        | None => fs e
        end) e).

Definition unwritable (ws : WriteStream) : WriteStream :=
  mkStream (ws_path ws) (ws_flags ws) false.

(** [stream.end()] *)
Definition stream_end (s : StreamRef) (e : Env) : Env :=
  set_streams (alter unwritable s (streams e)) e.

(** [stream.close()] *)
Definition stream_close (s : StreamRef) (e : Env) : Env :=
  set_streams (alter unwritable s (streams e)) e.

Arguments writable_path !e s /.
Arguments stream_write s data !e /.
Arguments stream_end s !e /.
Arguments stream_close s !e /.

(** *** The file system, at the completion of a request
    [fault] is the failure the system injects, if any. *)

Definition size_of (content : string) : Number :=
  num_of_Z (Z.of_nat (String.length content)).

(** [bfs.stat(path)], giving [stat.size] *)
Definition io_stat (path : string) (fault : option Error) (e : Env) : Result Number :=
  match fault with
  | Some err => throw err
  | None =>
      match fs e !! path with
      | Some content => ok (size_of content)
      | None => throw (SystemError "ENOENT")
      end
  end.

(** [bfs.createWriteStream(path, {flags})] up to its ['open'] or ['error'] *)
Definition io_openStream (path : string) (flags : Flags) (fault : option Error)
    (e : Env) : Result StreamRef * Env :=
  match fault with
  | Some err => (throw err, e)
  | None =>
      let content :=
        match flags with
        | FlagW => EmptyString
        | FlagA => file_content e path
        end in
      (ok (length (streams e)),
       set_streams (streams e ++ [mkStream path flags true])
         (set_fs (<[path := content]> (fs e)) e))
  end.

(** [bfs.rename(oldPath, newPath)] *)
Definition io_rename (oldPath newPath : string) (fault : option Error)
    (e : Env) : option Error * Env :=
  match fault with
  | Some err => (Some err, e)
  | None =>
      match fs e !! oldPath with
      | Some content =>
          (None,
           set_renames (renames e ++ [(oldPath, newPath)])
             (set_fs (<[newPath := content]> (delete oldPath (fs e))) e))
      | None => (Some (SystemError "ENOENT"), e)
      end
  end.

(** *** Suspending and settling *)

Definition suspend (t : Task) (st : State) : State :=
  upd_env (fun e => set_tasks (tasks e ++ [t]) e) st.

Definition settle (op : Op) (r : option Error) (st : State) : State :=
  upd_env (fun e => set_settled (settled e ++ [(op, r)]) e) st.

Arguments suspend t !st /.
Arguments settle op r !st /.

(** [path] of Node.js, as far as [rotate] uses it. *)
Record PathModule : Type := mkPath {
  extname : string -> string;
  basename : string -> string -> string;
  dirname : string -> string;
  join : string -> string -> string
}.

(** [String(n)] for a non-negative integer *)
Definition decimal (n : N) : string := NilEmpty.string_of_uint (N.to_uint n).

(** A string is truthy unless it is empty. *)
Definition truthy_string (s : string) : bool :=
  match s with
  | EmptyString => false
  | _ => true
  end.

(** A reference is truthy unless it is null. *)
Definition is_set {A} (o : option A) : bool :=
  match o with
  | Some _ => true
  | None => false
  end.

Definition dquote : string := String (Ascii.ascii_of_nat 34) EmptyString.

(** The opening of the file: an object with the key traceEvents and the
    start of its array. *)
Definition trace_prefix : string :=
  Eval cbv in ("{" +:+ dquote +:+ "traceEvents" +:+ dquote +:+ ": [").

(** [e.code === code] *)
Definition has_code (e : Error) (code : string) : bool :=
  match e with
  | SystemError c => String.eqb c code
  | _ => false
  end.

(* ===================================================================== *)
(** ** The operations of [RotatingTraceLog] *)
(* ===================================================================== *)

Section Operations.

Variable path : PathModule.

(** retry(): lines 181-189. The callback of the timeout is
    [timer_callback] below; the handle kept in [this.timer] is represented
    by the delay. *)
Definition retry (st : State) : State :=
  match timer (this st) with
  | Some _ => st
  | None =>
      upd_this (set_timer (Some 1000%nat))
        (upd_env (fun e => set_timeouts (timeouts e ++ [1000%nat]) e) st)
  end.

(** handleError(error): lines 110-120. [this.stream.close()] on a null
    stream throws a TypeError that the [catch] swallows. *)
Definition handleError (error : Error) (st : State) : State :=
  let st :=
    match stream (this st) with
    | Some s => upd_env (stream_close s) st
    | None => st
    end in
  let st := upd_this (set_closed true) st in
  let st := upd_this (set_stream None) st in
  retry st.

(** rotate(), after [await this.close()] returned: lines 245-251. *)
Definition rotate_after_close (k : Task) (st : State) : State :=
  let ext := extname path (filename (this st)) in
  let base := basename path (filename (this st)) ext in
  let dir := dirname path (filename (this st)) in
  let rename := join path dir (base +:+ "." +:+ decimal (id (this st)) +:+ ext) in
  suspend (AwaitRename (filename (this st)) rename :: k) st.

(** A call of [op] is over, normally ([r = None]) or by throwing; [k] are
    the callers awaiting it. [rotate] has no handler around its awaits, so
    an exception of its callee is its own. *)
Fixpoint finish (op : Op) (r : option Error) (k : Task) (st : State) : State :=
  match k with
  | InRotateClose :: k' =>
      match r with
      | None => rotate_after_close k' st
      | Some e => finish OpRotate (Some e) k' st
      end
  | InRotateOpen :: k' => finish OpRotate r k' st
  | _ => settle op r st
  end.

(** close(): lines 163-179, up to [await endStream(this.stream)]. *)
Definition call_close (k : Task) (st : State) : State :=
  if closed (this st) then finish OpClose (Some (AssertionError EmptyString)) k st else
  match stream (this st) with
  | None => finish OpClose (Some (AssertionError EmptyString)) k st
  | Some s =>
      let st := upd_this (set_closing true) st in
      let st := upd_env (stream_write s "]}") st in
      (* endStream: stream.once('finish', resolve); stream.end() *)
      let st := upd_env (stream_end s) st in
      suspend (AwaitEnd s :: k) st
  end.

(** close(), from the resolution of [endStream] to
    [await closeStream(this.stream)]. With [this.stream] null the executor
    of [closeStream] throws a TypeError, which rejects its promise. *)
Definition close_after_end (k : Task) (st : State) : State :=
  match stream (this st) with
  | None =>
      let st := upd_this (set_closing false) st in
      finish OpClose (Some TypeError) k st
  | Some s =>
      let st := upd_env (stream_close s) st in
      suspend (AwaitClose s :: k) st
  end.

(** close(), from the settlement of [closeStream]: the [finally] block and
    what follows the [try] statement. *)
Definition close_after_close (r : option Error) (k : Task) (st : State) : State :=
  let st := upd_this (set_closing false) st in
  match r with
  | Some e => finish OpClose (Some e) k st
  | None =>
      let st := upd_this (set_stream None) st in
      let st := upd_this (set_closed true) st in
      finish OpClose None k st
  end.

(** rotate(): lines 234-244, up to [await this.close()]. *)
Definition call_rotate (k : Task) (st : State) : State :=
  if rotating (this st) then finish OpRotate None k st else
  if negb (is_set (stream (this st))) || closed (this st)
  then finish OpRotate None k st else
  let st := upd_this (set_rotating true) st in
  if negb (truthy_string (filename (this st)))
  then finish OpRotate (Some (AssertionError EmptyString)) k st else
  call_close (InRotateClose :: k) st.

(** writeTrace(json): lines 197-227. [this.rotate()] is called without
    [await]: it runs up to its first suspension and the caller goes on. *)
Definition writeTrace (json : Json) (st : State) : bool * State :=
  if negb (is_set (stream (this st))) && negb (rotating (this st))
  then (false, st) else
  if closing (this st) && negb (rotating (this st))
  then (false, st) else
  if rotating (this st)
  then (true, upd_this (fun w => set_bufferedEntries (_bufferedEntries w ++ [json]) w) st)
  else
    match stream (this st) with
    | None => (false, st)        (* excluded by the first test *)
    | Some s =>
        let str := JSON_stringify json in
        let st :=
          if negb (firstEntry (this st))
          then upd_env (stream_write s ("," +:+ str)) st
          else
            let st := upd_env (stream_write s trace_prefix) st in
            let st := upd_env (stream_write s str) st in
            upd_this (set_firstEntry false) st in
        let st :=
          upd_this (fun w => set_fileSize (num_add_prop (fileSize w) (json_length json)) w) st in
        let st :=
          if num_ge (fileSize (this st)) (maxFileSize (this st))
          then call_rotate [] st
          else st in
        (true, st)
    end.

(** The loop of open(), lines 147-154; [fuel] bounds the iterations. *)
Fixpoint drain (fuel : nat) (st : State) : State :=
  match fuel with
  | O => st
  | S fuel' =>
      match _bufferedEntries (this st) with
      | [] => st
      | msg :: rest =>
          if rotating (this st) then st else
          let st := upd_this (set_bufferedEntries rest) st in
          let '(written, st) := writeTrace msg st in
          if written then drain fuel' st
          else upd_this (fun w => set_bufferedEntries (msg :: _bufferedEntries w) w) st
      end
  end.

(** open(): lines 127-132, up to [await this.getFileSize()], which itself
    awaits [bfs.stat(this.filename)]. *)
Definition call_open (k : Task) (st : State) : State :=
  if negb (truthy_string (filename (this st)))
  then finish OpOpen (Some (AssertionError "filename not found")) k st else
  if is_set (stream (this st))
  then finish OpOpen (Some (AssertionError "Already open.")) k st else
  if negb (closed (this st))
  then finish OpOpen (Some (AssertionError "File is alredy open.")) k st else
  suspend (AwaitStat (filename (this st)) :: k) st.

(** getFileSize(), from the settlement of [bfs.stat]: lines 266-274. *)
Definition getFileSize_after_stat (r : Result Number) : Result Number :=
  match r with
  | inr size => ok size
  | inl e =>
      if has_code e "ENOENT" then ok (num_of_Z 0) else throw e
  end.

(** open(), from the settlement of [getFileSize] to [await openStream(..)]:
    lines 132-138. *)
Definition open_after_stat (r : Result Number) (k : Task) (st : State) : State :=
  match getFileSize_after_stat r with
  | inl e => finish OpOpen (Some e) k st
  | inr size =>
      let st := upd_this (set_fileSize size) st in
      suspend (AwaitOpenStream (filename (this st)) FlagW :: k) st
  end.

(** open(), from the settlement of [openStream]: lines 135-155. *)
Definition open_after_openStream (r : Result StreamRef) (k : Task) (st : State) : State :=
  match r with
  | inl _ =>
      let st := retry st in
      finish OpOpen None k st
  | inr s =>
      let st := upd_this (set_stream (Some s)) st in
      let st := upd_this (set_closed false) st in
      let st := drain (length (_bufferedEntries (this st))) st in
      finish OpOpen None k st
  end.

(** rotate(), from the settlement of [bfs.rename]: lines 251-258. *)
Definition rotate_after_rename (r : option Error) (k : Task) (st : State) : State :=
  match r with
  | Some e => finish OpRotate (Some e) k st
  | None =>
      let st := upd_this (set_rotating false) st in
      let st := upd_this (fun w => set_id (id w + 1)%N w) st in
      call_open (InRotateOpen :: k) st
  end.

(** The callback given to [setTimeout] by retry(): lines 185-188. *)
Definition timer_callback (st : State) : State :=
  let st := upd_this (set_timer None) st in
  call_open [] st.

(** *** The event loop *)

(** The runtime completes the request of a suspended call and the call
    goes on. [endStream] has no failure path: its promise resolves on
    ['finish']. *)
Definition resume (t : Task) (fault : option Error) (st : State) : State :=
  match t with
  | AwaitStat p :: k =>
      open_after_stat (io_stat p fault (env st)) k st
  | AwaitOpenStream p flags :: k =>
      let '(r, e) := io_openStream p flags fault (env st) in
      open_after_openStream r k (mkState (this st) e)
  | AwaitEnd s :: k =>
      close_after_end k st
  | AwaitClose s :: k =>
      close_after_close fault k st
  | AwaitRename oldPath newPath :: k =>
      let '(r, e) := io_rename oldPath newPath fault (env st) in
      rotate_after_rename r k (mkState (this st) e)
  | _ => st
  end.

Inductive Event : Type :=
| CallOpen                                   (* the owner calls open() *)
| CallClose                                  (* the owner calls close() *)
| CallRotate                                 (* the owner calls rotate() *)
| CallWriteTrace (json : Json)               (* the owner calls writeTrace(json) *)
| Complete (i : nat) (fault : option Error)  (* the request of the i-th suspended call completes *)
| TimerFires                                 (* the oldest pending timeout fires *)
| SinkError (e : Error).                     (* the stream emits 'error' to the handler of open() *)

Definition step (ev : Event) (st : State) : State :=
  match ev with
  | CallOpen => call_open [] st
  | CallClose => call_close [] st
  | CallRotate => call_rotate [] st
  | CallWriteTrace json =>
      let '(r, st) := writeTrace json st in
      upd_env (fun e => set_returned (returned e ++ [(json, r)]) e) st
  | Complete i fault =>
      match tasks (env st) !! i with
      | Some t =>
          resume t fault (upd_env (fun e => set_tasks (delete i (tasks e)) e) st)
      | None => st
      end
  | TimerFires =>
      match timeouts (env st) with
      | _ :: rest => timer_callback (upd_env (set_timeouts rest) st)
      | [] => st
      end
  | SinkError e => handleError e st
  end.

Definition run (evs : list Event) (st : State) : State :=
  fold_left (fun st ev => step ev st) evs st.

End Operations.

(** *** Initial runtime and a path module for flat file names *)

Definition empty_env : Env :=
  {| fs := ∅; streams := []; sunk := []; renames := []; timeouts := [];
     tasks := []; settled := []; returned := [] |}.

Definition boot (w : Writer) (files : gmap string string) : State :=
  mkState w (set_fs files empty_env).

(** [path] restricted to flat names (no directory separator), where
    [dirname] is ["."] and joining with ["."] gives the name back. *)
Fixpoint from_last_dot (s : string) : option string :=
  match s with
  | EmptyString => None
  | String c rest =>
      match from_last_dot rest with
      | Some x => Some x
      | None => if Ascii.eqb c (Ascii.ascii_of_nat 46) then Some s else None
      end
  end.

Definition flat_extname (s : string) : string :=
  match s with
  | EmptyString => EmptyString
  | String _ rest =>
      if String.eqb s ".." then EmptyString
      else default EmptyString (from_last_dot rest)
  end.

(** [path.basename(s, ext)]: an empty suffix is ignored, a suffix that is
    the whole name gives the empty string, a proper suffix is removed. *)
Definition flat_basename (s ext : string) : string :=
  let n := (String.length s - String.length ext)%nat in
  match ext with
  | EmptyString => s
  | _ =>
      if String.eqb s ext then EmptyString
      else if String.eqb (String.substring n (String.length ext) s) ext
      then String.substring 0 n s
      else s
  end.

Definition flat_path : PathModule :=
  {| extname := flat_extname;
     basename := flat_basename;
     dirname := fun _ => ".";
     join := fun dir name => if String.eqb dir "." then name else dir +:+ "/" +:+ name |}.

(* ===================================================================== *)
(** ** Specification-level notions *)
(* ===================================================================== *)

(** A number that is an exact integer of [0, 2^32). *)
Definition uint32_number (n : Number) : Prop :=
  exists (z : Z) (q : Q), n = Finite q /\ (q == inject_Z z)%Q /\ 0 <= z < 2 ^ 32.

(** How an optional threshold ends up in the writer: absent ([undefined]
    or [null]) it leaves the default, supplied it is an exact unsigned
    32-bit integer and is stored as given. *)
Definition stored (v : JsVal) (field default : Number) : Prop :=
  (not_nullish v = false /\ field = default) \/
  (exists n, v = VNumber n /\ uint32_number n /\ field = n).

(** A supplied threshold that is not an exact unsigned 32-bit integer. *)
Definition refused (v : JsVal) : Prop :=
  not_nullish v = true /\ ~ (exists n, v = VNumber n /\ uint32_number n).

(** The name of a rotated file: the sequence id inserted before the
    extension of the base name, in the directory of the active file. *)
Definition rotated_name (path : PathModule) (name : string) (seq : N) : string :=
  join path (dirname path name)
    (basename path name (extname path name) +:+ "." +:+ decimal seq +:+ extname path name).

(** The state [st] with no retry pending: marker clear, no timeout. *)
Definition no_retry_pending (st : State) : State :=
  upd_this (set_timer None) (upd_env (set_timeouts []) st).

(** What open() asserts on entry. *)
Definition openable (st : State) : Prop :=
  truthy_string (filename (this st)) = true /\
  stream (this st) = None /\
  closed (this st) = true.

(** What the direct path hands to the stream for one record. *)
Definition record_chunks (first : bool) (json : Json) : list string :=
  if first then [trace_prefix; JSON_stringify json]
  else ["," +:+ JSON_stringify json].

(** The direct path of writeTrace up to the size test: the delimiter and
    the record are written and the size is updated. *)
Definition direct_write (s : StreamRef) (json : Json) (st : State) : State :=
  let str := JSON_stringify json in
  let st :=
    if negb (firstEntry (this st))
    then upd_env (stream_write s ("," +:+ str)) st
    else
      let st := upd_env (stream_write s trace_prefix) st in
      let st := upd_env (stream_write s str) st in
      upd_this (set_firstEntry false) st in
  upd_this (fun w => set_fileSize (num_add_prop (fileSize w) (json_length json)) w) st.

(** *** Order of the records *)

(** The records the owner was told were accepted, in call order. *)
Definition accepted (calls : list (Json * bool)) : list Json :=
  map fst (List.filter snd calls).

(** [Chunks cs js]: the chunks [cs] taken by the streams are the records
    [js] in this order, each as a first or a subsequent entry, with the
    closing delimiters of finished files in between. *)
Inductive Chunks : list string -> list Json -> Prop :=
| chunks_nil : Chunks [] []
| chunks_first j cs js :
    Chunks cs js -> Chunks (trace_prefix :: JSON_stringify j :: cs) (j :: js)
| chunks_next j cs js :
    Chunks cs js -> Chunks (("," +:+ JSON_stringify j) :: cs) (j :: js)
| chunks_close cs js :
    Chunks cs js -> Chunks ("]}" :: cs) js.

(** A run in which the owner only submits records: no call of open(),
    close() or rotate() while the writer works, no stream error. *)
Definition owner_only_writes (ev : Event) : Prop :=
  match ev with
  | CallWriteTrace _ | Complete _ _ | TimerFires => True
  | _ => False
  end.

(** The immediate-write path applied to the records [js] in turn. *)
Fixpoint write_all (path : PathModule) (js : list Json) (st : State) : State :=
  match js with
  | [] => st
  | j :: js' => write_all path js' (snd (writeTrace path j st))
  end.

(** Every one of these writes was made while not rotating and returned
    true. *)
Fixpoint drained_ok (path : PathModule) (js : list Json) (st : State) : bool :=
  match js with
  | [] => true
  | j :: js' =>
      negb (rotating (this st)) && fst (writeTrace path j st)
      && drained_ok path js' (snd (writeTrace path j st))
  end.

(** The queue is empty, a rotation is under way, or the head of the queue
    is refused by the immediate-write path. *)
Definition drain_stopped (path : PathModule) (st : State) : Prop :=
  match _bufferedEntries (this st) with
  | [] => True
  | msg :: rest =>
      rotating (this st) = true \/
      fst (writeTrace path msg (upd_this (set_bufferedEntries rest) st)) = false
  end.

(** A constructed writer before its first open(): closed, idle, nothing
    queued, no retry pending. *)
Definition never_opened (st : State) : Prop :=
  truthy_string (filename (this st)) = true /\
  stream (this st) = None /\ closed (this st) = true /\
  closing (this st) = false /\ rotating (this st) = false /\
  _bufferedEntries (this st) = [] /\ timer (this st) = None /\
  timeouts (env st) = [] /\ tasks (env st) = [].

(** The stream of the writer takes data and no call is in flight. *)
Definition Writable (st : State) : Prop :=
  exists s p,
    stream (this st) = Some s /\ writable_path (env st) s = Some p /\
    closed (this st) = false /\ rotating (this st) = false /\
    closing (this st) = false /\ tasks (env st) = [] /\
    timer (this st) = None /\ timeouts (env st) = [].

(** The phases of the writer in a run where the owner only writes. *)
Inductive Shape (st : State) : Prop :=
| shape_idle :
    tasks (env st) = [] -> stream (this st) = None -> closed (this st) = true ->
    rotating (this st) = false -> closing (this st) = false ->
    (timer (this st) = None /\ timeouts (env st) = [] \/
     is_set (timer (this st)) = true /\ exists d, timeouts (env st) = [d]) ->
    Shape st
| shape_opening fr k :
    tasks (env st) = [fr :: k] ->
    (fr = AwaitStat (filename (this st)) \/
     fr = AwaitOpenStream (filename (this st)) FlagW) ->
    (k = [] \/ k = [InRotateOpen]) ->
    stream (this st) = None -> closed (this st) = true ->
    rotating (this st) = false -> closing (this st) = false ->
    timer (this st) = None -> timeouts (env st) = [] ->
    Shape st
| shape_active :
    Writable st -> _bufferedEntries (this st) = [] -> Shape st
| shape_rotate_closing s fr :
    tasks (env st) = [[fr; InRotateClose]] ->
    (fr = AwaitEnd s \/ fr = AwaitClose s) ->
    stream (this st) = Some s -> closed (this st) = false ->
    rotating (this st) = true -> closing (this st) = true ->
    timer (this st) = None -> timeouts (env st) = [] ->
    Shape st
| shape_rotate_rename a b :
    tasks (env st) = [[AwaitRename a b]] ->
    stream (this st) = None -> closed (this st) = true ->
    rotating (this st) = true -> closing (this st) = false ->
    timer (this st) = None -> timeouts (env st) = [] ->
    Shape st
| shape_stuck :
    tasks (env st) = [] -> rotating (this st) = true ->
    timeouts (env st) = [] ->
    Shape st.

(** The chunks taken since [sunk0] are the accepted records that left the
    queue, and the queue holds the remaining accepted records, in order. *)
Definition InOrder (sunk0 : list string) (calls0 : list (Json * bool)) (st : State) : Prop :=
  exists chunks emitted,
    sunk (env st) = sunk0 ++ chunks /\
    Chunks chunks emitted /\
    accepted (returned (env st)) =
    accepted calls0 ++ emitted ++ _bufferedEntries (this st).

(** A rotation started from the write path has reached its first await. *)
Definition RotateStarted (st : State) : Prop :=
  exists s,
    tasks (env st) = [[AwaitEnd s; InRotateClose]] /\
    stream (this st) = Some s /\ closed (this st) = false /\
    rotating (this st) = true /\ closing (this st) = true /\
    timer (this st) = None /\ timeouts (env st) = [].

(** What holds of the writer throughout such a run. *)
Definition Inv (sunk0 : list string) (calls0 : list (Json * bool)) (st : State) : Prop :=
  truthy_string (filename (this st)) = true /\ Shape st /\ InOrder sunk0 calls0 st.

(** A record has been written: the next one is not a first entry. *)
Definition entry_written (st : State) : Prop := firstEntry (this st) = false.

(** The sequence id, the number of renames done, the retry marker and the
    pending timeouts. *)
Definition counters (st : State) : N * nat * option nat * list nat :=
  (id (this st), length (renames (env st)), timer (this st), timeouts (env st)).

(** The sequence id is the number of renames done. *)
Definition ids_count_renames (st : State) : Prop :=
  id (this st) = N.of_nat (length (renames (env st))).

(** A timeout is pending exactly when the retry marker is set, and then
    there is one. *)
Definition one_retry_at_most (st : State) : Prop :=
  timer (this st) = None /\ timeouts (env st) = [] \/
  is_set (timer (this st)) = true /\ exists d, timeouts (env st) = [d].

(** *** Sample data for the concrete scenarios *)

Definition quoted (s : string) : string := dquote +:+ s +:+ dquote.

(** markTrace(name, phase) of lib/trace.js followed by JSON.stringify, for
    a process id, a timestamp given by its decimal text, and a name and a
    phase that need no escaping. The object has no [length] property. *)
Definition markTrace (pid : N) (ts name phase : string) : Json :=
  plain_record
    ("{" +:+ quoted "pid" +:+ ":" +:+ decimal pid +:+ ","
         +:+ quoted "tid" +:+ ":" +:+ decimal pid +:+ ","
         +:+ quoted "ts" +:+ ":" +:+ ts +:+ ","
         +:+ quoted "name" +:+ ":" +:+ quoted name +:+ ","
         +:+ quoted "ph" +:+ ":" +:+ quoted phase +:+ "}").

Definition rec_a : Json := Eval vm_compute in markTrace 7 "1.5" "load:0" "B".
Definition rec_b : Json := Eval vm_compute in markTrace 7 "2.25" "load:0" "E".
Definition rec_c : Json := Eval vm_compute in markTrace 7 "3" "save:1" "B".

(** new RotatingTraceLog({filename, maxFileSize}) *)
Definition new_writer (name : string) (limit : Z) : Writer :=
  match constructor (ArgObject (mkOptions (VString name) VUndefined (VNumber (num_of_Z limit)))) with
  | inr w => w
  | inl _ => initial
  end.

(** A writer on trace.json rotating at 10 bytes, in an empty directory,
    before open() and after a successful open(). *)
Definition closed_small : State := boot (new_writer "trace.json" 10) ∅.

Definition opened_small : State :=
  run flat_path [CallOpen; Complete 0 None; Complete 0 None] closed_small.

(** The open writer after one record. *)
Definition written_small : State :=
  run flat_path [CallWriteTrace rec_a] opened_small.

(** The same writer next to a trace left by an earlier run. *)
Definition earlier_trace : string :=
  Eval vm_compute in (trace_prefix +:+ json_text rec_a).

Definition closed_on_existing : State :=
  boot (new_writer "trace.json" 100000000) {[ "trace.json" := earlier_trace ]}.

(** A record that carries a numeric [length] equal to the length of its
    serialization, for runs in which the size test fires. *)
Definition sized_record (text : string) : Json :=
  {| json_length := Some (size_of text); json_text := text |}.

(** Three records of 6 bytes submitted to the writer rotating at 10 bytes
    once open() has succeeded, then the completions of the rotation that
    the second one starts and of the open() that follows. *)
Definition rotation_run : list Event :=
  [Complete 0 None; Complete 0 None;
   CallWriteTrace (sized_record "AAAAAA");
   CallWriteTrace (sized_record "BBBBBB");
   CallWriteTrace (sized_record "CCCCCC");
   Complete 0 None; Complete 0 None; Complete 0 None;
   Complete 0 None; Complete 0 None].

(** open() on the writer that was never opened, the stat answering and
    the stream failing to open for lack of permission. *)
Definition failed_open_run : list Event :=
  [CallOpen; Complete 0 None; Complete 0 (Some (SystemError "EACCES"))].

(** *** Further notions *)

(** The text that a sequence of chunks adds to a file. *)
Definition text_of (chunks : list string) : string :=
  fold_right String.append EmptyString chunks.

(** The run [evs] from [st] never resumes a close() that waits for the end
    or for the closing of its stream. *)
Fixpoint close_kept_waiting (path : PathModule) (evs : list Event) (st : State) : Prop :=
  match evs with
  | [] => True
  | ev :: evs' =>
      match ev with
      | Complete i _ =>
          match tasks (env st) !! i with
          | Some (AwaitEnd _ :: _) | Some (AwaitClose _ :: _) => False
          | _ => True
          end
      | _ => True
      end /\ close_kept_waiting path evs' (step path ev st)
  end.

(** The records submitted in a run, in call order. *)
Definition submitted (evs : list Event) : list Json :=
  omap (fun ev => match ev with CallWriteTrace j => Some j | _ => None end) evs.

(** *** Further sample data *)

(** The open writer of the samples while a rotation asked by the owner
    waits for the end of its stream. *)
Definition rotating_small : State := step flat_path CallRotate written_small.

(** The same writer after a close() whose closing of the stream failed:
    the stream is ended, yet [this.stream] still refers to it. *)
Definition failed_close_small : State :=
  run flat_path [CallClose; Complete 0 None; Complete 0 (Some (SystemError "EIO"))]
    opened_small.

(** A JavaScript string as a record: it has a [length], its number of
    characters, and serializes to itself between quotes (for characters
    that need no escaping). *)
Definition string_record (s : string) : Json :=
  {| json_length := Some (size_of s); json_text := quoted s |}.

(** After open() has succeeded on the writer rotating at 10 bytes: a
    record of 12 characters, which starts a rotation; a record submitted
    during the rotation; the stream ends and closes; the rename fails. *)
Definition failed_rename_run : list Event :=
  [Complete 0 None; Complete 0 None;
   CallWriteTrace (string_record "AAAAAAAAAAAA");
   CallWriteTrace (string_record "late");
   Complete 0 None; Complete 0 None;
   Complete 0 (Some (SystemError "EACCES"))].

(** [st'] comes from [st] by steps that resume no suspended call and reset
    no [closing]: the suspended calls of [st] are still suspended and
    [closing], if set, is still set. *)
Definition nothing_resumed (st st' : State) : Prop :=
  (exists more, tasks (env st') = tasks (env st) ++ more) /\
  (closing (this st) = true -> closing (this st') = true).

(** *** Runs used by the further properties *)

(** The stat phase of open() passes: the stat answers, or fails for a
    missing file. *)
Definition stat_passes (sf : option Error) : Prop :=
  match sf with
  | None => True
  | Some e => has_code e "ENOENT" = true
  end.

(** One attempt of open() that fails to open the sink, up to the firing of
    the retry timer: the stat settles (with fault [fst a], if any), the
    stream fails with [snd a], the timeout fires. *)
Definition failed_attempt (a : option Error * Error) : list Event :=
  [Complete 0 (fst a); Complete 0 (Some (snd a)); TimerFires].

(** One call of open() by the owner, any number of failed attempts, and a
    last attempt that succeeds. *)
Definition retried_open (attempts : list (option Error * Error))
    (last_stat : option Error) : list Event :=
  CallOpen :: concat (map failed_attempt attempts) ++ [Complete 0 last_stat; Complete 0 None].

(** *** Runs without a request for rotation *)

(** An event that asks for no rotation: any but a call of rotate(), and a
    call of writeTrace only with a record that has no [length], as the
    marks of lib/trace.js are. *)
Definition no_rotation_asked (ev : Event) : Prop :=
  match ev with
  | CallRotate => False
  | CallWriteTrace j => json_length j = None
  | _ => True
  end.

(** A suspended open() or close() that no rotate() awaits. *)
Definition own_call (t : Task) : Prop :=
  match t with
  | [AwaitStat _] | [AwaitOpenStream _ _] | [AwaitEnd _] | [AwaitClose _] => True
  | _ => False
  end.

(** No rotation is under way and none is waiting in the queue. *)
Definition no_rotation_under_way (st : State) : Prop :=
  rotating (this st) = false /\
  Forall own_call (tasks (env st)) /\
  Forall (fun j => json_length j = None) (_bufferedEntries (this st)).

(** What a run without a request for rotation keeps: no rotation under
    way, the renames done and the sequence id. *)
Definition unrotated (R : list (string * string)) (n : N) (st : State) : Prop :=
  no_rotation_under_way st /\ renames (env st) = R /\ id (this st) = n.

(** *** The text of a sequence of records in a file *)

(** What the immediate-write path appends for the records [js] in turn,
    the first one as a first entry when [first] is set. *)
Fixpoint entries (first : bool) (js : list Json) : string :=
  match js with
  | [] => EmptyString
  | j :: js' =>
      (if first then trace_prefix +:+ JSON_stringify j else "," +:+ JSON_stringify j)
      +:+ entries false js'
  end.

(** A rotation asked by the owner, with the records submitted during each
    of its five waits: for the end of the stream, for its closing, for the
    rename, for the stat of the new file and for the new stream. *)
Definition rotation_with_writes (during_end during_close during_rename
    during_stat during_open : list Json) (stat_fault : option Error) : list Event :=
  [CallRotate] ++ map CallWriteTrace during_end ++
  [Complete 0 None] ++ map CallWriteTrace during_close ++
  [Complete 0 None] ++ map CallWriteTrace during_rename ++
  [Complete 0 None] ++ map CallWriteTrace during_stat ++
  [Complete 0 stat_fault] ++ map CallWriteTrace during_open ++
  [Complete 0 None].

(* ===================================================================== *)
(** ** lib/trace.js: PerformanceTraces *)
(* ===================================================================== *)

Module PerformanceTraces.

(** [Boolean(v)]: what [if (v)] and [!v] test. *)
Definition truthy (v : JsVal) : bool :=
  match v with
  | VUndefined | VNull => false
  | VBoolean b => b
  | VNumber NaN => false
  | VNumber (Infinity _) => true
  | VNumber (Finite q) => negb (Qeq_bool q 0)
  | VString s => truthy_string s
  | VObject => true
  end.

(** The properties of the options that the class and the TraceFile it
    creates read; [VUndefined] where the value has no such property. *)
Record TracesOptions : Type := mkTracesOptions {
  opt_console : JsVal;
  opt_file : Options
}.

(** The argument of the constructor: [undefined], [null], another falsy
    value (false, 0, NaN, the empty string), or a truthy value with its
    properties and whether its [typeof] is ['object']. *)
Inductive Arg : Type :=
| OptUndefined
| OptNull
| OptFalsy
| OptTruthy (is_object : bool) (o : TracesOptions).

(** What a constructor throws: an error of the writer's kinds, or a plain
    [Error] with its message. *)
Inductive Thrown : Type :=
| Raised (e : Error)
| PlainError (message : string).

Record Traces : Type := mkTraces {
  options : Arg;
  filename : option string;      (* null or a string *)
  file : option Writer;          (* null or the TraceFile *)
  console : option bool          (* undefined until fromOptions sets it *)
}.

Definition set_filename v (t : Traces) : Traces :=
  mkTraces (options t) v (file t) (console t).
Definition set_file v (t : Traces) : Traces :=
  mkTraces (options t) (filename t) v (console t).
Definition set_console v (t : Traces) : Traces :=
  mkTraces (options t) (filename t) (file t) v.

(** [!this.filename] and [!this.console] *)
Definition no_filename (t : Traces) : bool :=
  match filename t with
  | Some s => negb (truthy_string s)
  | None => true
  end.

Definition no_console (t : Traces) : bool :=
  match console t with
  | Some b => negb b
  | None => true
  end.

(** fromOptions(options): lines 47-64. *)
Definition fromOptions (opts : Arg) (this : Traces) : Thrown + Traces :=
  match opts with
  | OptUndefined | OptNull | OptFalsy => inl (Raised (AssertionError EmptyString))
  | OptTruthy _ o =>
      match
        (if not_nullish (opt_filename (opt_file o))
         then match opt_filename (opt_file o) with
              | VString s => inr (set_filename (Some s) this)
              | _ => inl (Raised (AssertionError EmptyString))
              end
         else inr this)
      with
      | inl e => inl e
      | inr this =>
          match
            (if not_nullish (opt_console o)
             then match opt_console o with
                  | VBoolean b => inr (set_console (Some b) this)
                  | _ => inl (Raised (AssertionError EmptyString))
                  end
             else inr this)
          with
          | inl e => inl e
          | inr this =>
              if no_filename this && no_console this
              then inl (PlainError "You need to choose the logger.")
              else inr this
          end
      end
  end.

(** init(): lines 66-69. Reading a property of [undefined] or [null]
    throws a TypeError; [new TraceFile(this.options)] is the constructor of
    the writer on the same value. *)
Definition init (this : Traces) : Thrown + Traces :=
  match options this with
  | OptUndefined | OptNull => inl (Raised TypeError)
  | OptFalsy => inr this
  | OptTruthy is_object o =>
      if truthy (opt_filename (opt_file o))
      then
        match constructor (if is_object then ArgObject (opt_file o) else ArgPrimitive) with
        | inl e => inl (Raised e)
        | inr w => inr (set_file (Some w) this)
        end
      else inr this
  end.

(** [new PerformanceTraces(options)]: lines 28-38. *)
Definition constructor (opts : Arg) : Thrown + Traces :=
  let this := mkTraces opts None None None in
  match
    (match opts with
     | OptUndefined | OptNull => inr this
     | _ => fromOptions opts this
     end)
  with
  | inl e => inl e
  | inr this => init this
  end.

(** *** timerifyFn *)

(** The calls of [this.trace(name, phase)], in order. *)
Definition TraceLog : Type := list (string * string).

Definition trace (name phase : string) (log : TraceLog) : TraceLog :=
  log ++ [(name, phase)].

Section Timerify.

(** The values that functions return and throw. *)
Variable Value : Type.

(** How a call ends: it returns a value that is not a promise, it throws,
    or it returns a promise. *)
Inductive Outcome : Type :=
| Returned (v : Value)
| Threw (e : Value)
| ReturnedPromise (p : nat).

(** What the body of a function does as far as tracing goes: it ends, or
    it calls the proxy that timerifyFn made for the name [fullname] and a
    target, and goes on with what the proxy gave back. *)
Inductive Behaviour : Type :=
| Done (o : Outcome)
| Call (fullname : string) (target : Behaviour) (k : Outcome -> Behaviour).

(** The promises chained by proxies that have not settled: the promise of
    the target, the name to trace, and the promise given to the caller. *)
Record Tracing : Type := mkTracing {
  log : TraceLog;
  chained : list (nat * string * nat);
  next_promise : nat
}.

(** The [apply] trap of the proxy, lines 106-129, around a target whose
    run is [target]. *)
Definition apply (target : Tracing -> Outcome * Tracing) (fullname : string)
    (st : Tracing) : Outcome * Tracing :=
  let st := mkTracing (trace fullname "B" (log st)) (chained st) (next_promise st) in
  let '(result, st) := target st in
  match result with
  | ReturnedPromise p =>
      (ReturnedPromise (next_promise st),
       mkTracing (log st) (chained st ++ [(p, fullname, next_promise st)])
         (S (next_promise st)))
  | Returned v =>
      (Returned v, mkTracing (trace fullname "E" (log st)) (chained st) (next_promise st))
  | Threw e =>
      (Threw e, mkTracing (trace fullname "E" (log st)) (chained st) (next_promise st))
  end.

Fixpoint exec (b : Behaviour) (st : Tracing) : Outcome * Tracing :=
  match b with
  | Done o => (o, st)
  | Call fullname target k =>
      let '(o, st) := apply (exec target) fullname st in
      exec (k o) st
  end.

(** A call that ends without a promise. *)
Definition synchronous (o : Outcome) : Prop :=
  match o with
  | ReturnedPromise _ => False
  | _ => True
  end.

(** A body in which no call ends with a promise. *)
Fixpoint all_synchronous (b : Behaviour) : Prop :=
  match b with
  | Done o => synchronous o
  | Call _ target k =>
      all_synchronous target /\ forall o, synchronous o -> all_synchronous (k o)
  end.

End Timerify.

(** The trace is well nested over the open calls [stack]: every 'E'
    closes the innermost open 'B', which has its name, and nothing stays
    open. *)
Fixpoint nested (stack : list string) (l : TraceLog) : bool :=
  match l with
  | [] => match stack with [] => true | _ => false end
  | (name, phase) :: l' =>
      if String.eqb phase "B" then nested (name :: stack) l'
      else if String.eqb phase "E" then
        match stack with
        | open :: stack' => String.eqb open name && nested stack' l'
        | [] => false
        end
      else false
  end.

(** [`${name}:${fn.name}`] *)
Definition fullname (name fn_name : string) : string := name +:+ ":" +:+ fn_name.

End PerformanceTraces.


(* ===================================================================== *)
(** ** lib/performance.js *)
(* ===================================================================== *)

Module PerformanceLogger.

Record Logger : Type := mkLogger {
  console : bool;
  filename : option string       (* null or a string *)
}.

(** fromOptions(options): lines 31-46. *)
Definition fromOptions (opts : PerformanceTraces.Arg) (this : Logger) :
    PerformanceTraces.Thrown + Logger :=
  match opts with
  | PerformanceTraces.OptUndefined | PerformanceTraces.OptNull
  | PerformanceTraces.OptFalsy =>
      inl (PerformanceTraces.Raised (AssertionError EmptyString))
  | PerformanceTraces.OptTruthy _ o =>
      match
        (if not_nullish (opt_filename (PerformanceTraces.opt_file o))
         then match opt_filename (PerformanceTraces.opt_file o) with
              | VString s => inr (mkLogger (console this) (Some s))
              | _ => inl (PerformanceTraces.Raised (AssertionError EmptyString))
              end
         else inr this)
      with
      | inl e => inl e
      | inr this =>
          match
            (if not_nullish (PerformanceTraces.opt_console o)
             then match PerformanceTraces.opt_console o with
                  | VBoolean b => inr (mkLogger b (filename this))
                  | _ => inl (PerformanceTraces.Raised (AssertionError EmptyString))
                  end
             else inr this)
          with
          | inl e => inl e
          | inr this =>
              if negb (truthy_string (default EmptyString (filename this)))
                 && negb (console this)
              then inl (PerformanceTraces.PlainError "You need to choose the logger.")
              else inr this
          end
      end
  end.

(** [new PerformanceLogger(options)]: lines 18-29. *)
Definition constructor (opts : PerformanceTraces.Arg) :
    PerformanceTraces.Thrown + Logger :=
  let this := mkLogger true None in
  match opts with
  | PerformanceTraces.OptUndefined | PerformanceTraces.OptNull => inr this
  | _ => fromOptions opts this
  end.

End PerformanceLogger.

(** *** start(name) and the function it returns *)

Module Performance.

(** The marks and the measures of the performance timeline, by name, in
    the order of their creation. *)
Record Timeline : Type := mkTimeline {
  marks : list string;
  measures : list (string * string * string)   (* name, start mark, end mark *)
}.

(** [performance.mark(name)] *)
Definition mark (name : string) (tl : Timeline) : Timeline :=
  mkTimeline (marks tl ++ [name]) (measures tl).

(** [performance.measure(name, startMark, endMark)]: throws when one of
    the marks does not exist ([None]). *)
Definition measure (name startMark endMark : string) (tl : Timeline) : option Timeline :=
  if bool_decide (startMark ∈ marks tl) && bool_decide (endMark ∈ marks tl)
  then Some (mkTimeline (marks tl) (measures tl ++ [(name, startMark, endMark)]))
  else None.

(** The variables that the function returned by start(name) closes over. *)
Record Session : Type := mkSession {
  name : string;
  lastname : string
}.

(** start(name): lines 101-115, up to the creation of the closure. [ID] is
    the counter of the module, below 2^53, where [ID++] is exact. *)
Definition start (name : string) (ID : N) (tl : Timeline) : Session * N * Timeline :=
  let name := name +:+ ":" +:+ decimal ID in
  (mkSession name name, (ID + 1)%N, mark name tl).

(** markMeasure(markName): lines 106-112; [None] when measure throws. *)
Definition markMeasure (markName : string) (s : Session) (tl : Timeline) :
    option (Session * Timeline) :=
  let fullname := name s +:+ "-" +:+ markName in
  let tl := mark fullname tl in
  match measure fullname (lastname s) fullname tl with
  | Some tl => Some (mkSession (name s) fullname, tl)
  | None => None
  end.

(** The calls markMeasure(m) for the [ms] in turn. *)
Fixpoint markMeasures (ms : list string) (s : Session) (tl : Timeline) :
    option (Session * Timeline) :=
  match ms with
  | [] => Some (s, tl)
  | m :: ms' =>
      match markMeasure m s tl with
      | Some (s, tl) => markMeasures ms' s tl
      | None => None
      end
  end.

(** The measures of a session that starts at the mark [from]: each one
    named after its own mark, from the mark before it to its own. *)
Fixpoint chain (session from : string) (ms : list string) : list (string * string * string) :=
  match ms with
  | [] => []
  | m :: ms' =>
      let fullname := session +:+ "-" +:+ m in
      (fullname, from, fullname) :: chain session fullname ms'
  end.

(** The mark that the last of these measures ends at. *)
Fixpoint last_mark (session from : string) (ms : list string) : string :=
  match ms with
  | [] => from
  | m :: ms' => last_mark session (session +:+ "-" +:+ m) ms'
  end.

(** No colon in a string. *)
Fixpoint no_colon (s : string) : bool :=
  match s with
  | EmptyString => true
  | String c s' => negb (Ascii.eqb c (Ascii.ascii_of_nat 58)) && no_colon s'
  end.

End Performance.


(* ===================================================================== *)
(** ** The stream helpers of lib/tracefile.js, at the level of listeners *)
(* ===================================================================== *)

Module StreamHelpers.

(** The events of a write stream that the file listens to. *)
Inductive EventName : Type := EvError | EvOpen | EvFinish | EvClose.

#[global] Instance EventName_eq_dec : EqDecision EventName.
Proof. solve_decision. Defined.

(** The listeners: the closures of openStream, endStream and closeStream,
    the handler that open() installs ([e => this.handleError(e)]), and
    listeners of anyone else. *)
Inductive Listener : Type :=
| OpenOnError | OpenOnOpen
| EndResolve
| CloseOnError | CloseOnClose
| WriterOnError
| Foreign (n : nat).

#[global] Instance Listener_eq_dec : EqDecision Listener.
Proof. solve_decision. Defined.

(** A promise: pending, resolved, or rejected with an error. *)
Inductive Promise : Type := Pending | Resolved | Rejected (e : Error).

(** [resolve()] and [reject(e)]: only the first call of either counts. *)
Definition settle (outcome : Promise) (p : Promise) : Promise :=
  match p with
  | Pending => outcome
  | _ => p
  end.

(** A stream as an event emitter, with what the helpers did to it. Each
    listener is registered for one event, with [once] (the flag is true)
    or with [on]. *)
Record Emitter : Type := mkEmitter {
  listeners : list (EventName * Listener * bool);
  close_calls : nat;                 (* calls of stream.close() *)
  end_calls : nat;                   (* calls of stream.end() *)
  opened : Promise;                  (* the promise of openStream *)
  ended : Promise;                   (* the promise of endStream *)
  closed : Promise;                  (* the promise of closeStream *)
  handled : list Error;              (* the errors given to handleError *)
  unhandled : list Error             (* 'error' events that found no listener *)
}.

Definition set_listeners v (em : Emitter) : Emitter :=
  mkEmitter v (close_calls em) (end_calls em) (opened em) (ended em) (closed em)
    (handled em) (unhandled em).

(** [stream.once(name, l)] *)
Definition once (name : EventName) (l : Listener) (em : Emitter) : Emitter :=
  set_listeners (listeners em ++ [(name, l, true)]) em.

(** Removes the last registration of [l] for [name] from a list. *)
Fixpoint remove_last (name : EventName) (l : Listener)
    (ls : list (EventName * Listener * bool)) : list (EventName * Listener * bool) :=
  match ls with
  | [] => []
  | (n, x, o) :: rest =>
      if bool_decide (n = name /\ x = l) &&
         negb (bool_decide (Exists (fun r => fst (fst r) = name /\ snd (fst r) = l) rest))
      then rest
      else (n, x, o) :: remove_last name l rest
  end.

(** [stream.removeListener(name, l)]: at most one registration goes, the
    most recent one. *)
Definition removeListener (name : EventName) (l : Listener) (em : Emitter) : Emitter :=
  set_listeners (remove_last name l (listeners em)) em.

(** [stream.removeAllListeners(name)] *)
Definition removeAllListeners (name : EventName) (em : Emitter) : Emitter :=
  set_listeners (List.filter (fun r => negb (bool_decide (fst (fst r) = name))) (listeners em)) em.

(** [stream.close()] *)
Definition close (em : Emitter) : Emitter :=
  mkEmitter (listeners em) (S (close_calls em)) (end_calls em) (opened em) (ended em)
    (closed em) (handled em) (unhandled em).

(** The body of a listener, called with the argument of the event. *)
Definition call (l : Listener) (err : Error) (em : Emitter) : Emitter :=
  match l with
  | OpenOnError =>
      (* lines 296-304: close, cleanup, reject *)
      let em := close em in
      let em := removeListener EvError OpenOnError em in
      let em := removeListener EvOpen OpenOnOpen em in
      mkEmitter (listeners em) (close_calls em) (end_calls em)
        (settle (Rejected err) (opened em)) (ended em) (closed em) (handled em) (unhandled em)
  | OpenOnOpen =>
      (* lines 306-309: cleanup, resolve *)
      let em := removeListener EvError OpenOnError em in
      let em := removeListener EvOpen OpenOnOpen em in
      mkEmitter (listeners em) (close_calls em) (end_calls em)
        (settle Resolved (opened em)) (ended em) (closed em) (handled em) (unhandled em)
  | EndResolve =>
      mkEmitter (listeners em) (close_calls em) (end_calls em)
        (opened em) (settle Resolved (ended em)) (closed em) (handled em) (unhandled em)
  | CloseOnError =>
      (* lines 341-344: cleanup, reject *)
      let em := removeListener EvError CloseOnError em in
      let em := removeListener EvClose CloseOnClose em in
      mkEmitter (listeners em) (close_calls em) (end_calls em)
        (opened em) (ended em) (settle (Rejected err) (closed em)) (handled em) (unhandled em)
  | CloseOnClose =>
      (* lines 346-349: cleanup, resolve *)
      let em := removeListener EvError CloseOnError em in
      let em := removeListener EvClose CloseOnClose em in
      mkEmitter (listeners em) (close_calls em) (end_calls em)
        (opened em) (ended em) (settle Resolved (closed em)) (handled em) (unhandled em)
  | WriterOnError =>
      mkEmitter (listeners em) (close_calls em) (end_calls em)
        (opened em) (ended em) (closed em) (handled em ++ [err]) (unhandled em)
  | Foreign _ => em
  end.

(** [stream.emit(name, err)]: the listeners registered for the event at
    that moment are called in the order of their registration; one
    registered with [once] is removed before it is called. An 'error'
    event without listener is thrown by the emitter. *)
Definition emit (name : EventName) (err : Error) (em : Emitter) : Emitter :=
  let now := List.filter (fun r => bool_decide (fst (fst r) = name)) (listeners em) in
  match now, name with
  | [], EvError =>
      mkEmitter (listeners em) (close_calls em) (end_calls em)
        (opened em) (ended em) (closed em) (handled em) (unhandled em ++ [err])
  | _, _ =>
      fold_left
        (fun (em : Emitter) (r : EventName * Listener * bool) =>
           let em :=
             if snd r then removeListener (fst (fst r)) (snd (fst r)) em else em in
           call (snd (fst r)) err em)
        now em
  end.

(** The executor of openStream, lines 285-312, on the stream that
    createWriteStream returned. *)
Definition openStream (em : Emitter) : Emitter :=
  once EvOpen OpenOnOpen (once EvError OpenOnError em).

(** The executor of endStream, lines 321-324. *)
Definition endStream (em : Emitter) : Emitter :=
  let em := once EvFinish EndResolve em in
  mkEmitter (listeners em) (close_calls em) (S (end_calls em)) (opened em) (ended em)
    (closed em) (handled em) (unhandled em).

(** The executor of closeStream, lines 333-357. *)
Definition closeStream (em : Emitter) : Emitter :=
  let em := removeAllListeners EvError em in
  let em := removeAllListeners EvClose em in
  let em := once EvError CloseOnError em in
  let em := once EvClose CloseOnClose em in
  close em.

(** The events that the stream emits over time. *)
Definition emits (evs : list (EventName * Error)) (em : Emitter) : Emitter :=
  fold_left (fun (em : Emitter) (ev : EventName * Error) => emit (fst ev) (snd ev) em) evs em.

(** A stream as createWriteStream returns it, with the listeners that
    others registered. *)
Definition fresh (others : list (EventName * Listener * bool)) : Emitter :=
  mkEmitter others 0 0 Pending Pending Pending [] [].

(** A listener of the file is registered. *)
Definition registered (l : Listener) (em : Emitter) : Prop :=
  Exists (fun r => snd (fst r) = l) (listeners em).

(** The listeners of an event, in the order of registration. *)
Definition listeners_of (name : EventName) (em : Emitter) : list Listener :=
  map (fun r => snd (fst r))
    (List.filter (fun r => bool_decide (fst (fst r) = name)) (listeners em)).

(** The promise was not rejected. *)
Definition not_rejected (p : Promise) : Prop :=
  match p with
  | Rejected _ => False
  | _ => True
  end.

(** The closure of endStream is registered for ['finish'] only. *)
Definition resolve_on_finish_only (em : Emitter) : Prop :=
  Forall (fun r => snd (fst r) = EndResolve -> fst (fst r) = EvFinish) (listeners em).

(** A listener that is none of the file's. *)
Definition foreign (r : EventName * Listener * bool) : Prop :=
  match snd (fst r) with
  | Foreign _ => True
  | _ => False
  end.

(** What the first ['open'] or ['error'] among the events makes of the
    promise of openStream. *)
Fixpoint first_outcome (evs : list (EventName * Error)) : Promise :=
  match evs with
  | [] => Pending
  | (EvOpen, _) :: _ => Resolved
  | (EvError, e) :: _ => Rejected e
  | _ :: rest => first_outcome rest
  end.

End StreamHelpers.

(* ===================================================================== *)
(** ** Properties *)
(* ===================================================================== *)

Ltac open_state st :=
  destruct st as
    [[?v_stream ?v_fileSize ?v_closed ?v_closing ?v_rotating ?v_queue ?v_filename
      ?v_maxFiles ?v_maxFileSize ?v_id ?v_firstEntry ?v_timer]
     [?e_fs ?e_streams ?e_sunk ?e_renames ?e_timeouts ?e_tasks ?e_settled ?e_returned]];
  simpl in *; subst.

Ltac case_if :=
  match goal with
  | |- context [if ?b then _ else _] => destruct b eqn:?
  | |- context [match ?o with Some _ => _ | None => _ end] => destruct o eqn:?
  end.

(** *** Construction *)

Lemma to_uint32_range (n : Number) : 0 <= to_uint32 n < 2 ^ 32.
Proof.
  destruct n as [| neg | q]; simpl; try lia.
  apply Z.mod_pos_bound. lia.
Qed.

Lemma ushr0_fixpoint (n : Number) :
  num_strict_eq (ushr0 n) n = true <-> uint32_number n.
Proof.
  split.
  - destruct n as [| neg | q]; simpl; try discriminate.
    intros H. apply Qeq_bool_iff in H.
    exists (to_uint32 (Finite q)), q.
    split; [reflexivity |]. split.
    + symmetry. exact H.
    + apply to_uint32_range.
  - intros (z & q & -> & Hq & Hz). simpl.
    apply Qeq_bool_iff.
    unfold Qeq in Hq. simpl in Hq.
    assert (Hquot : Z.quot (Qnum q) (Z.pos (Qden q)) = z).
    { rewrite Z.mul_1_r in Hq. rewrite Hq. apply Z.quot_mul. lia. }
    rewrite Hquot, Z.mod_small by lia.
    unfold Qeq. simpl. lia.
Qed.

Lemma check_uint32_ok (v : JsVal) (n : Number) :
  check_uint32 v = inr n <-> v = VNumber n /\ uint32_number n.
Proof.
  unfold check_uint32. split.
  - destruct v; try discriminate.
    destruct (num_strict_eq (ushr0 n0) n0) eqn:E; simpl; [| discriminate].
    intros [= ->]. split; [reflexivity | by apply ushr0_fixpoint].
  - intros [-> Hn]. apply ushr0_fixpoint in Hn. rewrite Hn. reflexivity.
Qed.

Lemma check_uint32_fails (v : JsVal) (e : Error) :
  check_uint32 v = inl e -> ~ (exists n, v = VNumber n /\ uint32_number n).
Proof.
  intros H (n & -> & Hn).
  assert (check_uint32 (VNumber n) = inr n) as Hok by (apply check_uint32_ok; auto).
  congruence.
Qed.

(** C10. The constructor accepts an options object exactly when its
    filename is a string and each supplied maxFiles / maxFileSize is a
    number equal to its own unsigned 32-bit coercion, that is an exact
    integer of [0, 2^32); accepted values are stored unchanged, absent ones
    leave the defaults, and the rest of the state starts as closed, without
    stream, with size 0, sequence id 0, firstEntry set and an empty buffer.
    Any other options object makes the construction fail. *)
Theorem constructor_validates_options (o : Options) :
  match constructor (ArgObject o) with
  | inr w =>
      opt_filename o = VString (filename w) /\
      stored (opt_maxFiles o) (maxFiles w) (num_of_Z 0) /\
      stored (opt_maxFileSize o) (maxFileSize w) (num_of_Z 100000000) /\
      closed w = true /\ stream w = None /\ fileSize w = num_of_Z 0 /\
      id w = 0%N /\ firstEntry w = true /\ _bufferedEntries w = [] /\
      closing w = false /\ rotating w = false /\ timer w = None
  | inl _ =>
      (forall name, opt_filename o <> VString name) \/
      refused (opt_maxFiles o) \/ refused (opt_maxFileSize o)
  end.
Proof.
  unfold constructor, fromOptions.
  destruct (opt_filename o) as [| | b | n | name |] eqn:Hname;
    try (left; intros ?; discriminate).
  destruct (not_nullish (opt_maxFiles o)) eqn:Hmf.
  - destruct (check_uint32 (opt_maxFiles o)) as [e | mf] eqn:Hcf; simpl.
    { right; left. split; [exact Hmf | by eapply check_uint32_fails]. }
    apply check_uint32_ok in Hcf as [Hv Hu].
    destruct (not_nullish (opt_maxFileSize o)) eqn:Hms.
    + destruct (check_uint32 (opt_maxFileSize o)) as [e | ms] eqn:Hcs; simpl.
      { right; right. split; [exact Hms | by eapply check_uint32_fails]. }
      apply check_uint32_ok in Hcs as [Hv' Hu'].
      repeat split; try reflexivity; right; eauto.
    + simpl. repeat split; try reflexivity; [right; eauto | left; auto].
  - simpl.
    destruct (not_nullish (opt_maxFileSize o)) eqn:Hms.
    + destruct (check_uint32 (opt_maxFileSize o)) as [e | ms] eqn:Hcs; simpl.
      { right; right. split; [exact Hms | by eapply check_uint32_fails]. }
      apply check_uint32_ok in Hcs as [Hv' Hu'].
      repeat split; try reflexivity; [left; auto | right; eauto].
    + simpl. repeat split; try reflexivity; left; auto.
Qed.

(** *** The paths of writeTrace *)

(** rotate() called from the write path touches neither the queue nor the
    data already handed to the stream. *)
Lemma call_rotate_root_effect (path : PathModule) (st : State) :
  _bufferedEntries (this (call_rotate path [] st)) = _bufferedEntries (this st) /\
  exists tail, sunk (env (call_rotate path [] st)) = sunk (env st) ++ tail.
Proof.
  open_state st. unfold call_rotate, call_close. simpl.
  repeat (case_if; simpl); split; try reflexivity;
    first [ by exists []; rewrite app_nil_r | by eexists ].
Qed.

Lemma writeTrace_direct (path : PathModule) (json : Json) (st : State) (s : StreamRef) :
  rotating (this st) = false -> closing (this st) = false ->
  stream (this st) = Some s ->
  writeTrace path json st =
  (true,
   if num_ge (fileSize (this (direct_write s json st)))
        (maxFileSize (this (direct_write s json st)))
   then call_rotate path [] (direct_write s json st)
   else direct_write s json st).
Proof.
  intros Hr Hc Hs. unfold writeTrace. rewrite Hr, Hc, Hs. reflexivity.
Qed.

Lemma writeTrace_rotating (path : PathModule) (json : Json) (st : State) :
  rotating (this st) = true ->
  writeTrace path json st =
  (true, upd_this (fun w => set_bufferedEntries (_bufferedEntries w ++ [json]) w) st).
Proof.
  intros Hr. unfold writeTrace. rewrite Hr. simpl.
  rewrite !andb_false_r. reflexivity.
Qed.

Lemma writeTrace_rejected (path : PathModule) (json : Json) (st : State) :
  rotating (this st) = false ->
  stream (this st) = None \/ closing (this st) = true ->
  writeTrace path json st = (false, st).
Proof.
  intros Hr H. unfold writeTrace. rewrite Hr. simpl.
  destruct H as [-> | ->]; simpl; [reflexivity |].
  rewrite andb_true_r. destruct (negb (is_set (stream (this st)))); reflexivity.
Qed.

Lemma direct_write_effect (s : StreamRef) (json : Json) (st : State) (p : string) :
  writable_path (env st) s = Some p ->
  this (direct_write s json st) =
    set_fileSize (num_add_prop (fileSize (this st)) (json_length json))
      (set_firstEntry false (this st)) /\
  sunk (env (direct_write s json st)) =
    sunk (env st) ++ record_chunks (firstEntry (this st)) json /\
  streams (env (direct_write s json st)) = streams (env st) /\
  tasks (env (direct_write s json st)) = tasks (env st).
Proof.
  intros Hw. open_state st. unfold direct_write. simpl.
  destruct v_firstEntry; simpl; rewrite ?Hw, <- ?app_assoc; done.
Qed.

Lemma string_app_assoc (a b c : string) : (a +:+ b) +:+ c = a +:+ (b +:+ c).
Proof.
  induction a as [| x a IH]; [reflexivity |].
  change (String x ((a +:+ b) +:+ c) = String x (a +:+ (b +:+ c))). by rewrite IH.
Qed.

Lemma string_app_empty (a : string) : a +:+ EmptyString = a.
Proof.
  induction a as [| x a IH]; [reflexivity |].
  change (String x (a +:+ EmptyString) = String x a). by rewrite IH.
Qed.

(** The immediate-write path on a stream that takes data: the chunks of the
    record are appended to its file. *)
Lemma direct_write_file (s : StreamRef) (json : Json) (st : State) (p : string) :
  writable_path (env st) s = Some p ->
  writable_path (env (direct_write s json st)) s = Some p /\
  fs (env (direct_write s json st)) =
    <[p := file_content (env st) p +:+ text_of (record_chunks (firstEntry (this st)) json)]>
      (fs (env st)).
Proof.
  intros Hw. open_state st. unfold direct_write. simpl.
  destruct v_firstEntry; simpl; rewrite ?Hw; simpl; rewrite ?Hw; simpl.
  - split; [reflexivity |]. unfold file_content. simpl. rewrite lookup_insert_eq. simpl.
    by rewrite insert_insert_eq, string_app_empty, string_app_assoc.
  - split; [reflexivity |]. by rewrite string_app_empty.
Qed.

(** The immediate-write path on a stream that no longer takes data: nothing
    reaches a file. *)
Lemma direct_write_lost (s : StreamRef) (json : Json) (st : State) :
  writable_path (env st) s = None ->
  writable_path (env (direct_write s json st)) s = None /\
  sunk (env (direct_write s json st)) = sunk (env st) /\
  fs (env (direct_write s json st)) = fs (env st).
Proof.
  intros Hw. open_state st. unfold direct_write. simpl.
  destruct v_firstEntry; simpl; rewrite ?Hw; simpl; rewrite ?Hw; done.
Qed.

(** rotate() called from the write path hands the stream at most the
    closing delimiter, before any await. *)
Lemma call_rotate_root_file (path : PathModule) (st : State) (s : StreamRef) :
  stream (this st) = Some s ->
  match writable_path (env st) s with
  | Some p =>
      exists tail,
        (tail = [] \/ tail = ["]}"]) /\
        sunk (env (call_rotate path [] st)) = sunk (env st) ++ tail /\
        fs (env (call_rotate path [] st)) =
          if decide (tail = []) then fs (env st)
          else <[p := file_content (env st) p +:+ text_of tail]> (fs (env st))
  | None =>
      sunk (env (call_rotate path [] st)) = sunk (env st) /\
      fs (env (call_rotate path [] st)) = fs (env st)
  end.
Proof.
  intros Hs. open_state st. unfold call_rotate, call_close. simpl.
  set (w := match e_streams !! s with
            | Some ws => if ws_writable ws then Some (ws_path ws) else None
            | None => None
            end).
  assert (Hnone : match w with
                  | Some p =>
                      exists tail : list string,
                        (tail = [] \/ tail = ["]}"]) /\ e_sunk = e_sunk ++ tail /\
                        e_fs = (if decide (tail = []) then e_fs
                                else <[p := default EmptyString (e_fs !! p) +:+ text_of tail]> e_fs)
                  | None => e_sunk = e_sunk /\ e_fs = e_fs
                  end).
  { destruct w; [| done]. exists []. split; [by left |]. by rewrite app_nil_r. }
  destruct v_rotating; simpl; [exact Hnone |].
  destruct v_closed; simpl; [exact Hnone |].
  destruct (truthy_string v_filename); simpl; [| exact Hnone].
  clear Hnone. fold w. destruct w as [p |]; [| done].
  exists ["]}"]. split; [by right |]. unfold file_content. simpl.
  by rewrite string_app_empty.
Qed.

(** *** The sequence id and the retry timer along any run *)

Lemma finish_counters (path : PathModule) (op : Op) (r : option Error) (k : Task) (st : State) :
  counters (finish path op r k st) = counters st.
Proof.
  revert op r. induction k as [| fr k IH]; intros op r; [by open_state st |].
  destruct fr; simpl;
    first [ apply IH | destruct r; [apply IH | by open_state st] | by open_state st ].
Qed.

Lemma call_close_counters (path : PathModule) (k : Task) (st : State) :
  counters (call_close path k st) = counters st.
Proof.
  unfold call_close.
  destruct (closed (this st)); [apply finish_counters |].
  destruct (stream (this st)); [| apply finish_counters].
  by open_state st.
Qed.

Lemma call_rotate_counters (path : PathModule) (k : Task) (st : State) :
  counters (call_rotate path k st) = counters st.
Proof.
  unfold call_rotate.
  destruct (rotating (this st)); [apply finish_counters |].
  destruct (_ || _); [apply finish_counters |].
  destruct (negb _); rewrite ?finish_counters, ?call_close_counters; by open_state st.
Qed.

Lemma writeTrace_counters (path : PathModule) (j : Json) (st : State) :
  counters (snd (writeTrace path j st)) = counters st.
Proof.
  destruct (rotating (this st)) eqn:Hr.
  - rewrite writeTrace_rotating by exact Hr. by open_state st.
  - destruct (stream (this st)) as [s |] eqn:Hs.
    + destruct (closing (this st)) eqn:Hc.
      * rewrite writeTrace_rejected; auto.
      * rewrite (writeTrace_direct path j st s Hr Hc Hs). cbn [snd].
        assert (Hd : counters (direct_write s j st) = counters st).
        { open_state st. unfold direct_write. simpl. by destruct v_firstEntry. }
        destruct (num_ge _ _); [by rewrite call_rotate_counters | exact Hd].
    + rewrite writeTrace_rejected; auto.
Qed.

Lemma drain_counters (path : PathModule) (fuel : nat) (st : State) :
  counters (drain path fuel st) = counters st.
Proof.
  revert st. induction fuel as [| fuel IH]; intros st; [reflexivity |].
  cbn [drain]. destruct (_bufferedEntries (this st)) as [| msg rest]; [reflexivity |].
  destruct (rotating (this st)); [reflexivity |].
  pose proof (writeTrace_counters path msg (upd_this (set_bufferedEntries rest) st)) as H.
  destruct (writeTrace path msg _) as [[] st2]; cbn [snd] in H.
  - rewrite IH, H. by open_state st.
  - transitivity (counters st2); [by open_state st2 | rewrite H; by open_state st].
Qed.

Lemma call_open_counters (path : PathModule) (k : Task) (st : State) :
  counters (call_open path k st) = counters st.
Proof.
  unfold call_open.
  repeat (case_if; [apply finish_counters |]).
  by open_state st.
Qed.

Section Counters.

(** A property of the counters that the three operations touching them
    keep: retry(), the completion of a rename, the firing of the timer. *)
Variable P : State -> Prop.
Hypothesis P_counters : forall st st', counters st' = counters st -> P st -> P st'.
Hypothesis P_retry : forall st, P st -> P (retry st).
Hypothesis P_renamed :
  forall st st',
    id (this st') = (id (this st) + 1)%N ->
    length (renames (env st')) = S (length (renames (env st))) ->
    timer (this st') = timer (this st) -> timeouts (env st') = timeouts (env st) ->
    P st -> P st'.
Hypothesis P_fired :
  forall st st' d rest,
    timeouts (env st) = d :: rest ->
    timeouts (env st') = rest -> timer (this st') = None ->
    id (this st') = id (this st) ->
    length (renames (env st')) = length (renames (env st)) ->
    P st -> P st'.

Lemma resume_keeps (path : PathModule) (t : Task) (fault : option Error) (st : State) :
  P st -> P (resume path t fault st).
Proof.
  intros H. destruct t as [| fr k]; [exact H |].
  destruct fr as [p | p fl | s | s | a b | |]; cbn [resume]; try exact H.
  - unfold open_after_stat.
    destruct (getFileSize_after_stat _).
    + eapply P_counters; [apply finish_counters | exact H].
    + eapply P_counters; [| exact H]. by open_state st.
  - unfold io_openStream. destruct fault as [err |]; unfold open_after_openStream.
    + eapply P_counters; [apply finish_counters |].
      apply P_retry. eapply P_counters; [| exact H]. by open_state st.
    + eapply P_counters; [apply finish_counters |].
      eapply P_counters; [apply drain_counters |].
      eapply P_counters; [| exact H]. by open_state st.
  - unfold close_after_end. destruct (stream (this st)).
    + eapply P_counters; [| exact H]. by open_state st.
    + eapply P_counters; [apply finish_counters |].
      eapply P_counters; [| exact H]. by open_state st.
  - unfold close_after_close. destruct fault;
      (eapply P_counters; [apply finish_counters |]);
      (eapply P_counters; [| exact H]); by open_state st.
  - unfold io_rename. destruct fault as [err |]; [| destruct (fs (env st) !! a)];
      unfold rotate_after_rename.
    + eapply P_counters; [apply finish_counters |].
      eapply P_counters; [| exact H]. by open_state st.
    + eapply P_counters; [apply call_open_counters |].
      eapply P_renamed; [| | | | exact H]; open_state st;
        rewrite ?length_app; simpl; try reflexivity; lia.
    + eapply P_counters; [apply finish_counters |].
      eapply P_counters; [| exact H]. by open_state st.
Qed.

Lemma run_keeps (path : PathModule) (evs : list Event) (st : State) :
  P st -> P (run path evs st).
Proof.
  revert st. induction evs as [| ev evs IH]; intros st H; [exact H |].
  simpl. apply IH.
  destruct ev; cbn [step].
  - eapply P_counters; [apply call_open_counters | exact H].
  - eapply P_counters; [apply call_close_counters | exact H].
  - eapply P_counters; [apply call_rotate_counters | exact H].
  - pose proof (writeTrace_counters path json st) as H1.
    destruct (writeTrace path json st) as [r st1]. cbn [snd] in H1.
    eapply P_counters; [| exact H]. rewrite <- H1. by open_state st1.
  - destruct (tasks (env st) !! i) as [t |]; [| exact H].
    apply resume_keeps. eapply P_counters; [| exact H]. by open_state st.
  - destruct (timeouts (env st)) as [| d rest] eqn:Hto; [exact H |].
    unfold timer_callback.
    eapply P_counters; [apply call_open_counters |].
    eapply (P_fired st _ d rest); [exact Hto | | | | | exact H]; by open_state st.
  - unfold handleError.
    apply P_retry. eapply P_counters; [| exact H].
    open_state st. by destruct v_stream.
Qed.

End Counters.

(** Along every run, whatever the owner and the runtime do, the sequence
    id is the number of renames done: a rotation that completes adds one to
    both, nothing else touches either. *)
Lemma ids_count_renames_run (path : PathModule) (evs : list Event) (st : State) :
  ids_count_renames st -> ids_count_renames (run path evs st).
Proof.
  apply run_keeps; unfold ids_count_renames, counters.
  - intros s s' [= -> -> _ _]. tauto.
  - intros s. unfold retry. destruct (timer (this s)); [tauto |]. by open_state s.
  - intros s s' -> -> _ _ ->. lia.
  - intros s s' d rest _ _ _ -> ->. tauto.
Qed.

(** Along every run at most one timeout is pending, exactly when the
    retry marker is set. *)
Lemma one_retry_at_most_run (path : PathModule) (evs : list Event) (st : State) :
  one_retry_at_most st -> one_retry_at_most (run path evs st).
Proof.
  apply run_keeps; unfold one_retry_at_most, counters.
  - intros s s' [= _ _ -> ->]. tauto.
  - intros s H. unfold retry.
    destruct (timer (this s)) eqn:E; [first [exact H | by rewrite E] |].
    destruct H as [[_ Hto] | [Hset _]]; [| done].
    right. open_state s. eauto.
  - intros s s' _ _ -> ->. tauto.
  - intros s s' d rest Hto -> -> _ _ [[_ Hnone] | [_ [d' Hone]]]; [congruence |].
    left. split; [reflexivity | congruence].
Qed.

(** *** retry() *)

Lemma retry_pending (st : State) :
  is_set (timer (this st)) = true -> retry st = st.
Proof. unfold retry. destruct (timer (this st)); [reflexivity | discriminate]. Qed.

Lemma retry_sets_timer (st : State) : is_set (timer (this (retry st))) = true.
Proof. unfold retry. destruct (timer (this st)) eqn:E; simpl; [by rewrite E | reflexivity]. Qed.

Lemma retry_idempotent (st : State) : retry (retry st) = retry st.
Proof. apply retry_pending, retry_sets_timer. Qed.

Lemma retry_iterated (n : nat) (st : State) : Nat.iter n retry (retry st) = retry st.
Proof.
  induction n as [| n IH]; simpl; [reflexivity |].
  rewrite IH. apply retry_idempotent.
Qed.

Lemma retry_timeouts (st : State) :
  timeouts (env (retry st)) =
  timeouts (env st) ++ (if is_set (timer (this st)) then [] else [1000%nat]).
Proof.
  unfold retry. destruct (timer (this st)); simpl; [by rewrite app_nil_r | reflexivity].
Qed.

Lemma finish_root_this (path : PathModule) (op : Op) (r : option Error) (st : State) :
  this (finish path op r [] st) = this st.
Proof. reflexivity. Qed.

Lemma call_open_this (path : PathModule) (k : Task) (st : State) :
  k = [] -> this (call_open path k st) = this st.
Proof.
  intros ->. unfold call_open.
  repeat match goal with |- context [if ?b then _ else _] => destruct b end;
    reflexivity.
Qed.

(** C9. retry() is idempotent: with a retry already scheduled it does
    nothing, so any number of further calls leaves the single timeout in
    place; otherwise it schedules exactly one timeout of 1000 ms and sets
    the marker. When that timeout fires the marker is cleared, the timeout
    is consumed (one shot) and open() is called once. Along every run that
    starts with the marker and the timeouts in agreement, at most one
    timeout is ever pending, and exactly when the marker is set. *)
Theorem retry_schedules_one_open (path : PathModule) (st : State) (n : nat) :
  retry (retry st) = retry st /\
  Nat.iter n retry (retry st) = retry st /\
  timeouts (env (retry st)) =
    timeouts (env st) ++ (if is_set (timer (this st)) then [] else [1000%nat]) /\
  is_set (timer (this (retry st))) = true /\
  step path TimerFires (Nat.iter n retry (retry (no_retry_pending st))) =
    call_open path [] (no_retry_pending st) /\
  timer (this (step path TimerFires (retry (no_retry_pending st)))) = None /\
  timeouts (env (step path TimerFires (retry (no_retry_pending st)))) = [] /\
  (forall evs,
     one_retry_at_most st ->
     let st' := run path evs st in
     (length (timeouts (env st')) <= 1)%nat /\
     (timer (this st') = None <-> timeouts (env st') = [])).
Proof.
  split; [apply retry_idempotent |].
  split; [apply retry_iterated |].
  split; [apply retry_timeouts |].
  split; [apply retry_sets_timer |].
  assert (Hfire : step path TimerFires (retry (no_retry_pending st)) =
                  call_open path [] (no_retry_pending st)).
  { destruct st as [w e]. destruct w, e. reflexivity. }
  split; [by rewrite retry_iterated |].
  rewrite Hfire. split; [| split].
  - rewrite call_open_this by reflexivity. reflexivity.
  - unfold call_open.
    repeat match goal with |- context [if ?b then _ else _] => destruct b end;
      reflexivity.
  - intros evs H st'.
    destruct (one_retry_at_most_run path evs st H) as [[Ht Hto] | [Ht [d Hto]]];
      fold st' in Ht, Hto; rewrite Hto; simpl.
    + split; [lia | tauto].
    + split; [lia |]. destruct (timer (this st')); [| discriminate].
      split; discriminate.
Qed.

(** *** open(): the size of the file and the failure to open the sink *)

Lemma call_open_suspends (path : PathModule) (k : Task) (st : State) :
  openable st ->
  call_open path k st = suspend (AwaitStat (filename (this st)) :: k) st.
Proof.
  intros (Hf & Hs & Hc). unfold call_open. rewrite Hf, Hs, Hc. reflexivity.
Qed.

(** C8. On a writer that may be opened, open() stats the target path; the
    size found becomes the file size, a missing file counts as size 0, and
    any other failure of the stat rejects the promise of open() with that
    error, leaving the writer as it was. When the stat phase passes and the
    sink then fails to open, open() still resolves normally: nothing is
    raised, a retry is scheduled (unless one is pending), the writer stays
    closed without stream and the buffered records are untouched. *)
Theorem open_sizes_file_and_retries (path : PathModule) (st : State)
    (Hquiet : tasks (env st) = []) (Hopen : openable st) :
  tasks (env (step path CallOpen st)) = [[AwaitStat (filename (this st))]] /\
  (forall fault,
     let st1 := run path [CallOpen; Complete 0 fault] st in
     match io_stat (filename (this st)) fault (env st) with
     | inr size =>
         this st1 = set_fileSize size (this st) /\
         tasks (env st1) = [[AwaitOpenStream (filename (this st)) FlagW]] /\
         settled (env st1) = settled (env st)
     | inl e =>
         if has_code e "ENOENT"
         then this st1 = set_fileSize (num_of_Z 0) (this st) /\
              tasks (env st1) = [[AwaitOpenStream (filename (this st)) FlagW]] /\
              settled (env st1) = settled (env st)
         else this st1 = this st /\
              tasks (env st1) = [] /\
              settled (env st1) = settled (env st) ++ [(OpOpen, Some e)]
     end) /\
  (forall fault size e,
     getFileSize_after_stat (io_stat (filename (this st)) fault (env st)) = inr size ->
     let st2 := run path [CallOpen; Complete 0 fault; Complete 0 (Some e)] st in
     settled (env st2) = settled (env st) ++ [(OpOpen, None)] /\
     _bufferedEntries (this st2) = _bufferedEntries (this st) /\
     stream (this st2) = None /\ closed (this st2) = true /\
     tasks (env st2) = [] /\
     is_set (timer (this st2)) = true /\
     timeouts (env st2) =
       timeouts (env st) ++ (if is_set (timer (this st)) then [] else [1000%nat]) /\
     fs (env st2) = fs (env st)).
Proof.
  destruct Hopen as (Hf & Hs & Hc).
  open_state st.
  unfold call_open; simpl; rewrite Hf; simpl.
  split; [reflexivity |].
  split.
  - intros fault. unfold open_after_stat, io_stat; simpl.
    destruct fault as [err |]; simpl.
    + destruct (has_code err "ENOENT"); simpl; done.
    + destruct (e_fs !! v_filename); simpl; done.
  - intros fault size err Hsize. simpl.
    unfold open_after_stat; simpl; rewrite Hsize; simpl.
    unfold retry; simpl.
    destruct v_timer; simpl; rewrite ?app_nil_r; done.
Qed.

(** *** close() *)



(** close() on an open writer runs up to its first await. *)
Lemma call_close_suspends (path : PathModule) (k : Task) (st : State) (s : StreamRef) :
  stream (this st) = Some s -> closed (this st) = false ->
  call_close path k st =
  suspend (AwaitEnd s :: k)
    (upd_env (stream_end s)
       (upd_env (stream_write s "]}") (upd_this (set_closing true) st))).
Proof.
  intros Hs Hc. unfold call_close. rewrite Hs, Hc. reflexivity.
Qed.

(** *** close() that waits: what the other operations leave alone *)

Lemma nothing_resumed_refl (st : State) : nothing_resumed st st.
Proof. split; [exists []; by rewrite app_nil_r | auto]. Qed.

Lemma nothing_resumed_trans (st1 st2 st3 : State) :
  nothing_resumed st1 st2 -> nothing_resumed st2 st3 -> nothing_resumed st1 st3.
Proof.
  intros [[m1 H1] C1] [[m2 H2] C2]. split; [| auto].
  exists (m1 ++ m2). by rewrite H2, H1, app_assoc.
Qed.

Lemma nothing_resumed_ext (st st' : State) :
  tasks (env st') = tasks (env st) -> closing (this st') = closing (this st) ->
  nothing_resumed st st'.
Proof.
  intros Ht Hc. split; [exists []; by rewrite app_nil_r | by rewrite Hc].
Qed.

Lemma nothing_resumed_suspend (t : Task) (st st' : State) :
  tasks (env st') = tasks (env st) ++ [t] -> closing (this st') = closing (this st) ->
  nothing_resumed st st'.
Proof. intros Ht Hc. split; [by exists [t] | by rewrite Hc]. Qed.

Lemma finish_nothing_resumed (path : PathModule) (op : Op) (r : option Error) (k : Task)
    (st : State) :
  nothing_resumed st (finish path op r k st).
Proof.
  revert op r. induction k as [| fr k IH]; intros op r;
    [apply nothing_resumed_ext; by open_state st |].
  destruct fr; cbn [finish]; try (apply nothing_resumed_ext; by open_state st).
  - destruct r; [apply IH |]. unfold rotate_after_close.
    (open_state st; split; [eexists; reflexivity | done]).
  - apply IH.
Qed.

Lemma call_close_nothing_resumed (path : PathModule) (k : Task) (st : State) :
  nothing_resumed st (call_close path k st).
Proof.
  unfold call_close.
  destruct (closed (this st)); [apply finish_nothing_resumed |].
  destruct (stream (this st)) as [s |]; [| apply finish_nothing_resumed].
  open_state st. split; [eexists; reflexivity | done].
Qed.

Lemma call_rotate_nothing_resumed (path : PathModule) (k : Task) (st : State) :
  nothing_resumed st (call_rotate path k st).
Proof.
  unfold call_rotate.
  destruct (rotating (this st)); [apply finish_nothing_resumed |].
  destruct (_ || _); [apply finish_nothing_resumed |].
  eapply (nothing_resumed_trans _ (upd_this (set_rotating true) st));
    [apply nothing_resumed_ext; by open_state st |].
  destruct (negb _); [apply finish_nothing_resumed | apply call_close_nothing_resumed].
Qed.

Lemma writeTrace_nothing_resumed (path : PathModule) (j : Json) (st : State) :
  nothing_resumed st (snd (writeTrace path j st)).
Proof.
  destruct (rotating (this st)) eqn:Hr.
  - rewrite writeTrace_rotating by exact Hr. apply nothing_resumed_ext; by open_state st.
  - destruct (stream (this st)) as [s |] eqn:Hs.
    + destruct (closing (this st)) eqn:Hc.
      * rewrite writeTrace_rejected; auto. apply nothing_resumed_refl.
      * rewrite (writeTrace_direct path j st s Hr Hc Hs). cbn [snd].
        assert (Hd : nothing_resumed st (direct_write s j st)).
        { apply nothing_resumed_ext; open_state st; unfold direct_write; simpl;
            by destruct v_firstEntry. }
        destruct (num_ge _ _); [| exact Hd].
        eapply nothing_resumed_trans; [exact Hd | apply call_rotate_nothing_resumed].
    + rewrite writeTrace_rejected; auto. apply nothing_resumed_refl.
Qed.

Lemma drain_nothing_resumed (path : PathModule) (fuel : nat) (st : State) :
  nothing_resumed st (drain path fuel st).
Proof.
  revert st. induction fuel as [| fuel IH]; intros st; [apply nothing_resumed_refl |].
  cbn [drain]. destruct (_bufferedEntries (this st)) as [| msg rest];
    [apply nothing_resumed_refl |].
  destruct (rotating (this st)); [apply nothing_resumed_refl |].
  assert (H1 : nothing_resumed st (upd_this (set_bufferedEntries rest) st))
    by (apply nothing_resumed_ext; by open_state st).
  pose proof (writeTrace_nothing_resumed path msg (upd_this (set_bufferedEntries rest) st)) as H2.
  destruct (writeTrace path msg _) as [[] st2]; cbn [snd] in H2.
  - eapply nothing_resumed_trans; [exact H1 |].
    eapply nothing_resumed_trans; [exact H2 | apply IH].
  - eapply nothing_resumed_trans; [exact H1 |].
    eapply nothing_resumed_trans; [exact H2 |].
    apply nothing_resumed_ext; by open_state st2.
Qed.

Lemma call_open_nothing_resumed (path : PathModule) (k : Task) (st : State) :
  nothing_resumed st (call_open path k st).
Proof.
  unfold call_open.
  repeat (case_if; [apply finish_nothing_resumed |]).
  (open_state st; split; [eexists; reflexivity | done]).
Qed.

Lemma retry_nothing_resumed (st : State) : nothing_resumed st (retry st).
Proof.
  unfold retry. destruct (timer (this st)); [apply nothing_resumed_refl |].
  apply nothing_resumed_ext; by open_state st.
Qed.

(** The completion of a request of open() or rotate(). *)
Lemma resume_nothing_resumed (path : PathModule) (t : Task) (fault : option Error)
    (st : State) :
  match t with
  | AwaitEnd _ :: _ | AwaitClose _ :: _ => False
  | _ => True
  end ->
  nothing_resumed st (resume path t fault st).
Proof.
  intros Ht. destruct t as [| fr k]; [apply nothing_resumed_refl |].
  destruct fr as [p | p fl | s | s | a b | |]; cbn [resume];
    try (by destruct Ht); try apply nothing_resumed_refl.
  - unfold open_after_stat. destruct (getFileSize_after_stat _).
    + apply finish_nothing_resumed.
    + (open_state st; split; [eexists; reflexivity | done]).
  - unfold io_openStream. destruct fault as [err |]; unfold open_after_openStream.
    + eapply nothing_resumed_trans; [| apply finish_nothing_resumed].
      eapply (nothing_resumed_trans _ (mkState (this st) (env st)));
        [apply nothing_resumed_ext; by open_state st | apply retry_nothing_resumed].
    + eapply nothing_resumed_trans; [| apply finish_nothing_resumed].
      eapply nothing_resumed_trans; [| apply drain_nothing_resumed].
      apply nothing_resumed_ext; by open_state st.
  - unfold io_rename. destruct fault as [err |]; [| destruct (fs (env st) !! a)];
      unfold rotate_after_rename.
    + eapply nothing_resumed_trans; [| apply finish_nothing_resumed].
      apply nothing_resumed_ext; by open_state st.
    + eapply nothing_resumed_trans; [| apply call_open_nothing_resumed].
      apply nothing_resumed_ext; by open_state st.
    + eapply nothing_resumed_trans; [| apply finish_nothing_resumed].
      apply nothing_resumed_ext; by open_state st.
Qed.

(** A suspended close() stays suspended, and [closing] stays set, for as
    long as the run does not resume a close(). *)
Lemma close_kept_waiting_run (path : PathModule) (evs : list Event) (st : State)
    (t : Task) :
  match t with
  | AwaitEnd _ :: _ | AwaitClose _ :: _ => True
  | _ => False
  end ->
  t ∈ tasks (env st) -> closing (this st) = true ->
  close_kept_waiting path evs st ->
  t ∈ tasks (env (run path evs st)) /\ closing (this (run path evs st)) = true.
Proof.
  intros Ht. revert st. induction evs as [| ev evs IH]; intros st Hin Hc Hkeep; [done |].
  destruct Hkeep as [Hev Hkeep]. cbn [run fold_left].
  fold (run path evs (step path ev st)).
  assert (Hstep : t ∈ tasks (env (step path ev st)) /\ closing (this (step path ev st)) = true).
  { assert (Hgrow : forall st', nothing_resumed st st' ->
                t ∈ tasks (env st') /\ closing (this st') = true).
    { intros st' [[more Hm] Hcl]. split; [| auto].
      rewrite Hm. apply elem_of_app. by left. }
    destruct ev; cbn [step].
    - apply Hgrow, call_open_nothing_resumed.
    - apply Hgrow, call_close_nothing_resumed.
    - apply Hgrow, call_rotate_nothing_resumed.
    - pose proof (writeTrace_nothing_resumed path json st) as H1.
      destruct (writeTrace path json st) as [r st1]. cbn [snd] in H1.
      apply Hgrow. eapply nothing_resumed_trans; [exact H1 |].
      apply nothing_resumed_ext; by open_state st1.
    - destruct (tasks (env st) !! i) as [t' |] eqn:Hi; [| done].
      set (st1 := upd_env (fun e => set_tasks (delete i (tasks e)) e) st).
      assert (Hin1 : t ∈ tasks (env st1)).
      { assert (tasks (env st1) = delete i (tasks (env st))) as -> by (by open_state st).
        apply list_elem_of_lookup in Hin. destruct Hin as [n Hn].
        assert (n <> i).
        { intros ->. unfold Task in *. assert (Some t = Some t') as [= <-] by congruence.
          destruct t as [| [] ?]; done. }
        apply list_elem_of_lookup.
        destruct (decide (n < i)%nat).
        - exists n. by rewrite list_lookup_delete_lt.
        - exists (pred n). rewrite list_lookup_delete_ge by lia.
          replace (S (pred n)) with n by lia. exact Hn. }
      assert (Hc1 : closing (this st1) = true) by (by open_state st).
      assert (H1 : nothing_resumed st1 (resume path t' fault st1)).
      { apply resume_nothing_resumed. destruct t' as [| [] ?]; done. }
      destruct H1 as [[more Hm] Hcl]. split; [| auto].
      rewrite Hm. apply elem_of_app. by left.
    - destruct (timeouts (env st)) as [| d rest]; [done |].
      unfold timer_callback. apply Hgrow.
      eapply nothing_resumed_trans; [| apply call_open_nothing_resumed].
      apply nothing_resumed_ext; by open_state st.
    - unfold handleError. apply Hgrow.
      eapply nothing_resumed_trans; [| apply retry_nothing_resumed].
      apply nothing_resumed_ext; open_state st; by destruct v_stream. }
  destruct Hstep as [Hin' Hc']. by apply IH.
Qed.


(** *** rotate() *)

(** C7. rotate() does nothing but resolve when a rotation is in progress,
    when there is no stream or when the writer is closed: no rename, no
    change of the sequence id, no suspended call. On an open, idle writer
    whose stream is on the active file, a rotation whose requests succeed
    closes the file once (one closing delimiter), renames it once, to the
    base name with the current sequence id before the original extension in
    the same directory, adds exactly one to the sequence id, clears
    [rotating] and calls open() again. Along every run, whatever the owner
    and the runtime do, the sequence id equals the number of renames done:
    no rename without its increment, no increment without its rename. *)
Theorem rotate_renames_once (path : PathModule) (st : State) :
  (rotating (this st) = true \/ stream (this st) = None \/ closed (this st) = true ->
   call_rotate path [] st = settle OpRotate None st) /\
  (forall s f1,
     stream (this st) = Some s -> closed (this st) = false ->
     rotating (this st) = false ->
     truthy_string (filename (this st)) = true ->
     writable_path (env st) s = Some (filename (this st)) ->
     tasks (env st) = [] ->
     let name := filename (this st) in
     let rotated := rotated_name path name (id (this st)) in
     let st1 := step path CallRotate st in
     let st4 := run path [Complete 0 f1; Complete 0 None; Complete 0 None] st1 in
     rotating (this st1) = true /\
     renames (env st1) = renames (env st) /\ id (this st1) = id (this st) /\
     renames (env st4) = renames (env st) ++ [(name, rotated)] /\
     id (this st4) = (id (this st) + 1)%N /\
     rotating (this st4) = false /\
     sunk (env st4) = sunk (env st) ++ ["]}"] /\
     fs (env st4) =
       <[rotated := file_content (env st) name +:+ "]}"]> (delete name (fs (env st))) /\
     tasks (env st4) = [[AwaitStat name; InRotateOpen]] /\
     settled (env st4) = settled (env st)) /\
  (forall evs,
     ids_count_renames st ->
     id (this (run path evs st)) = N.of_nat (length (renames (env (run path evs st))))).
Proof.
  split; [| split; [| intros evs; apply ids_count_renames_run]].
  - intros H. unfold call_rotate.
    destruct (rotating (this st)); [reflexivity |].
    destruct H as [H | [H | H]]; [discriminate | rewrite H | rewrite H];
      simpl; [reflexivity |].
    by rewrite orb_true_r.
  - intros s f1 Hs Hc Hr Hf Hw Hq name rotated st1 st4.
    subst st1 st4 rotated name.
    open_state st.
    unfold call_rotate, call_close. simpl. rewrite Hf. simpl.
    rewrite Hw. simpl.
    unfold close_after_end, close_after_close, rotate_after_close. simpl.
    rewrite lookup_insert_eq. simpl.
    unfold call_open. simpl. rewrite Hf. simpl.
    rewrite delete_insert_eq.
    repeat split; reflexivity.
Qed.

(** *** writeTrace(json) *)

(** C1 (amended). writeTrace buffers exactly when a rotation is in
    progress: the record goes to the tail of the queue and the call returns
    true. Without a rotation, a writer that has no stream or that is
    closing returns false and changes nothing (the record is neither
    written nor buffered). Otherwise, with a stream set, the call returns
    true, the queue is untouched and the record is handed to the stream
    with its delimiter: when the stream still takes data the chunks of the
    record, followed at most by the closing delimiter of a rotation that
    the write starts, are appended to its file; when the stream was ended
    already (the state a failed close() leaves) nothing reaches a file and
    the record is lost although the call returned true. In particular two
    calls made while open() is still in flight, whatever the first has
    reached, both return false and leave the writer, the files and the
    queue as they were. *)
Theorem writeTrace_buffers_only_while_rotating (path : PathModule) (json : Json)
    (st : State) :
  (rotating (this st) = true ->
   writeTrace path json st =
   (true, upd_this (fun w => set_bufferedEntries (_bufferedEntries w ++ [json]) w) st)) /\
  (rotating (this st) = false ->
   stream (this st) = None \/ closing (this st) = true ->
   writeTrace path json st = (false, st)) /\
  (forall s,
     rotating (this st) = false -> closing (this st) = false ->
     stream (this st) = Some s ->
     let st' := snd (writeTrace path json st) in
     fst (writeTrace path json st) = true /\
     _bufferedEntries (this st') = _bufferedEntries (this st) /\
     match writable_path (env st) s with
     | Some p =>
         exists tail,
           (tail = [] \/ tail = ["]}"]) /\
           sunk (env st') =
             sunk (env st) ++ record_chunks (firstEntry (this st)) json ++ tail /\
           fs (env st') =
             <[p := file_content (env st) p +:+
                    text_of (record_chunks (firstEntry (this st)) json ++ tail)]>
               (fs (env st))
     | None =>
         sunk (env st') = sunk (env st) /\ fs (env st') = fs (env st)
     end) /\
  (forall r1 r2 stat_fault,
     rotating (this st) = false -> openable st -> tasks (env st) = [] ->
     let opening := step path CallOpen st in
     let st2 := run path [CallWriteTrace r1; CallWriteTrace r2] opening in
     let st3 := run path [CallWriteTrace r1; Complete 0 stat_fault; CallWriteTrace r2] opening in
     returned (env st2) = returned (env st) ++ [(r1, false); (r2, false)] /\
     this st2 = this st /\ fs (env st2) = fs (env st) /\ sunk (env st2) = sunk (env st) /\
     returned (env st3) = returned (env st) ++ [(r1, false); (r2, false)] /\
     _bufferedEntries (this st3) = _bufferedEntries (this st) /\
     fs (env st3) = fs (env st) /\ sunk (env st3) = sunk (env st)).
Proof.
  split; [apply writeTrace_rotating |].
  split; [apply writeTrace_rejected |].
  split.
  - intros s Hr Hc Hs. rewrite (writeTrace_direct path json st s Hr Hc Hs).
    cbn [fst snd]. split; [reflexivity |].
    assert (Hd : _bufferedEntries (this (direct_write s json st)) = _bufferedEntries (this st)
                 /\ stream (this (direct_write s json st)) = Some s).
    { open_state st. unfold direct_write. simpl. by destruct v_firstEntry. }
    destruct Hd as [Hdq Hds].
    split.
    { destruct (num_ge _ _); [| exact Hdq].
      destruct (call_rotate_root_effect path (direct_write s json st)) as [Hb _].
      congruence. }
    pose proof (call_rotate_root_file path (direct_write s json st) s Hds) as Hrot.
    destruct (writable_path (env st) s) as [p |] eqn:Hw.
    + destruct (direct_write_file s json st p Hw) as [Hw' Hfs].
      destruct (direct_write_effect s json st p Hw) as (_ & Hsunk & _ & _).
      rewrite Hw' in Hrot.
      destruct (num_ge _ _).
      * destruct Hrot as (tail & Htail & Hsk & Hfile).
        exists tail. split; [exact Htail |]. split; [by rewrite Hsk, Hsunk, <- app_assoc |].
        rewrite Hfile. destruct Htail as [-> | ->].
        -- rewrite decide_True by reflexivity. rewrite app_nil_r. exact Hfs.
        -- rewrite decide_False by discriminate.
           rewrite Hfs. unfold file_content. rewrite Hfs, lookup_insert_eq. simpl.
           rewrite insert_insert_eq. f_equal.
           unfold text_of. rewrite fold_right_app. simpl.
           generalize (record_chunks (firstEntry (this st)) json). intros l.
           rewrite string_app_assoc. f_equal.
           induction l as [| c l IH]; simpl; [reflexivity |].
           by rewrite string_app_assoc, IH.
      * exists []. split; [by left |]. rewrite !app_nil_r. by split.
    + destruct (direct_write_lost s json st Hw) as (Hw' & Hsk & Hfs).
      rewrite Hw' in Hrot.
      destruct (num_ge _ _); [| by split].
      destruct Hrot as [-> ->]. by split.
  - intros r1 r2 stat_fault Hr (Hf & Hs & Hc) Hq opening st2 st3.
    subst opening st2 st3. open_state st.
    unfold call_open. simpl. rewrite Hf. simpl.
    unfold writeTrace. simpl. rewrite <- !app_assoc. simpl.
    split; [reflexivity |]. split; [reflexivity |].
    split; [reflexivity |]. split; [reflexivity |].
    unfold open_after_stat, io_stat. simpl.
    destruct stat_fault as [err |]; simpl.
    + destruct (has_code err "ENOENT"); simpl; rewrite <- ?app_assoc; done.
    + destruct (e_fs !! v_filename); simpl; rewrite <- ?app_assoc; done.
Qed.

(** *** Concrete runs *)

Example constructor_rejects_bad_thresholds :
  let make v := constructor (ArgObject (mkOptions (VString "trace.json") VUndefined v)) in
  make (VNumber (num_of_Z (-1))) = inl (AssertionError EmptyString) /\
  make (VNumber (Finite (1 # 2))) = inl (AssertionError EmptyString) /\
  make (VNumber NaN) = inl (AssertionError EmptyString) /\
  make (VNumber (Infinity false)) = inl (AssertionError EmptyString) /\
  make (VNumber (num_of_Z (2 ^ 32))) = inl (AssertionError EmptyString) /\
  make (VString "10") = inl (AssertionError EmptyString) /\
  (exists w, make (VNumber (num_of_Z (2 ^ 32 - 1))) = inr w) /\
  constructor (ArgObject (mkOptions VUndefined VUndefined VUndefined))
    = inl (AssertionError EmptyString).
Proof. vm_compute. repeat split. eexists. reflexivity. Qed.

(** C1, the claim at a concrete input: during open(), with the sink not
    yet open, two records are submitted. Both calls return false, neither
    record is queued, and after open() has succeeded neither is in the
    file. *)
Lemma writeTrace_while_opening_drops :
  let opening := step flat_path CallOpen closed_small in
  let st :=
    run flat_path
      [CallWriteTrace rec_a; CallWriteTrace rec_b; Complete 0 None; Complete 0 None]
      opening in
  stream (this opening) = None /\
  ~ (fst (writeTrace flat_path rec_a opening) = true /\
     _bufferedEntries (this (snd (writeTrace flat_path rec_a opening))) = [rec_a]) /\
  returned (env st) = [(rec_a, false); (rec_b, false)] /\
  _bufferedEntries (this st) = [] /\
  stream (this st) = Some 0%nat /\
  fs (env st) !! "trace.json" = Some EmptyString.
Proof.
  vm_compute. repeat split; try reflexivity.
  intros [H _]. discriminate H.
Qed.

(** The statement on C1 at four writers: during a rotation, never opened,
    open, and after a close() that failed; and on two calls during
    open(). *)
Lemma writeTrace_buffers_only_while_rotating_witness :
  (rotating (this rotating_small) = true /\
   writeTrace flat_path rec_b rotating_small =
   (true,
    upd_this (fun w => set_bufferedEntries (_bufferedEntries w ++ [rec_b]) w) rotating_small)) /\
  (rotating (this closed_small) = false /\
   (stream (this closed_small) = None \/ closing (this closed_small) = true) /\
   writeTrace flat_path rec_a closed_small = (false, closed_small)) /\
  (rotating (this opened_small) = false /\ closing (this opened_small) = false /\
   stream (this opened_small) = Some 0%nat /\
   writable_path (env opened_small) 0%nat = Some "trace.json" /\
   fst (writeTrace flat_path rec_a opened_small) = true) /\
  (rotating (this failed_close_small) = false /\ closing (this failed_close_small) = false /\
   stream (this failed_close_small) = Some 0%nat /\
   writable_path (env failed_close_small) 0%nat = None /\
   fst (writeTrace flat_path rec_a failed_close_small) = true) /\
  (openable closed_small /\ tasks (env closed_small) = [] /\
   returned (env (run flat_path [CallWriteTrace rec_a; CallWriteTrace rec_b]
                    (step flat_path CallOpen closed_small))) =
   returned (env closed_small) ++ [(rec_a, false); (rec_b, false)]).
Proof.
  assert (E1 : openable closed_small) by (split; [| split]; vm_compute; reflexivity).
  assert (E2 : tasks (env closed_small) = []) by (vm_compute; reflexivity).
  assert (A1 : rotating (this rotating_small) = true) by (vm_compute; reflexivity).
  assert (B1 : rotating (this closed_small) = false) by (vm_compute; reflexivity).
  assert (B2 : stream (this closed_small) = None \/ closing (this closed_small) = true)
    by (left; vm_compute; reflexivity).
  assert (C1 : rotating (this opened_small) = false) by (vm_compute; reflexivity).
  assert (C2 : closing (this opened_small) = false) by (vm_compute; reflexivity).
  assert (C3 : stream (this opened_small) = Some 0%nat) by (vm_compute; reflexivity).
  assert (C4 : writable_path (env opened_small) 0%nat = Some "trace.json")
    by (vm_compute; reflexivity).
  assert (D1 : rotating (this failed_close_small) = false) by (vm_compute; reflexivity).
  assert (D2 : closing (this failed_close_small) = false) by (vm_compute; reflexivity).
  assert (D3 : stream (this failed_close_small) = Some 0%nat) by (vm_compute; reflexivity).
  assert (D4 : writable_path (env failed_close_small) 0%nat = None)
    by (vm_compute; reflexivity).
  split; [split; [exact A1 |] |].
  { exact (proj1 (writeTrace_buffers_only_while_rotating flat_path rec_b rotating_small) A1). }
  split; [split; [exact B1 |]; split; [exact B2 |] |].
  { exact (proj1 (proj2 (writeTrace_buffers_only_while_rotating flat_path rec_a closed_small)) B1 B2). }
  split; [| split].
  - do 4 (split; [assumption |]).
    exact (proj1 (proj1 (proj2 (proj2
             (writeTrace_buffers_only_while_rotating flat_path rec_a opened_small)))
                    0%nat C1 C2 C3)).
  - do 4 (split; [assumption |]).
    exact (proj1 (proj1 (proj2 (proj2
             (writeTrace_buffers_only_while_rotating flat_path rec_a failed_close_small)))
                    0%nat D1 D2 D3)).
  - split; [exact E1 |]. split; [exact E2 |].
    exact (proj1 (proj2 (proj2 (proj2
             (writeTrace_buffers_only_while_rotating flat_path rec_a closed_small)))
                    rec_a rec_b None B1 E1 E2)).
Defined.

(** After a failed close the record is lost although the call returns
    true. *)
Example writeTrace_after_failed_close :
  let st := run flat_path [CallWriteTrace rec_a] failed_close_small in
  returned (env st) = returned (env failed_close_small) ++ [(rec_a, true)] /\
  _bufferedEntries (this st) = [] /\
  sunk (env st) = sunk (env failed_close_small) /\
  fs (env st) = fs (env failed_close_small).
Proof. vm_compute. repeat split. Qed.

(** C2, the code at an input where the claim fails: trace.json holds 68
    bytes of an earlier trace. open() seeds the size with 68, yet the file
    is empty once the stream is open, and after one record and close() the
    file holds that record alone. *)
Lemma open_truncates_existing_file :
  let opened := run flat_path [CallOpen; Complete 0 None; Complete 0 None] closed_on_existing in
  let done :=
    run flat_path [CallWriteTrace rec_b; CallClose; Complete 0 None; Complete 0 None] opened in
  fs (env closed_on_existing) !! "trace.json" = Some earlier_trace /\
  fileSize (this opened) = num_of_Z 68 /\
  fs (env opened) !! "trace.json" = Some EmptyString /\
  streams (env opened) !! 0%nat = Some (mkStream "trace.json" FlagW true) /\
  fs (env done) !! "trace.json" = Some (trace_prefix +:+ json_text rec_b +:+ "]}").
Proof. vm_compute. repeat split. Qed.

(** C3, the code at an input where the claim fails: a limit of 10 bytes
    and three records of about 50 bytes, written to the open writer. The
    size is NaN after the first write and stays so; no rotation starts. *)
Lemma writeTrace_adds_missing_length :
  let st1 := run flat_path [CallWriteTrace rec_a] opened_small in
  let st3 := run flat_path [CallWriteTrace rec_b; CallWriteTrace rec_c] st1 in
  fileSize (this opened_small) = num_of_Z 0 /\
  String.length (JSON_stringify rec_a) = 51%nat /\
  num_ge (size_of (JSON_stringify rec_a)) (maxFileSize (this opened_small)) = true /\
  fileSize (this st1) = NaN /\
  rotating (this st1) = false /\ tasks (env st1) = [] /\
  returned (env st3) = [(rec_a, true); (rec_b, true); (rec_c, true)] /\
  fileSize (this st3) = NaN /\
  rotating (this st3) = false /\ tasks (env st3) = [] /\ renames (env st3) = [] /\
  id (this st3) = 0%N.
Proof. vm_compute. repeat split. Qed.

(** C4, the code at an input where the claim fails: one record, a
    rotation that completes, a second record, close(). The rotated file
    has the full shape; the fresh active file starts with a comma. *)
Lemma first_record_after_rotation_gets_comma :
  let st :=
    run flat_path
      [CallWriteTrace rec_a;
       CallRotate; Complete 0 None; Complete 0 None; Complete 0 None;
       Complete 0 None; Complete 0 None;
       CallWriteTrace rec_b;
       CallClose; Complete 0 None; Complete 0 None]
      opened_small in
  renames (env st) = [("trace.json", "trace.0.json")] /\
  settled (env st) = [(OpOpen, None); (OpRotate, None); (OpClose, None)] /\
  fs (env st) !! "trace.0.json" = Some (trace_prefix +:+ json_text rec_a +:+ "]}") /\
  fs (env st) !! "trace.json" = Some ("," +:+ json_text rec_b +:+ "]}") /\
  fs (env st) !! "trace.json" <> Some (trace_prefix +:+ json_text rec_b +:+ "]}").
Proof. vm_compute. repeat split; try reflexivity. discriminate. Qed.



(** The wedge at a concrete input: the stream of the open writer fails
    while close() waits for its end. close() never settles, the retry
    reopens the writer, and the reopened writer refuses the record. *)
Example close_hangs_on_stream_error :
  let st :=
    run flat_path
      [CallClose; SinkError (SystemError "EIO");
       TimerFires; Complete 1 None; Complete 1 None; CallWriteTrace rec_a]
      opened_small in
  settled (env st) = [(OpOpen, None); (OpOpen, None)] /\
  tasks (env st) = [[AwaitEnd 0%nat]] /\
  closing (this st) = true /\
  closed (this st) = false /\ stream (this st) = Some 1%nat /\
  writable_path (env st) 1%nat = Some "trace.json" /\
  returned (env st) = [(rec_a, false)].
Proof. vm_compute. repeat split. Qed.

(** The statement on C8 at the writer that was never opened. *)
Lemma open_sizes_file_and_retries_witness :
  tasks (env closed_small) = [] /\ openable closed_small /\
  tasks (env (step flat_path CallOpen closed_small)) =
    [[AwaitStat (filename (this closed_small))]].
Proof.
  assert (H1 : tasks (env closed_small) = []) by (vm_compute; reflexivity).
  assert (H2 : openable closed_small)
    by (split; [| split]; vm_compute; reflexivity).
  split; [exact H1 |]. split; [exact H2 |].
  exact (proj1 (open_sizes_file_and_retries flat_path closed_small H1 H2)).
Defined.

(** The statement on C9 at the writer that was never opened, along the run
    of an open() that fails and schedules the retry. *)
Lemma retry_schedules_one_open_witness :
  one_retry_at_most closed_small /\
  (let st' := run flat_path failed_open_run closed_small in
   (length (timeouts (env st')) <= 1)%nat /\
   (timer (this st') = None <-> timeouts (env st') = [])).
Proof.
  assert (H1 : one_retry_at_most closed_small) by (left; split; vm_compute; reflexivity).
  split; [exact H1 |].
  destruct (retry_schedules_one_open flat_path closed_small 0) as (_ & _ & _ & _ & _ & _ & _ & H).
  exact (H failed_open_run H1).
Defined.

(** The statement on C7 at the open writer after one record; the rotated
    name is trace.0.json. *)
Lemma rotate_renames_once_witness :
  stream (this written_small) = Some 0%nat /\ closed (this written_small) = false /\
  rotating (this written_small) = false /\
  truthy_string (filename (this written_small)) = true /\
  writable_path (env written_small) 0%nat = Some (filename (this written_small)) /\
  tasks (env written_small) = [] /\
  rotating (this (step flat_path CallRotate written_small)) = true /\
  rotated_name flat_path (filename (this written_small)) (id (this written_small))
    = "trace.0.json".
Proof.
  assert (H1 : stream (this written_small) = Some 0%nat) by (vm_compute; reflexivity).
  assert (H2 : closed (this written_small) = false) by (vm_compute; reflexivity).
  assert (H3 : rotating (this written_small) = false) by (vm_compute; reflexivity).
  assert (H4 : truthy_string (filename (this written_small)) = true)
    by (vm_compute; reflexivity).
  assert (H5 : writable_path (env written_small) 0%nat = Some (filename (this written_small)))
    by (vm_compute; reflexivity).
  assert (H6 : tasks (env written_small) = []) by (vm_compute; reflexivity).
  do 6 (split; [assumption |]).
  split; [| vm_compute; reflexivity].
  exact (proj1 (proj1 (proj2 (rotate_renames_once flat_path written_small))
                  0%nat None H1 H2 H3 H4 H5 H6)).
Defined.

(** *** Records reach the sink in call order *)

Lemma Chunks_app (c1 c2 : list string) (e1 e2 : list Json) :
  Chunks c1 e1 -> Chunks c2 e2 -> Chunks (c1 ++ c2) (e1 ++ e2).
Proof.
  induction 1; intros H2; simpl; try constructor; auto.
Qed.

Lemma Chunks_record (first : bool) (j : Json) : Chunks (record_chunks first j) [j].
Proof. destruct first; simpl; repeat constructor. Qed.

Lemma Chunks_closer : Chunks ["]}"] [].
Proof. repeat constructor. Qed.

Create HintDb chunks.
#[local] Hint Constructors Chunks : chunks.
#[local] Hint Resolve Chunks_record Chunks_closer Chunks_app : chunks.

Lemma accepted_app (a b : list (Json * bool)) : accepted (a ++ b) = accepted a ++ accepted b.
Proof. unfold accepted. by rewrite List.filter_app, map_app. Qed.

Lemma direct_write_queue_frame (s : StreamRef) (j : Json) (st : State) (q : list Json) :
  direct_write s j (upd_this (set_bufferedEntries q) st) =
  upd_this (set_bufferedEntries q) (direct_write s j st).
Proof.
  open_state st. unfold direct_write. simpl. by destruct v_firstEntry.
Qed.

Lemma call_rotate_queue_frame (path : PathModule) (st : State) (q : list Json) :
  call_rotate path [] (upd_this (set_bufferedEntries q) st) =
  upd_this (set_bufferedEntries q) (call_rotate path [] st).
Proof.
  open_state st. unfold call_rotate, call_close. simpl.
  destruct v_rotating; [reflexivity |].
  destruct v_stream; simpl; [| reflexivity].
  destruct v_closed; simpl; [reflexivity |].
  destruct (truthy_string v_filename); reflexivity.
Qed.

Lemma upd_queue_fields (st : State) (q : list Json) :
  fileSize (this (upd_this (set_bufferedEntries q) st)) = fileSize (this st) /\
  maxFileSize (this (upd_this (set_bufferedEntries q) st)) = maxFileSize (this st) /\
  rotating (this (upd_this (set_bufferedEntries q) st)) = rotating (this st) /\
  closing (this (upd_this (set_bufferedEntries q) st)) = closing (this st) /\
  stream (this (upd_this (set_bufferedEntries q) st)) = stream (this st).
Proof. by open_state st. Qed.

(** Without a rotation in progress writeTrace neither reads nor changes
    the queue. *)
Lemma writeTrace_queue_frame (path : PathModule) (j : Json) (st : State) (q : list Json) :
  rotating (this st) = false ->
  writeTrace path j (upd_this (set_bufferedEntries q) st) =
  (fst (writeTrace path j st),
   upd_this (set_bufferedEntries q) (snd (writeTrace path j st))).
Proof.
  intros Hr.
  destruct (upd_queue_fields st q) as (Hfs & Hmax & Hrot & Hcl & Hst).
  destruct (stream (this st)) as [s |] eqn:Hs.
  - destruct (closing (this st)) eqn:Hc.
    + rewrite !writeTrace_rejected; auto; rewrite ?Hrot, ?Hcl; auto.
    + rewrite (writeTrace_direct path j st s Hr Hc Hs).
      rewrite (writeTrace_direct path j _ s); [| congruence ..].
      rewrite direct_write_queue_frame.
      destruct (upd_queue_fields (direct_write s j st) q) as (-> & -> & _).
      cbn [fst snd]. destruct (num_ge _ _); [| reflexivity].
      by rewrite call_rotate_queue_frame.
  - rewrite !writeTrace_rejected; auto; rewrite ?Hrot, ?Hst; auto.
Qed.

Lemma writeTrace_queue_kept (path : PathModule) (j : Json) (st : State) :
  rotating (this st) = false ->
  _bufferedEntries (this (snd (writeTrace path j st))) = _bufferedEntries (this st).
Proof.
  intros Hr.
  destruct (stream (this st)) as [s |] eqn:Hs.
  - destruct (closing (this st)) eqn:Hc.
    + rewrite writeTrace_rejected; auto.
    + rewrite (writeTrace_direct path j st s Hr Hc Hs). cbn [fst snd].
      assert (Hd : _bufferedEntries (this (direct_write s j st)) = _bufferedEntries (this st)).
      { open_state st. unfold direct_write. simpl. by destruct v_firstEntry. }
      destruct (num_ge _ _); [| exact Hd].
      destruct (call_rotate_root_effect path (direct_write s j st)) as [Hb _].
      congruence.
  - rewrite writeTrace_rejected; auto.
Qed.

Lemma writeTrace_refusal (path : PathModule) (j : Json) (st : State) :
  fst (writeTrace path j st) = false -> snd (writeTrace path j st) = st.
Proof.
  unfold writeTrace.
  repeat (case_if; simpl; try reflexivity; try discriminate).
Qed.

Lemma requeue_same (st : State) (q : list Json) :
  _bufferedEntries (this st) = q -> upd_this (set_bufferedEntries q) st = st.
Proof. intros <-. by open_state st. Qed.

Lemma set_bufferedEntries_twice (q q' : list Json) (st : State) :
  upd_this (set_bufferedEntries q) (upd_this (set_bufferedEntries q') st) =
  upd_this (set_bufferedEntries q) st.
Proof. by open_state st. Qed.

(** The loop of open() writes a prefix of the queue, first in first out,
    each record through the immediate-write path while no rotation is in
    progress, and leaves the rest queued in order; it stops when the queue
    is empty, when a rotation has begun, or when a write is refused. *)
Lemma drain_fifo (path : PathModule) (fuel : nat) (st : State) :
  (length (_bufferedEntries (this st)) <= fuel)%nat ->
  exists done rest,
    _bufferedEntries (this st) = done ++ rest /\
    drain path fuel st =
      upd_this (set_bufferedEntries rest)
        (write_all path done (upd_this (set_bufferedEntries []) st)) /\
    drained_ok path done (upd_this (set_bufferedEntries []) st) = true /\
    drain_stopped path (drain path fuel st).
Proof.
  revert st. induction fuel as [| fuel IH]; intros st Hlen.
  - destruct (_bufferedEntries (this st)) as [| msg rest] eqn:Hq; [| simpl in Hlen; lia].
    exists [], []. cbn [write_all drained_ok app drain]. split; [reflexivity |]. split.
    + by rewrite set_bufferedEntries_twice, requeue_same.
    + split; [reflexivity |]. unfold drain_stopped. by rewrite Hq.
  - cbn [drain]. destruct (_bufferedEntries (this st)) as [| msg rest] eqn:Hq.
    { exists [], []. cbn [write_all drained_ok app]. split; [reflexivity |]. split.
      - by rewrite set_bufferedEntries_twice, requeue_same.
      - split; [reflexivity |]. unfold drain_stopped. by rewrite Hq. }
    destruct (rotating (this st)) eqn:Hr.
    { exists [], (msg :: rest). cbn [write_all drained_ok app].
      split; [reflexivity |]. split.
      - by rewrite set_bufferedEntries_twice, requeue_same.
      - split; [reflexivity |]. unfold drain_stopped. rewrite Hq. by left. }
    rewrite (writeTrace_queue_frame path msg st rest Hr).
    pose proof (writeTrace_queue_frame path msg st [] Hr) as Hframe0.
    destruct (fst (writeTrace path msg st)) eqn:Hres.
    + set (st2 := upd_this (set_bufferedEntries rest) (snd (writeTrace path msg st))).
      assert (Hq2 : _bufferedEntries (this st2) = rest).
      { subst st2. by destruct (snd (writeTrace path msg st)) as [[] ?]. }
      destruct (IH st2) as (done & rest' & Hsplit & Hdrain & Hok & Hstop).
      { rewrite Hq2. simpl in Hlen. lia. }
      exists (msg :: done), rest'. rewrite Hq2 in Hsplit.
      split; [by rewrite Hsplit |]. split; [| split].
      * rewrite Hdrain. cbn [write_all]. rewrite Hframe0. cbn [fst snd].
        subst st2. by rewrite set_bufferedEntries_twice.
      * cbn [drained_ok]. rewrite Hframe0. cbn [fst snd].
        assert (rotating (this (upd_this (set_bufferedEntries []) st)) = false) as ->
          by (by open_state st).
        cbn [negb andb].
        subst st2. by rewrite set_bufferedEntries_twice in Hok.
      * exact Hstop.
    + exists [], (msg :: rest). cbn [write_all drained_ok app].
      rewrite (writeTrace_refusal path msg st Hres).
      assert (Hst' : upd_this (fun w => set_bufferedEntries (msg :: _bufferedEntries w) w)
                       (upd_this (set_bufferedEntries rest) st)
                     = upd_this (set_bufferedEntries (msg :: rest)) st)
        by (by open_state st).
      rewrite Hst'.
      split; [reflexivity |]. split; [| split; [reflexivity |]].
      * by rewrite !set_bufferedEntries_twice.
      * unfold drain_stopped.
        assert (Hq' : _bufferedEntries (this (upd_this (set_bufferedEntries (msg :: rest)) st))
                      = msg :: rest) by (by open_state st).
        rewrite Hq'. right. rewrite set_bufferedEntries_twice.
        rewrite (writeTrace_queue_frame path msg st rest Hr). cbn [fst]. exact Hres.
Qed.

(** One record through the immediate-write path of a writable writer. *)
Lemma writeTrace_writable (path : PathModule) (j : Json) (st : State) :
  Writable st -> truthy_string (filename (this st)) = true ->
  let st' := snd (writeTrace path j st) in
  fst (writeTrace path j st) = true /\
  returned (env st') = returned (env st) /\
  filename (this st') = filename (this st) /\
  _bufferedEntries (this st') = _bufferedEntries (this st) /\
  exists closer,
    sunk (env st') = sunk (env st) ++ record_chunks (firstEntry (this st)) j ++ closer /\
    (closer = [] /\ Writable st' \/ closer = ["]}"] /\ RotateStarted st').
Proof.
  intros (s & p & Hs & Hw & Hc & Hr & Hcl & Ht & Htm & Hto) Hf.
  rewrite (writeTrace_direct path j st s Hr Hcl Hs). cbn [fst snd].
  split; [reflexivity |].
  open_state st.
  unfold direct_write. simpl. rewrite Hw.
  destruct v_firstEntry; simpl; rewrite ?Hw; simpl;
    (destruct (num_ge _ _);
     [ unfold call_rotate, call_close; simpl; rewrite Hf; simpl; rewrite Hw;
       do 3 (split; [reflexivity |]);
       exists ["]}"]; split; [by rewrite <- ?app_assoc |];
       right; split; [reflexivity |]; exists s; done
     | do 3 (split; [reflexivity |]);
       exists []; split; [by rewrite <- ?app_assoc |];
       left; split; [reflexivity |]; exists s, p; simpl; rewrite Hw; done ]).
Qed.

Lemma Writable_requeue (st : State) (q : list Json) :
  Writable st -> Writable (upd_this (set_bufferedEntries q) st).
Proof.
  intros (s & p & H). exists s, p. by open_state st.
Qed.

Lemma RotateStarted_requeue (st : State) (q : list Json) :
  RotateStarted st -> RotateStarted (upd_this (set_bufferedEntries q) st).
Proof.
  intros (s & H). exists s. by open_state st.
Qed.

(** The loop of open() on a writable writer: a prefix of the queue reaches
    the stream in order; either the queue is emptied, or a rotation has
    started and the rest stays queued. *)
Lemma drain_writable (path : PathModule) (fuel : nat) (st : State) :
  (length (_bufferedEntries (this st)) <= fuel)%nat ->
  Writable st -> truthy_string (filename (this st)) = true ->
  let st' := drain path fuel st in
  exists done rest chunks,
    _bufferedEntries (this st) = done ++ rest /\
    _bufferedEntries (this st') = rest /\
    sunk (env st') = sunk (env st) ++ chunks /\
    Chunks chunks done /\
    returned (env st') = returned (env st) /\
    filename (this st') = filename (this st) /\
    (rest = [] /\ Writable st' \/ RotateStarted st').
Proof.
  revert st. induction fuel as [| fuel IH]; intros st Hlen Hw Hf.
  - destruct (_bufferedEntries (this st)) as [| msg rest] eqn:Hq; [| simpl in Hlen; lia].
    exists [], [], []. cbn [drain].
    repeat split; rewrite ?app_nil_r; try done; [constructor | by left].
  - cbn [drain]. destruct (_bufferedEntries (this st)) as [| msg rest] eqn:Hq.
    { exists [], [], [].
      repeat split; rewrite ?app_nil_r; try done; [constructor | by left]. }
    assert (Hr : rotating (this st) = false) by (destruct Hw as (? & ? & H); tauto).
    rewrite Hr.
    set (st1 := upd_this (set_bufferedEntries rest) st).
    assert (Hw1 : Writable st1) by (by apply Writable_requeue).
    assert (Hf1 : truthy_string (filename (this st1)) = true) by (by open_state st).
    assert (Hq1 : _bufferedEntries (this st1) = rest) by (by open_state st).
    assert (Hfirst : firstEntry (this st1) = firstEntry (this st)) by (by open_state st).
    assert (Henv1 : env st1 = env st) by (by open_state st).
    destruct (writeTrace_writable path msg st1 Hw1 Hf1)
      as (Hres & Hret & Hname & Hqueue & closer & Hsunk & Hcase).
    destruct (writeTrace path msg st1) as [res st2]. cbn [fst snd] in *. subst res.
    rewrite Hq1 in Hqueue. rewrite Henv1 in Hret, Hsunk.
    destruct Hcase as [[-> Hw2] | [-> Hrot]].
    + destruct (IH st2) as (done & rest' & chunks & Hsplit & Hq' & Hsunk' & Hch & Hret' & Hname' & Hcase').
      { rewrite Hqueue. simpl in Hlen. lia. }
      { exact Hw2. }
      { congruence. }
      exists (msg :: done), rest', (record_chunks (firstEntry (this st1)) msg ++ chunks).
      split; [rewrite Hqueue in Hsplit; by rewrite Hsplit |].
      split; [exact Hq' |].
      split; [rewrite Hsunk', Hsunk, app_nil_r, <- app_assoc; reflexivity |].
      split; [apply (Chunks_app _ _ [msg] done); [apply Chunks_record | exact Hch] |].
      split; [congruence |].
      split; [rewrite Hname', Hname; by open_state st |].
      exact Hcase'.
    + assert (Hstop : drain path fuel st2 = st2).
      { destruct Hrot as (s & _ & _ & _ & Hrot & _).
        destruct fuel; cbn [drain]; [reflexivity |].
        destruct (_bufferedEntries (this st2)); [reflexivity |]. by rewrite Hrot. }
      rewrite Hstop.
      exists [msg], rest, (record_chunks (firstEntry (this st1)) msg ++ ["]}"]).
      split; [reflexivity |].
      split; [exact Hqueue |].
      split; [exact Hsunk |].
      split; [apply (Chunks_app _ _ [msg] []); auto with chunks |].
      split; [exact Hret |].
      split; [rewrite Hname; by open_state st |].
      by right.
Qed.

Lemma Writable_ext (st st' : State) :
  this st' = this st -> streams (env st') = streams (env st) ->
  tasks (env st') = tasks (env st) -> timeouts (env st') = timeouts (env st) ->
  Writable st -> Writable st'.
Proof.
  intros Hthis Hstr Htasks Hto (s & p & H). exists s, p.
  unfold writable_path in *. rewrite Hthis, Hstr, Htasks, Hto. exact H.
Qed.

Lemma Shape_ext (st st' : State) :
  this st' = this st -> streams (env st') = streams (env st) ->
  tasks (env st') = tasks (env st) -> timeouts (env st') = timeouts (env st) ->
  Shape st -> Shape st'.
Proof.
  intros Hthis Hstr Htasks Hto H.
  destruct H;
    [ apply shape_idle | eapply shape_opening | apply shape_active
    | eapply shape_rotate_closing | eapply shape_rotate_rename | apply shape_stuck ];
    rewrite ?Hthis, ?Htasks, ?Hto; eauto using Writable_ext.
Qed.

Lemma Shape_rotating_requeue (st : State) (q : list Json) :
  rotating (this st) = true -> Shape st ->
  Shape (upd_this (set_bufferedEntries q) st).
Proof.
  intros Hr H.
  destruct H as [? ? ? Hr' | ? ? ? ? ? ? ? Hr' | [s [p Hw]] | | |];
    try congruence.
  - destruct Hw as (_ & _ & _ & Hr' & _). congruence.
  - eapply shape_rotate_closing; by open_state st.
  - eapply shape_rotate_rename; by open_state st.
  - apply shape_stuck; by open_state st.
Qed.

Lemma Shape_rotating_or_writable (st : State) :
  Shape st ->
  rotating (this st) = true \/
  rotating (this st) = false /\ stream (this st) = None \/
  Writable st /\ _bufferedEntries (this st) = [].
Proof.
  intros []; auto.
Qed.

Lemma logged (r : Json * bool) (st : State) :
  let st' := upd_env (fun e => set_returned (returned e ++ [r]) e) st in
  this st' = this st /\ streams (env st') = streams (env st) /\
  tasks (env st') = tasks (env st) /\ timeouts (env st') = timeouts (env st) /\
  sunk (env st') = sunk (env st) /\
  returned (env st') = returned (env st) ++ [r].
Proof. by open_state st. Qed.

Lemma step_write_preserves (path : PathModule) (sunk0 : list string)
    (calls0 : list (Json * bool)) (j : Json) (st : State) :
  Inv sunk0 calls0 st -> Inv sunk0 calls0 (step path (CallWriteTrace j) st).
Proof.
  intros (Hf & Hshape & chunks & emitted & Hsunk & Hch & Hacc).
  cbn [step].
  destruct (Shape_rotating_or_writable st Hshape) as [Hr | [[Hr Hs] | [Hw Hq]]].
  - rewrite (writeTrace_rotating path j st Hr).
    assert (Hst1 : upd_this (fun w => set_bufferedEntries (_bufferedEntries w ++ [j]) w) st
                   = upd_this (set_bufferedEntries (_bufferedEntries (this st) ++ [j])) st)
      by (by open_state st).
    rewrite Hst1. set (st1 := upd_this _ st).
    assert (H1 : env st1 = env st /\
                 _bufferedEntries (this st1) = _bufferedEntries (this st) ++ [j] /\
                 filename (this st1) = filename (this st))
      by (subst st1; by open_state st).
    destruct H1 as (Henv & Hq1 & Hname).
    destruct (logged (j, true) st1) as (Hthis & Hstr & Htasks & Hto & Hsk & Hret).
    split; [rewrite Hthis; congruence |].
    split.
    + eapply Shape_ext; eauto. subst st1. by apply Shape_rotating_requeue.
    + exists chunks, emitted. rewrite Hsk, Hret, Hthis, Hq1, Henv.
      split; [exact Hsunk |]. split; [exact Hch |].
      rewrite accepted_app, Hacc.
      unfold accepted at 2. simpl. by rewrite <- !app_assoc.
  - rewrite (writeTrace_rejected path j st Hr (or_introl Hs)).
    destruct (logged (j, false) st) as (Hthis & Hstr & Htasks & Hto & Hsk & Hret).
    split; [by rewrite Hthis |].
    split; [eapply Shape_ext; eauto |].
    exists chunks, emitted. rewrite Hsk, Hret, Hthis.
    split; [exact Hsunk |]. split; [exact Hch |].
    rewrite accepted_app, Hacc. unfold accepted at 2. simpl. by rewrite app_nil_r.
  - destruct (writeTrace_writable path j st Hw Hf)
      as (Hres & Hret & Hname & Hqueue & closer & Hsk & Hcase).
    destruct (writeTrace path j st) as [res st1]. cbn [fst snd] in *. subst res.
    destruct (logged (j, true) st1) as (Hthis & Hstr & Htasks & Hto & Hsk' & Hret').
    split; [rewrite Hthis; congruence |].
    split.
    + eapply Shape_ext; eauto.
      destruct Hcase as [[_ Hw1] | [_ (s & Hrot)]].
      * apply shape_active; [exact Hw1 | congruence].
      * eapply (shape_rotate_closing st1 s (AwaitEnd s)); try tauto.
    + exists (chunks ++ record_chunks (firstEntry (this st)) j ++ closer), (emitted ++ [j]).
      rewrite Hsk', Hret', Hthis, Hsk, Hsunk.
      split; [by rewrite <- !app_assoc |].
      split.
      * apply Chunks_app; [exact Hch |].
        apply (Chunks_app _ _ [j] []); [apply Chunks_record |].
        destruct Hcase as [[-> _] | [-> _]]; auto with chunks.
      * rewrite accepted_app, Hret, Hacc, Hqueue, Hq. unfold accepted at 2. simpl.
        by rewrite !app_nil_r, <- !app_assoc.
Qed.

Lemma settle_frame (op : Op) (r : option Error) (st : State) :
  let st' := settle op r st in
  this st' = this st /\ streams (env st') = streams (env st) /\
  tasks (env st') = tasks (env st) /\ timeouts (env st') = timeouts (env st) /\
  sunk (env st') = sunk (env st) /\ returned (env st') = returned (env st).
Proof. by open_state st. Qed.

Lemma finish_open_settles (path : PathModule) (r : option Error) (k : Task) (st : State) :
  k = [] \/ k = [InRotateOpen] ->
  exists op, finish path OpOpen r k st = settle op r st.
Proof. intros [-> | ->]; eexists; reflexivity. Qed.

Lemma Inv_settle (sunk0 : list string) (calls0 : list (Json * bool))
    (op : Op) (r : option Error) (st : State) :
  Inv sunk0 calls0 st -> Inv sunk0 calls0 (settle op r st).
Proof.
  intros (Hf & Hshape & chunks & emitted & Hsunk & Hch & Hacc).
  destruct (settle_frame op r st) as (Hthis & Hstr & Htasks & Hto & Hsk & Hret).
  split; [by rewrite Hthis |].
  split; [eapply Shape_ext; eauto |].
  exists chunks, emitted. by rewrite Hsk, Hret, Hthis.
Qed.

Ltac shape :=
  first
    [ by (apply shape_idle; simpl; auto)
    | by (apply shape_idle; simpl; eauto 6)
    | by (eapply shape_opening; simpl; eauto)
    | by (eapply shape_rotate_closing; simpl; eauto)
    | by (eapply shape_rotate_rename; simpl; eauto)
    | by (apply shape_stuck; simpl; auto) ].

Lemma step_complete_preserves (path : PathModule) (sunk0 : list string)
    (calls0 : list (Json * bool)) (i : nat) (fault : option Error) (st : State) :
  Inv sunk0 calls0 st -> Inv sunk0 calls0 (step path (Complete i fault) st).
Proof.
  intros HInv. pose proof HInv as (Hf & Hshape & chunks & emitted & Hsunk & Hch & Hacc).
  cbn [step].
  destruct Hshape as [Ht | fr k Ht Hfr Hk Hs Hc Hr Hcl Htm Hto | [s [p Hw]] Hq
                     | s fr Ht Hfr Hs Hc Hr Hcl Htm Hto | a b Ht Hs Hc Hr Hcl Htm Hto
                     | Ht Hr Hto].
  - rewrite Ht. exact HInv.
  - rewrite Ht. destruct i as [| i]; [| exact HInv]. cbn [lookup list_lookup].
    clear HInv. destruct Hfr as [-> | ->].
    + (* the stat settles *)
      open_state st. unfold open_after_stat, io_stat, getFileSize_after_stat. simpl.
      destruct fault as [err |]; [destruct (has_code err "ENOENT") | destruct (e_fs !! v_filename)];
        simpl;
        try (split; [done |]; split; [shape | exists chunks, emitted; done]);
        destruct Hk as [-> | ->]; simpl;
        (split; [done |]; split; [shape | exists chunks, emitted; done]).
    + (* the stream opens or fails to *)
      open_state st. unfold io_openStream. simpl.
      destruct fault as [err |]; simpl.
      * unfold retry. simpl.
        destruct Hk as [-> | ->]; simpl;
          (split; [done |]; split; [shape | exists chunks, emitted; done]).
      * match goal with
        | |- Inv _ _ (finish path OpOpen None k ?d) =>
            destruct (finish_open_settles path None k d Hk) as [op ->]
        end.
        apply Inv_settle.
        match goal with
        | |- Inv _ _ (drain path ?n ?st0) =>
            destruct (drain_writable path n st0)
              as (done & rest & chunks' & Hsplit & Hq' & Hsunk' & Hch' & Hret' & Hname' & Hcase)
        end.
        { simpl. lia. }
        { exists (length e_streams), v_filename. simpl.
          rewrite list_lookup_middle by reflexivity. done. }
        { exact Hf. }
        simpl in Hsplit, Hsunk', Hret', Hname'.
        split; [by rewrite Hname' |].
        split.
        -- destruct Hcase as [[-> Hw] | (s & Hrot)].
           ++ apply shape_active; [exact Hw | exact Hq'].
           ++ eapply (shape_rotate_closing _ s (AwaitEnd s)); try tauto.
        -- exists (chunks ++ chunks'), (emitted ++ done).
           rewrite Hsunk', Hret', Hq', Hacc, Hsplit.
           split; [by rewrite app_assoc |].
           split; [by apply Chunks_app |].
           by rewrite <- !app_assoc.
  - destruct Hw as (_ & _ & _ & _ & _ & Ht & _). rewrite Ht. exact HInv.
  - rewrite Ht. destruct i as [| i]; [| exact HInv]. cbn [lookup list_lookup].
    clear HInv. destruct Hfr as [-> | ->].
    + (* the stream has finished *)
      open_state st. unfold close_after_end. simpl.
      split; [done |].
      split; [| exists chunks, emitted; done].
      eapply (shape_rotate_closing _ s (AwaitClose s)); simpl; auto.
    + (* the stream is closed or fails to close *)
      open_state st. unfold close_after_close. simpl.
      destruct fault as [err |]; simpl;
        (split; [done |]; split; [| exists chunks, emitted; done]).
      * apply shape_stuck; simpl; auto.
      * eapply shape_rotate_rename; simpl; eauto.
  - rewrite Ht. destruct i as [| i]; [| exact HInv]. cbn [lookup list_lookup].
    clear HInv. open_state st. unfold io_rename. simpl.
    destruct fault as [err |]; [| destruct (e_fs !! a)]; simpl;
      try (split; [done |]; split;
           [apply shape_stuck; simpl; by auto | exists chunks, emitted; done]).
    unfold call_open. simpl. rewrite Hf. simpl.
    split; [done |]. split; [| exists chunks, emitted; done].
    eapply shape_opening; simpl; eauto.
  - rewrite Ht. exact HInv.
Qed.

Lemma step_timer_preserves (path : PathModule) (sunk0 : list string)
    (calls0 : list (Json * bool)) (st : State) :
  Inv sunk0 calls0 st -> Inv sunk0 calls0 (step path TimerFires st).
Proof.
  intros HInv. pose proof HInv as (Hf & Hshape & chunks & emitted & Hsunk & Hch & Hacc).
  cbn [step].
  destruct Hshape as [Ht Hs Hc Hr Hcl Hpending | fr k Ht Hfr Hk Hs Hc Hr Hcl Htm Hto
                     | [s [p Hw]] Hq
                     | s fr Ht Hfr Hs Hc Hr Hcl Htm Hto | a b Ht Hs Hc Hr Hcl Htm Hto
                     | Ht Hr Hto];
    try (rewrite Hto; exact HInv).
  - destruct Hpending as [[_ Hto] | [_ [d Hto]]]; rewrite Hto; [exact HInv |].
    clear HInv. open_state st.
    unfold timer_callback, call_open. simpl. rewrite Hf. simpl.
    split; [done |]. split; [shape | exists chunks, emitted; done].
  - destruct Hw as (_ & _ & _ & _ & _ & _ & _ & Hto). rewrite Hto. exact HInv.
Qed.

Lemma step_preserves (path : PathModule) (sunk0 : list string)
    (calls0 : list (Json * bool)) (ev : Event) (st : State) :
  owner_only_writes ev -> Inv sunk0 calls0 st -> Inv sunk0 calls0 (step path ev st).
Proof.
  destruct ev; simpl; try tauto; intros _.
  - apply step_write_preserves.
  - apply step_complete_preserves.
  - apply step_timer_preserves.
Qed.

Lemma run_preserves (path : PathModule) (sunk0 : list string)
    (calls0 : list (Json * bool)) (evs : list Event) (st : State) :
  Forall owner_only_writes evs -> Inv sunk0 calls0 st -> Inv sunk0 calls0 (run path evs st).
Proof.
  intros Hall. revert st.
  induction Hall as [| ev evs Hev _ IH]; intros st HInv; [exact HInv |].
  apply IH. by apply step_preserves.
Qed.

Lemma open_establishes (path : PathModule) (st : State) :
  never_opened st ->
  Inv (sunk (env st)) (returned (env st)) (step path CallOpen st).
Proof.
  intros (Hf & Hs & Hc & Hcl & Hr & Hq & Htm & Hto & Ht).
  open_state st. unfold call_open. simpl. rewrite Hf. simpl.
  split; [done |]. split; [shape |].
  exists [], []. rewrite !app_nil_r. repeat split. constructor.
Qed.

(** *** A rotation that failed: the queue is never drained *)

(** With [rotating] set, no call suspended and no timeout pending, a run in
    which the owner only submits records queues them all and does nothing
    else. *)
Lemma stuck_run (path : PathModule) (evs : list Event) (st : State) :
  rotating (this st) = true -> tasks (env st) = [] -> timeouts (env st) = [] ->
  Forall owner_only_writes evs ->
  run path evs st =
  upd_env (fun e => set_returned (returned e ++ map (fun j => (j, true)) (submitted evs)) e)
    (upd_this (fun w => set_bufferedEntries (_bufferedEntries w ++ submitted evs) w) st).
Proof.
  intros Hr Ht Hto Hall. revert st Hr Ht Hto.
  induction Hall as [| ev evs Hev _ IH]; intros st Hr Ht Hto.
  - open_state st. by rewrite !app_nil_r.
  - cbn [run fold_left]. fold (run path evs (step path ev st)).
    destruct ev; try (by destruct Hev); cbn [step].
    + rewrite (writeTrace_rotating path json st Hr).
      rewrite IH by (by open_state st).
      open_state st. by rewrite <- !app_assoc.
    + rewrite Ht. simpl. by apply IH.
    + rewrite Hto. by apply IH.
Qed.

(** While a run of writes is in the shape of the invariant, an active
    writer outside a rotation has an empty queue. *)
Lemma Shape_active_queue (st : State) :
  Shape st -> rotating (this st) = false -> is_set (stream (this st)) = true ->
  _bufferedEntries (this st) = [].
Proof.
  intros [] Hr Hs; try congruence;
    match goal with
    | H : stream (this st) = None |- _ => rewrite H in Hs; discriminate
    end.
Qed.

Lemma Shape_stuck_timeouts (st : State) :
  Shape st -> rotating (this st) = true -> tasks (env st) = [] ->
  timeouts (env st) = [].
Proof.
  intros [] Hr Ht; try congruence.
  destruct H as (s & p & _ & _ & _ & H & _). congruence.
Qed.


(** Scenario A of the specification (limit 10, three records of 6 bytes)
    with records that carry their length, computed: the second record
    starts the rotation, the third waits in the queue and follows the first
    two once the fresh file is open. *)
Example rotation_run_result :
  let st := run flat_path (CallOpen :: rotation_run) closed_small in
  sunk (env st) = [trace_prefix; "AAAAAA"; ",BBBBBB"; "]}"; ",CCCCCC"] /\
  accepted (returned (env st)) =
    [sized_record "AAAAAA"; sized_record "BBBBBB"; sized_record "CCCCCC"] /\
  _bufferedEntries (this st) = [] /\
  renames (env st) = [("trace.json", "trace.0.json")] /\
  fs (env st) !! "trace.0.json" = Some (trace_prefix +:+ "AAAAAA,BBBBBB]}") /\
  fs (env st) !! "trace.json" = Some ",CCCCCC".
Proof. vm_compute. repeat split. Qed.



(** *** What the three defects do in general *)

(** Adding the [length] of an object that has none gives NaN, whatever the
    size was. *)
Lemma size_after_record_without_length (s : StreamRef) (j : Json) (st : State) :
  json_length j = None -> fileSize (this (direct_write s j st)) = NaN.
Proof.
  intros Hj. open_state st. unfold direct_write. simpl. rewrite Hj.
  destruct v_firstEntry; simpl; by destruct v_fileSize.
Qed.

(** Hence a record without [length] never starts a rotation. *)
Lemma record_without_length_never_rotates (path : PathModule) (j : Json) (st : State) :
  json_length j = None ->
  rotating (this (snd (writeTrace path j st))) = rotating (this st) /\
  tasks (env (snd (writeTrace path j st))) = tasks (env st) /\
  id (this (snd (writeTrace path j st))) = id (this st).
Proof.
  intros Hj. destruct (rotating (this st)) eqn:Hr.
  - rewrite writeTrace_rotating by exact Hr. by open_state st.
  - destruct (stream (this st)) as [s |] eqn:Hs.
    + destruct (closing (this st)) eqn:Hc.
      * rewrite writeTrace_rejected; auto.
      * rewrite (writeTrace_direct path j st s Hr Hc Hs). cbn [snd].
        rewrite (size_after_record_without_length s j st Hj). simpl.
        open_state st. unfold direct_write. simpl. by destruct v_firstEntry.
    + rewrite writeTrace_rejected; auto.
Qed.

Lemma finish_entry_written (path : PathModule) (op : Op) (r : option Error) (k : Task) (st : State) :
  entry_written st -> entry_written (finish path op r k st).
Proof.
  unfold entry_written. revert op r.
  induction k as [| fr k IH]; intros op r H; [by open_state st |].
  destruct fr; try (by open_state st).
  - simpl. destruct r; [by apply IH |]. by open_state st.
  - simpl. by apply IH.
Qed.

Lemma call_close_entry_written (path : PathModule) (k : Task) (st : State) :
  entry_written st -> entry_written (call_close path k st).
Proof.
  intros H. unfold call_close.
  destruct (closed (this st)); [by apply finish_entry_written |].
  destruct (stream (this st)); [| by apply finish_entry_written].
  unfold entry_written in *. by open_state st.
Qed.

Lemma call_rotate_entry_written (path : PathModule) (k : Task) (st : State) :
  entry_written st -> entry_written (call_rotate path k st).
Proof.
  intros H. unfold call_rotate.
  destruct (rotating (this st)); [by apply finish_entry_written |].
  destruct (_ || _); [by apply finish_entry_written |].
  assert (H' : entry_written (upd_this (set_rotating true) st))
    by (unfold entry_written in *; by open_state st).
  destruct (negb _); [by apply finish_entry_written | by apply call_close_entry_written].
Qed.

Lemma writeTrace_entry_written (path : PathModule) (j : Json) (st : State) :
  entry_written st -> entry_written (snd (writeTrace path j st)).
Proof.
  intros H. destruct (rotating (this st)) eqn:Hr.
  - rewrite writeTrace_rotating by exact Hr. unfold entry_written in *. by open_state st.
  - destruct (stream (this st)) as [s |] eqn:Hs.
    + destruct (closing (this st)) eqn:Hc.
      * rewrite writeTrace_rejected; auto.
      * rewrite (writeTrace_direct path j st s Hr Hc Hs). cbn [snd].
        assert (Hd : entry_written (direct_write s j st)).
        { unfold entry_written in *. open_state st. unfold direct_write. simpl.
          reflexivity. }
        destruct (num_ge _ _); [by apply call_rotate_entry_written | exact Hd].
    + rewrite writeTrace_rejected; auto.
Qed.

Lemma drain_entry_written (path : PathModule) (fuel : nat) (st : State) :
  entry_written st -> entry_written (drain path fuel st).
Proof.
  revert st. induction fuel as [| fuel IH]; intros st H; [exact H |].
  cbn [drain]. destruct (_bufferedEntries (this st)) as [| msg rest]; [exact H |].
  destruct (rotating (this st)); [exact H |].
  assert (H1 : entry_written (upd_this (set_bufferedEntries rest) st))
    by (unfold entry_written in *; by open_state st).
  pose proof (writeTrace_entry_written path msg _ H1) as H2.
  destruct (writeTrace path msg _) as [[] st2]; cbn [snd] in H2.
  - by apply IH.
  - unfold entry_written in *. by open_state st2.
Qed.

Lemma call_open_entry_written (path : PathModule) (k : Task) (st : State) :
  entry_written st -> entry_written (call_open path k st).
Proof.
  intros H. unfold call_open.
  repeat (case_if; [by apply finish_entry_written |]).
  unfold entry_written in *. by open_state st.
Qed.

Lemma resume_entry_written (path : PathModule) (t : Task) (fault : option Error) (st : State) :
  entry_written st -> entry_written (resume path t fault st).
Proof.
  intros H. destruct t as [| fr k]; [exact H |].
  destruct fr as [p | p fl | s | s | a b | |]; cbn [resume]; try exact H.
  - unfold open_after_stat.
    destruct (getFileSize_after_stat _); [by apply finish_entry_written |].
    unfold entry_written in *. by open_state st.
  - destruct (io_openStream p fl fault (env st)) as [[err | s] e];
      unfold open_after_openStream.
    + apply finish_entry_written. unfold entry_written, retry in *. simpl.
      destruct (timer (this st)); by open_state st.
    + apply finish_entry_written, drain_entry_written.
      unfold entry_written in *. by open_state st.
  - unfold close_after_end. destruct (stream (this st)).
    + unfold entry_written in *. by open_state st.
    + apply finish_entry_written. unfold entry_written in *. by open_state st.
  - unfold close_after_close. destruct fault.
    + apply finish_entry_written. unfold entry_written in *. by open_state st.
    + apply finish_entry_written. unfold entry_written in *. by open_state st.
  - destruct (io_rename a b fault (env st)) as [[err |] e];
      unfold rotate_after_rename.
    + by apply finish_entry_written.
    + apply call_open_entry_written. unfold entry_written in *. by open_state st.
Qed.

(** X6. Once a record has been written, [firstEntry] stays false through
    every event: a file opened later, by a rotation or by a reopening,
    never gets the opening of the array. *)
Lemma firstEntry_never_reset (path : PathModule) (evs : list Event) (st : State) :
  firstEntry (this st) = false -> firstEntry (this (run path evs st)) = false.
Proof.
  revert st. induction evs as [| ev evs IH]; intros st H; [exact H |].
  simpl. apply IH. fold (entry_written st) in H. fold (entry_written (step path ev st)).
  destruct ev; cbn [step].
  - by apply call_open_entry_written.
  - by apply call_close_entry_written.
  - by apply call_rotate_entry_written.
  - pose proof (writeTrace_entry_written path json st H) as H1.
    destruct (writeTrace path json st) as [r st1]. cbn [snd] in H1.
    unfold entry_written in *. by open_state st1.
  - destruct (tasks (env st) !! i) as [t |]; [| exact H].
    apply resume_entry_written. unfold entry_written in *. by open_state st.
  - destruct (timeouts (env st)) as [| d rest]; [exact H |].
    unfold timer_callback. apply call_open_entry_written.
    unfold entry_written in *. by open_state st.
  - unfold handleError, retry, entry_written in *.
    open_state st. destruct v_stream; simpl; destruct v_timer; simpl; done.
Qed.

(** open() on an existing file, with an empty queue: the size is the size
    of the old content and the content is gone. *)
Lemma open_seeds_size_and_truncates (path : PathModule) (st : State) (content : string) :
  openable st -> tasks (env st) = [] -> _bufferedEntries (this st) = [] ->
  fs (env st) !! filename (this st) = Some content ->
  let st' := run path [CallOpen; Complete 0 None; Complete 0 None] st in
  fileSize (this st') = size_of content /\
  fs (env st') !! filename (this st) = Some EmptyString /\
  is_set (stream (this st')) = true.
Proof.
  intros (Hf & Hs & Hc) Ht Hq Hfile. open_state st.
  unfold call_open. simpl. rewrite Hf. simpl.
  unfold open_after_stat, io_stat. simpl. rewrite Hfile. simpl.
  by rewrite lookup_insert_eq.
Qed.

(* ===================================================================== *)
(** ** Further properties of the writer *)
(* ===================================================================== *)

(** *** open() retried until it succeeds *)

Lemma run_app (path : PathModule) (evs1 evs2 : list Event) (st : State) :
  run path (evs1 ++ evs2) st = run path evs2 (run path evs1 st).
Proof. unfold run. apply fold_left_app. Qed.

(** A failed attempt brings open() back to where it started: awaiting the
    stat, with one more promise resolved. *)
Lemma failed_attempt_loops (path : PathModule) (st : State) (a : option Error * Error) :
  truthy_string (filename (this st)) = true ->
  stream (this st) = None -> closed (this st) = true ->
  timer (this st) = None -> timeouts (env st) = [] ->
  tasks (env st) = [[AwaitStat (filename (this st))]] ->
  stat_passes (fst a) ->
  exists size,
    run path (failed_attempt a) st =
    mkState (set_fileSize size (this st))
      (set_settled (settled (env st) ++ [(OpOpen, None)]) (env st)).
Proof.
  intros Hf Hs Hc Htm Hto Ht Hstat. destruct a as [sf e]. open_state st.
  unfold failed_attempt. simpl.
  destruct sf as [err |]; simpl in Hstat;
    unfold open_after_stat, io_stat, getFileSize_after_stat; simpl.
  - rewrite Hstat. simpl. unfold retry, timer_callback, call_open. simpl.
    rewrite Hf. simpl. eexists. reflexivity.
  - destruct (e_fs !! v_filename); simpl;
      unfold retry, timer_callback, call_open; simpl; rewrite Hf; simpl;
      eexists; reflexivity.
Qed.

Lemma failed_attempts_loop (path : PathModule) (attempts : list (option Error * Error))
    (st : State) :
  truthy_string (filename (this st)) = true ->
  stream (this st) = None -> closed (this st) = true ->
  timer (this st) = None -> timeouts (env st) = [] ->
  tasks (env st) = [[AwaitStat (filename (this st))]] ->
  Forall (fun a => stat_passes (fst a)) attempts ->
  exists size,
    run path (concat (map failed_attempt attempts)) st =
    mkState (set_fileSize size (this st))
      (set_settled (settled (env st) ++ repeat (OpOpen, None) (length attempts)) (env st)).
Proof.
  revert st. induction attempts as [| a attempts IH]; intros st Hf Hs Hc Htm Hto Ht Hall.
  - exists (fileSize (this st)). simpl. rewrite app_nil_r. by open_state st.
  - apply Forall_cons in Hall as [Ha Hall].
    destruct (failed_attempt_loops path st a Hf Hs Hc Htm Hto Ht Ha) as [size1 H1].
    cbn [map concat]. rewrite run_app, H1.
    destruct (IH (mkState (set_fileSize size1 (this st))
                    (set_settled (settled (env st) ++ [(OpOpen, None)]) (env st))))
      as [size2 H2]; try exact Hall; try (by open_state st).
    exists size2. rewrite H2. open_state st. by rewrite <- app_assoc.
Qed.

(** X1. A constructed writer whose owner calls open() once becomes active
    by itself once the sink can be opened: after any number of attempts
    that fail to open the stream, each followed by the firing of the retry
    timer, the attempt that succeeds leaves the writer open on a fresh
    writable stream over the (emptied) target file, with no retry pending
    and no call in flight. Every attempt resolved normally, nothing was
    raised, and the owner made no second call. *)
Theorem open_retries_until_success (path : PathModule) (st : State)
    (attempts : list (option Error * Error)) (last_stat : option Error) :
  never_opened st ->
  Forall (fun a => stat_passes (fst a)) attempts -> stat_passes last_stat ->
  let st' := run path (retried_open attempts last_stat) st in
  stream (this st') = Some (length (streams (env st))) /\
  closed (this st') = false /\
  writable_path (env st') (length (streams (env st))) = Some (filename (this st)) /\
  timer (this st') = None /\ timeouts (env st') = [] /\ tasks (env st') = [] /\
  settled (env st') =
    settled (env st) ++ repeat (OpOpen, None) (S (length attempts)) /\
  returned (env st') = returned (env st) /\
  fs (env st') = <[filename (this st) := EmptyString]> (fs (env st)).
Proof.
  intros (Hf & Hs & Hc & Hcl & Hr & Hq & Htm & Hto & Ht) Hall Hlast st'.
  subst st'. unfold retried_open.
  change (CallOpen :: ?l) with ([CallOpen] ++ l).
  rewrite !run_app.
  set (st1 := run path [CallOpen] st).
  assert (H1 : st1 = suspend [AwaitStat (filename (this st))] st).
  { subst st1. simpl. unfold call_open. by rewrite Hf, Hs, Hc. }
  destruct (failed_attempts_loop path attempts st1) as [size H2];
    try exact Hall; try (rewrite H1; by open_state st).
  rewrite H2, H1. clear H1 H2 st1. open_state st.
  assert (Hrep : forall n, repeat (OpOpen, @None Error) n ++ [(OpOpen, None)]
                           = (OpOpen, None) :: repeat (OpOpen, None) n).
  { induction n as [| n IHn]; simpl; [reflexivity | by rewrite IHn]. }
  destruct last_stat as [err |]; simpl in Hlast; simpl;
    unfold open_after_stat, io_stat, getFileSize_after_stat; simpl.
  - rewrite Hlast. simpl. rewrite list_lookup_middle by reflexivity. simpl.
    rewrite <- app_assoc, Hrep. done.
  - destruct (e_fs !! v_filename); simpl;
      rewrite list_lookup_middle by reflexivity; simpl;
      rewrite <- app_assoc, Hrep; done.
Qed.

(** *** A stream error and the recovery from it *)

(** Calls of writeTrace that are all refused leave everything as it was,
    but for the record of what they returned. *)
Lemma refused_writes (path : PathModule) (js : list Json) (st : State) :
  rotating (this st) = false ->
  stream (this st) = None \/ closing (this st) = true ->
  run path (map CallWriteTrace js) st =
  upd_env (fun e => set_returned (returned e ++ map (fun j => (j, false)) js) e) st.
Proof.
  revert st. induction js as [| j js IH]; intros st Hr H.
  - open_state st. by rewrite app_nil_r.
  - cbn [map run fold_left step]. rewrite (writeTrace_rejected path j st Hr H).
    fold (run path (map CallWriteTrace js)
            (upd_env (fun e => set_returned (returned e ++ [(j, false)]) e) st)).
    rewrite IH; [| by open_state st | by open_state st].
    open_state st. by rewrite <- app_assoc.
Qed.

(** The handler of stream errors on a writer that holds a stream and has no
    retry pending. *)
Lemma handleError_effect (err : Error) (st : State) (s : StreamRef) :
  stream (this st) = Some s -> timer (this st) = None ->
  handleError err st =
  upd_this (set_timer (Some 1000%nat))
    (upd_env (fun e => set_timeouts (timeouts e ++ [1000%nat]) e)
       (upd_this (set_stream None)
          (upd_this (set_closed true) (upd_env (stream_close s) st)))).
Proof. intros Hs Ht. open_state st. reflexivity. Qed.

(** The stream objects after one was closed and a new one created. *)
Lemma streams_after_reopen (l : list WriteStream) (s : StreamRef) (ws : WriteStream) :
  (s < length l)%nat ->
  length (alter unwritable s l) = length l /\
  (alter unwritable s l ++ [ws]) !! length l = Some ws /\
  (alter unwritable s l ++ [ws]) !! s = unwritable <$> l !! s.
Proof.
  intros Hlen. split; [apply length_alter |]. split.
  - rewrite <- (length_alter unwritable l s). apply list_lookup_middle. reflexivity.
  - rewrite lookup_app_l by (by rewrite length_alter). apply list_lookup_alter_eq.
Qed.

(** X2. A stream error on an open, idle writer closes it and schedules one
    retry: the writer is closed and without stream, exactly one timeout is
    pending, no call is in flight and every record submitted meanwhile is
    refused without a trace. When the timeout has fired and the stat and
    the stream succeed, the writer is open again, on a new writable stream
    over the target file; the stream that failed takes no more data, no
    retry is pending and no call is in flight. The reopening empties the
    target file: what was written before the error is gone. *)
Theorem stream_error_recovers (path : PathModule) (st : State) (s : StreamRef)
    (p : string) (err : Error) (stat_fault : option Error) (js : list Json) :
  stream (this st) = Some s -> writable_path (env st) s = Some p ->
  closed (this st) = false -> rotating (this st) = false ->
  closing (this st) = false -> tasks (env st) = [] ->
  timer (this st) = None -> timeouts (env st) = [] ->
  _bufferedEntries (this st) = [] ->
  truthy_string (filename (this st)) = true ->
  stat_passes stat_fault ->
  let failed := step path (SinkError err) st in
  let st' := run path [TimerFires; Complete 0 stat_fault; Complete 0 None] failed in
  closed (this failed) = true /\ stream (this failed) = None /\
  timeouts (env failed) = [1000%nat] /\ tasks (env failed) = [] /\
  run path (map CallWriteTrace js) failed =
    upd_env (fun e => set_returned (returned e ++ map (fun j => (j, false)) js) e) failed /\
  stream (this st') = Some (length (streams (env st))) /\
  closed (this st') = false /\
  writable_path (env st') (length (streams (env st))) = Some (filename (this st)) /\
  writable_path (env st') s = None /\
  timer (this st') = None /\ timeouts (env st') = [] /\ tasks (env st') = [] /\
  _bufferedEntries (this st') = [] /\
  settled (env st') = settled (env st) ++ [(OpOpen, None)] /\
  fs (env st') = <[filename (this st) := EmptyString]> (fs (env st)).
Proof.
  intros Hs Hw Hc Hr Hcl Ht Htm Hto Hq Hf Hstat. cbv zeta.
  cbn [step]. rewrite (handleError_effect err st s Hs Htm).
  split; [by open_state st |]. split; [by open_state st |].
  split; [by open_state st |]. split; [by open_state st |].
  split; [apply refused_writes; [by open_state st | left; by open_state st] |].
  open_state st.
  assert (Hlen : (s < length e_streams)%nat).
  { apply lookup_lt_is_Some. destruct (e_streams !! s) eqn:E; [eauto | discriminate]. }
  unfold timer_callback, call_open. simpl. rewrite Hf. simpl.
  unfold open_after_stat, io_stat, getFileSize_after_stat.
  destruct (streams_after_reopen e_streams s (mkStream v_filename FlagW true) Hlen)
    as (E1 & E2 & E3).
  destruct stat_fault as [e |]; simpl in Hstat; simpl.
  - rewrite Hstat. simpl. unfold StreamRef in *. rewrite E1, E2, E3.
    destruct (e_streams !! s); simpl; done.
  - destruct (e_fs !! v_filename); simpl; unfold StreamRef in *; rewrite E1, E2, E3;
      destruct (e_streams !! s); simpl; done.
Qed.

(** *** close() and the records submitted from then on *)

(** X3. From the call of close() on an open, idle writer, every record is
    refused, whether it comes while the stream ends, while it closes or
    after the promise of close() resolved. The closed file is the former
    content followed by the closing delimiter and nothing else; the stream
    took that one chunk. *)
Theorem close_refuses_later_records (path : PathModule) (st : State) (s : StreamRef)
    (p : string) (fault : option Error) (during_end during_close after : list Json) :
  stream (this st) = Some s -> writable_path (env st) s = Some p ->
  closed (this st) = false -> rotating (this st) = false ->
  tasks (env st) = [] ->
  let st' :=
    run path
      ([CallClose] ++ map CallWriteTrace during_end ++
       [Complete 0 fault] ++ map CallWriteTrace during_close ++
       [Complete 0 None] ++ map CallWriteTrace after) st in
  returned (env st') =
    returned (env st) ++
    map (fun j => (j, false)) (during_end ++ during_close ++ after) /\
  fs (env st') = <[p := file_content (env st) p +:+ "]}"]> (fs (env st)) /\
  sunk (env st') = sunk (env st) ++ ["]}"] /\
  stream (this st') = None /\ closed (this st') = true /\
  closing (this st') = false /\ tasks (env st') = [] /\
  settled (env st') = settled (env st) ++ [(OpClose, None)] /\
  _bufferedEntries (this st') = _bufferedEntries (this st).
Proof.
  intros Hs Hw Hc Hr Ht. cbv zeta. rewrite !run_app.
  open_state st. unfold call_close. simpl. unfold StreamRef in *. rewrite Hw. simpl.
  rewrite (refused_writes path during_end); [| reflexivity | right; reflexivity]. simpl.
  unfold close_after_end. simpl.
  rewrite (refused_writes path during_close); [| reflexivity | right; reflexivity]. simpl.
  unfold close_after_close. simpl.
  rewrite (refused_writes path after); [| reflexivity | left; reflexivity]. simpl.
  rewrite !map_app, <- !app_assoc. done.
Qed.

(** *** close() while a retry is pending *)

(** X7. close() does not cancel a pending retry. On a writer whose open
    failed and that waits for its retry, close() is rejected by its
    assertion and leaves the writer and the timeout as they were; when the
    timeout fires and the sink can be opened, the writer becomes open,
    after the owner asked for it to be closed. *)
Theorem close_keeps_pending_retry (path : PathModule) (st : State) (d : nat)
    (stat_fault : option Error) :
  truthy_string (filename (this st)) = true ->
  stream (this st) = None -> closed (this st) = true ->
  timer (this st) = Some d -> timeouts (env st) = [d] -> tasks (env st) = [] ->
  _bufferedEntries (this st) = [] ->
  stat_passes stat_fault ->
  let rejected := step path CallClose st in
  let st' := run path [TimerFires; Complete 0 stat_fault; Complete 0 None] rejected in
  settled (env rejected) = settled (env st) ++ [(OpClose, Some (AssertionError EmptyString))] /\
  this rejected = this st /\ timeouts (env rejected) = [d] /\
  stream (this st') = Some (length (streams (env st))) /\
  closed (this st') = false /\
  writable_path (env st') (length (streams (env st))) = Some (filename (this st)) /\
  timer (this st') = None /\ timeouts (env st') = [] /\ tasks (env st') = [] /\
  settled (env st') =
    settled (env st) ++ [(OpClose, Some (AssertionError EmptyString)); (OpOpen, None)].
Proof.
  intros Hf Hs Hc Htm Hto Ht Hq Hstat. cbv zeta.
  open_state st. unfold call_close. simpl.
  split; [reflexivity |]. split; [reflexivity |]. split; [reflexivity |].
  unfold timer_callback, call_open. simpl. rewrite Hf. simpl.
  unfold open_after_stat, io_stat, getFileSize_after_stat.
  assert (E : (e_streams ++ [mkStream v_filename FlagW true]) !! length e_streams =
              Some (mkStream v_filename FlagW true)) by (by apply list_lookup_middle).
  destruct stat_fault as [e |]; simpl in Hstat; simpl.
  - rewrite Hstat. simpl. unfold StreamRef in *. rewrite E, <- app_assoc. done.
  - destruct (e_fs !! v_filename); simpl; unfold StreamRef in *; rewrite E, <- app_assoc; done.
Qed.

(** *** Records without [length] and the rotation by size *)

Lemma unrotated_ext (R : list (string * string)) (n : N) (st st' : State) :
  rotating (this st') = rotating (this st) ->
  tasks (env st') = tasks (env st) ->
  _bufferedEntries (this st') = _bufferedEntries (this st) ->
  renames (env st') = renames (env st) -> id (this st') = id (this st) ->
  unrotated R n st -> unrotated R n st'.
Proof.
  unfold unrotated, no_rotation_under_way. intros -> -> -> -> ->. tauto.
Qed.

Lemma unrotated_suspend (R : list (string * string)) (n : N) (t : Task) (st st' : State) :
  own_call t ->
  rotating (this st') = rotating (this st) ->
  tasks (env st') = tasks (env st) ++ [t] ->
  _bufferedEntries (this st') = _bufferedEntries (this st) ->
  renames (env st') = renames (env st) -> id (this st') = id (this st) ->
  unrotated R n st -> unrotated R n st'.
Proof.
  unfold unrotated, no_rotation_under_way. intros Ht -> -> -> -> -> (H & ? & ?).
  destruct H as (? & ? & ?). repeat split; auto.
  apply Forall_app. split; [assumption | by constructor].
Qed.

Lemma call_open_unrotated (path : PathModule) R n (st : State) :
  unrotated R n st -> unrotated R n (call_open path [] st).
Proof.
  intros H. unfold call_open.
  repeat (case_if; [eapply unrotated_ext; [| | | | | exact H]; by open_state st |]).
  eapply (unrotated_suspend R n [AwaitStat (filename (this st))]); [| | | | | | exact H];
    first [exact I | by open_state st].
Qed.

Lemma call_close_unrotated (path : PathModule) R n (st : State) :
  unrotated R n st -> unrotated R n (call_close path [] st).
Proof.
  intros H. unfold call_close.
  destruct (closed (this st)); [eapply unrotated_ext; [| | | | | exact H]; by open_state st |].
  destruct (stream (this st)) as [s |] eqn:Hs;
    [| eapply unrotated_ext; [| | | | | exact H]; by open_state st].
  eapply (unrotated_suspend R n [AwaitEnd s]); [| | | | | | exact H];
    first [exact I | by open_state st].
Qed.

Lemma writeTrace_unrotated (path : PathModule) R n (j : Json) (st : State) :
  json_length j = None ->
  unrotated R n st -> unrotated R n (snd (writeTrace path j st)).
Proof.
  intros Hj H. pose proof H as ((Hr & _) & _).
  destruct (stream (this st)) as [s |] eqn:Hs.
  - destruct (closing (this st)) eqn:Hc.
    + rewrite writeTrace_rejected; auto.
    + rewrite (writeTrace_direct path j st s Hr Hc Hs). cbn [snd].
      rewrite (size_after_record_without_length s j st Hj). simpl.
      eapply unrotated_ext; [| | | | | exact H];
        open_state st; unfold direct_write; simpl; by destruct v_firstEntry.
  - rewrite writeTrace_rejected; auto.
Qed.

Lemma drain_unrotated (path : PathModule) R n (fuel : nat) (st : State) :
  unrotated R n st -> unrotated R n (drain path fuel st).
Proof.
  revert st. induction fuel as [| fuel IH]; intros st H; [exact H |].
  cbn [drain]. destruct (_bufferedEntries (this st)) as [| msg rest] eqn:Hq; [exact H |].
  destruct (rotating (this st)) eqn:Hr; [exact H |].
  assert (Hmsg : json_length msg = None /\
                 Forall (fun j => json_length j = None) rest).
  { destruct H as ((_ & _ & Hall) & _). rewrite Hq in Hall.
    apply Forall_cons in Hall. exact Hall. }
  destruct Hmsg as [Hmsg Hrest].
  assert (H1 : unrotated R n (upd_this (set_bufferedEntries rest) st)).
  { destruct H as ((? & ? & ?) & ? & ?). open_state st. by repeat split. }
  pose proof (writeTrace_unrotated path R n msg _ Hmsg H1) as H2.
  assert (H3 : _bufferedEntries (this (snd (writeTrace path msg
                   (upd_this (set_bufferedEntries rest) st)))) = rest).
  { rewrite writeTrace_queue_kept; by open_state st. }
  destruct (writeTrace path msg _) as [[] st2]; cbn [snd fst] in H2, H3.
  - by apply IH.
  - destruct H2 as ((? & ? & ?) & ? & ?). open_state st2. repeat split; auto.
    simpl. by constructor.
Qed.

Lemma resume_unrotated (path : PathModule) R n (t : Task) (fault : option Error) (st : State) :
  own_call t -> unrotated R n st -> unrotated R n (resume path t fault st).
Proof.
  intros Ht H.
  destruct t as [| fr [| fr' k]]; try (by destruct fr); [by destruct Ht |].
  destruct fr as [p | p fl | s | s | a b | |]; try (by destruct Ht); cbn [resume].
  - unfold open_after_stat. destruct (getFileSize_after_stat _).
    + eapply unrotated_ext; [| | | | | exact H]; by open_state st.
    + eapply (unrotated_suspend R n [AwaitOpenStream (filename (this st)) FlagW]);
        [| | | | | | exact H]; first [exact I | by open_state st].
  - unfold io_openStream. destruct fault as [err |]; unfold open_after_openStream.
    + eapply unrotated_ext; [| | | | | exact H];
        unfold retry; simpl; destruct (timer (this st)); by open_state st.
    + cbn [finish]. eapply unrotated_ext; [| | | | |
        apply (drain_unrotated path R n); eapply unrotated_ext; [| | | | | exact H]];
        try reflexivity; try (by open_state st);
        match goal with |- context [drain ?p ?f ?x] =>
          destruct (drain p f x) as [[] []]; reflexivity end.
  - unfold close_after_end. destruct (stream (this st)).
    + eapply (unrotated_suspend R n [AwaitClose s0]); [| | | | | | exact H];
        first [exact I | by open_state st].
    + eapply unrotated_ext; [| | | | | exact H]; by open_state st.
  - unfold close_after_close. destruct fault;
      (eapply unrotated_ext; [| | | | | exact H]); by open_state st.
Qed.

Lemma unrotated_delete R n (i : nat) (st : State) :
  unrotated R n st ->
  unrotated R n (upd_env (fun e => set_tasks (delete i (tasks e)) e) st).
Proof.
  intros ((? & Ht & ?) & ? & ?). open_state st. repeat split; auto.
  by apply Forall_delete.
Qed.

Lemma step_unrotated (path : PathModule) R n (ev : Event) (st : State) :
  no_rotation_asked ev -> unrotated R n st -> unrotated R n (step path ev st).
Proof.
  intros Hev H. destruct ev; cbn [step]; simpl in Hev.
  - by apply call_open_unrotated.
  - by apply call_close_unrotated.
  - destruct Hev.
  - pose proof (writeTrace_unrotated path R n json st Hev H) as H1.
    destruct (writeTrace path json st) as [r st1]. cbn [snd] in H1.
    eapply unrotated_ext; [| | | | | exact H1]; by open_state st1.
  - destruct (tasks (env st) !! i) as [t |] eqn:Hi; [| exact H].
    apply resume_unrotated; [| by apply unrotated_delete].
    destruct H as ((_ & Ht & _) & _). rewrite Forall_lookup in Ht. by apply (Ht i).
  - destruct (timeouts (env st)) as [| d rest]; [exact H |].
    unfold timer_callback. apply call_open_unrotated.
    eapply unrotated_ext; [| | | | | exact H]; by open_state st.
  - unfold handleError, retry.
    eapply unrotated_ext; [| | | | | exact H];
      open_state st; destruct v_stream; simpl; destruct v_timer; simpl; done.
Qed.

(** X4. Records without a [length] property never make the writer rotate.
    Along every run in which the owner does not call rotate() and submits
    only such records, whatever else happens (open, close, completions,
    retries, stream errors), starting where no rotation is under way: no
    file is renamed, the sequence id keeps its value and the writer never
    enters the rotating state, however small the size limit is. *)
Theorem records_without_length_never_rotate (path : PathModule) (evs : list Event)
    (st : State) :
  no_rotation_under_way st -> Forall no_rotation_asked evs ->
  renames (env (run path evs st)) = renames (env st) /\
  id (this (run path evs st)) = id (this st) /\
  no_rotation_under_way (run path evs st).
Proof.
  intros H Hevs.
  assert (Hrun : unrotated (renames (env st)) (id (this st)) (run path evs st)).
  { assert (H0 : unrotated (renames (env st)) (id (this st)) st) by (by split).
    revert H0. generalize (renames (env st)) (id (this st)). clear H.
    revert st. induction Hevs as [| ev evs Hev _ IH]; intros st R n H0; [exact H0 |].
    simpl. apply IH. by apply step_unrotated. }
  destruct Hrun as (? & ? & ?). auto.
Qed.

(** *** The records submitted during a rotation *)

(** Calls of writeTrace during a rotation queue their records. *)
Lemma buffered_writes (path : PathModule) (js : list Json) (st : State) :
  rotating (this st) = true ->
  run path (map CallWriteTrace js) st =
  upd_env (fun e => set_returned (returned e ++ map (fun j => (j, true)) js) e)
    (upd_this (fun w => set_bufferedEntries (_bufferedEntries w ++ js) w) st).
Proof.
  revert st. induction js as [| j js IH]; intros st Hr.
  - open_state st. by rewrite !app_nil_r.
  - cbn [map run fold_left step]. rewrite (writeTrace_rotating path j st Hr).
    fold (run path (map CallWriteTrace js)
            (upd_env (fun e => set_returned (returned e ++ [(j, true)]) e)
               (upd_this (fun w => set_bufferedEntries (_bufferedEntries w ++ [j]) w) st))).
    rewrite IH by (by open_state st).
    open_state st. by rewrite <- !app_assoc.
Qed.

(** One record without [length] on the immediate-write path. *)
Lemma direct_write_plain (s : StreamRef) (j : Json) (st : State) (p : string) :
  json_length j = None -> writable_path (env st) s = Some p ->
  direct_write s j st =
  mkState
    (set_fileSize NaN (set_firstEntry false (this st)))
    (set_sunk (sunk (env st) ++ record_chunks (firstEntry (this st)) j)
       (set_fs (<[p := file_content (env st) p +:+ entries (firstEntry (this st)) [j]]>
                  (fs (env st))) (env st))).
Proof.
  intros Hj Hw. open_state st. unfold direct_write. simpl. rewrite Hj.
  destruct v_firstEntry; simpl; rewrite ?Hw; simpl; rewrite ?Hw; simpl.
  - unfold file_content. simpl. rewrite lookup_insert_eq. simpl.
    rewrite insert_insert_eq, <- !app_assoc, string_app_empty, !string_app_assoc.
    by destruct v_fileSize.
  - rewrite string_app_empty. by destruct v_fileSize.
Qed.

(** The loop of open() on a queue of records without [length]: all of them
    are written, in order, and nothing else changes. *)
Lemma drain_plain (path : PathModule) (q : list Json) :
  forall (fuel : nat) (st : State) (s : StreamRef) (p : string),
    (length q <= fuel)%nat -> _bufferedEntries (this st) = q ->
    Forall (fun j => json_length j = None) q ->
    rotating (this st) = false -> closing (this st) = false ->
    stream (this st) = Some s -> writable_path (env st) s = Some p ->
    is_Some (fs (env st) !! p) ->
    let st' := drain path fuel st in
    _bufferedEntries (this st') = [] /\
    fs (env st') =
      <[p := file_content (env st) p +:+ entries (firstEntry (this st)) q]> (fs (env st)) /\
    stream (this st') = Some s /\ closed (this st') = closed (this st) /\
    rotating (this st') = false /\ closing (this st') = false /\
    id (this st') = id (this st) /\
    filename (this st') = filename (this st) /\
    timer (this st') = timer (this st) /\
    streams (env st') = streams (env st) /\
    tasks (env st') = tasks (env st) /\ settled (env st') = settled (env st) /\
    returned (env st') = returned (env st) /\ renames (env st') = renames (env st) /\
    timeouts (env st') = timeouts (env st).
Proof.
  induction q as [| j q IH]; intros fuel st s p Hlen Hq Hall Hr Hc Hs Hw [c Hfile]; cbv zeta.
  - assert (drain path fuel st = st) as -> by (destruct fuel; simpl; by rewrite ?Hq).
    repeat split; auto. unfold file_content. rewrite Hfile. simpl.
    by rewrite string_app_empty, insert_id.
  - destruct fuel as [| fuel]; [simpl in Hlen; lia |].
    apply Forall_cons in Hall. destruct Hall as [Hj Hall].
    cbn [drain]. rewrite Hq, Hr.
    set (st1 := upd_this (set_bufferedEntries q) st).
    assert (Hw1 : writable_path (env st1) s = Some p) by (subst st1; by open_state st).
    rewrite (writeTrace_direct path j st1 s); [| subst st1; by open_state st ..].
    rewrite (direct_write_plain s j st1 p Hj Hw1). simpl.
    match goal with |- context [drain path fuel ?x] => set (st2 := x) end.
    destruct (IH fuel st2 s p) as (I1 & I2 & I3 & I4 & I5 & I6 & I7 & I8 & I9 & I10 & I11 & I12 & I13 & I14 & I15).
    + simpl in Hlen. lia.
    + subst st2 st1. by open_state st.
    + exact Hall.
    + subst st2 st1. by open_state st.
    + subst st2 st1. by open_state st.
    + subst st2 st1. by open_state st.
    + subst st2 st1. open_state st. exact Hw.
    + subst st2 st1. open_state st. rewrite lookup_insert_eq. eauto.
    + rewrite I1, I2, I3, I4, I5, I6, I7, I8, I9, I10, I11, I12, I13, I14, I15.
      subst st2 st1. open_state st. repeat split; auto.
      unfold file_content. simpl. rewrite lookup_insert_eq, insert_insert_eq. simpl.
      rewrite Hfile. simpl. by rewrite string_app_empty, string_app_assoc.
Qed.

(** open() goes on to open the stream when the stat answered or found no
    file. *)
Lemma open_after_stat_passes (path : PathModule) (p : string) (fault : option Error)
    (e : Env) (k : Task) (st : State) :
  stat_passes fault ->
  exists size,
    open_after_stat path (io_stat p fault e) k st =
    suspend (AwaitOpenStream (filename (this st)) FlagW :: k)
      (upd_this (set_fileSize size) st).
Proof.
  intros Hstat. unfold open_after_stat, io_stat.
  destruct fault as [err |]; simpl in Hstat; simpl.
  - rewrite Hstat. eauto.
  - destruct (fs e !! p); simpl; eauto.
Qed.

(** X5. What becomes of the records submitted while a rotation asked by
    the owner is under way, for records without [length]. Those submitted
    while the stream ends, while it closes and while the file is renamed
    are accepted and queued; those submitted after the rename, while the
    new file is being opened, are refused. When the rotation is over the
    rotated file holds the former content and the closing delimiter, and
    the new active file holds exactly the accepted records, in the order of
    submission; nothing stays queued and the sequence id went up by one. *)
Theorem rotation_keeps_early_drops_late (path : PathModule) (st : State) (s : StreamRef)
    (during_end during_close during_rename during_stat during_open : list Json)
    (stat_fault : option Error) :
  stream (this st) = Some s ->
  writable_path (env st) s = Some (filename (this st)) ->
  closed (this st) = false -> rotating (this st) = false ->
  tasks (env st) = [] -> _bufferedEntries (this st) = [] ->
  truthy_string (filename (this st)) = true ->
  Forall (fun j => json_length j = None) (during_end ++ during_close ++ during_rename) ->
  stat_passes stat_fault ->
  let st' :=
    run path (rotation_with_writes during_end during_close during_rename
                during_stat during_open stat_fault) st in
  let kept := during_end ++ during_close ++ during_rename in
  let old := rotated_name path (filename (this st)) (id (this st)) in
  returned (env st') =
    returned (env st) ++ map (fun j => (j, true)) kept ++
    map (fun j => (j, false)) (during_stat ++ during_open) /\
  fs (env st') =
    <[filename (this st) := entries (firstEntry (this st)) kept]>
      (<[old := file_content (env st) (filename (this st)) +:+ "]}"]>
         (delete (filename (this st)) (fs (env st)))) /\
  renames (env st') = renames (env st) ++ [(filename (this st), old)] /\
  _bufferedEntries (this st') = [] /\
  stream (this st') = Some (length (streams (env st))) /\
  closed (this st') = false /\ rotating (this st') = false /\
  id (this st') = (id (this st) + 1)%N /\
  tasks (env st') = [] /\
  settled (env st') = settled (env st) ++ [(OpRotate, None)].
Proof.
  intros Hs Hw Hc Hr Ht Hq Hf Hall Hstat. cbv zeta.
  unfold rotation_with_writes. rewrite !run_app.
  open_state st. unfold call_rotate, call_close. simpl. rewrite Hf. simpl.
  unfold StreamRef in *. rewrite Hw. simpl.
  rewrite (buffered_writes path during_end); [| reflexivity]. simpl.
  unfold close_after_end. simpl.
  rewrite (buffered_writes path during_close); [| reflexivity]. simpl.
  unfold close_after_close. simpl. unfold rotate_after_close. simpl.
  rewrite (buffered_writes path during_rename); [| reflexivity]. simpl.
  unfold io_rename. simpl. rewrite lookup_insert_eq. simpl.
  unfold rotate_after_rename, call_open. simpl. rewrite Hf. simpl.
  rewrite (refused_writes path during_stat); [| reflexivity | left; reflexivity]. simpl.
  unfold file_content. simpl. rewrite delete_insert_eq.
  set (old := join path _ _).
  set (fs2 := <[old := _]> _).
  match goal with |- context [open_after_stat path (io_stat ?p ?f ?e) ?k ?x] =>
    destruct (open_after_stat_passes path p f e k x Hstat) as [size ->]
  end. simpl.
  rewrite (refused_writes path during_open); [| reflexivity | left; reflexivity]. simpl.
  rewrite !length_alter.
  match goal with |- context [drain path ?f ?x] =>
    destruct (drain_plain path ((during_end ++ during_close) ++ during_rename) f x
                (length e_streams) v_filename)
      as (I1 & I2 & I3 & I4 & I5 & I6 & I7 & I8 & I9 & I10 & I11 & I12 & I13 & I14 & I15);
    [ reflexivity | reflexivity | by rewrite <- app_assoc | reflexivity | reflexivity
    | reflexivity | | | ];
    [ .. | destruct (drain path f x) as [[] []] ]
  end.
  - simpl.
    pose proof (list_lookup_middle (alter unwritable s (alter unwritable s e_streams)) []
                  (mkStream v_filename FlagW true) _ eq_refl) as E.
    rewrite !length_alter in E. unfold StreamRef in *. by rewrite E.
  - simpl. rewrite lookup_insert_eq. eauto.
  - simpl in *. subst. unfold file_content. simpl.
    rewrite lookup_insert_eq, insert_insert_eq. simpl.
    rewrite !map_app, <- !app_assoc. done.
Qed.

(** *** open() called again before it completed *)

(** Two calls of open() on a writer that was never opened, the second
    before the first completed, with all their requests served. *)
Lemma two_opens_effect (path : PathModule) (st : State) (stat1 stat2 : option Error) :
  never_opened st -> stat_passes stat1 -> stat_passes stat2 ->
  exists size,
    run path [CallOpen; CallOpen; Complete 0 stat1; Complete 0 stat2;
              Complete 0 None; Complete 0 None] st =
    mkState
      (set_closed false
         (set_stream (Some (S (length (streams (env st)))))
            (set_fileSize size (this st))))
      (set_settled (settled (env st) ++ [(OpOpen, None); (OpOpen, None)])
         (set_streams
            (streams (env st) ++
             [mkStream (filename (this st)) FlagW true;
              mkStream (filename (this st)) FlagW true])
            (set_fs (<[filename (this st) := EmptyString]> (fs (env st))) (env st)))).
Proof.
  intros (Hf & Hs & Hc & Hcl & Hr & Hq & Htm & Hto & Ht) H1 H2.
  change [CallOpen; CallOpen; Complete 0 stat1; Complete 0 stat2;
          Complete 0 None; Complete 0 None]
    with ([CallOpen; CallOpen] ++ [Complete 0 stat1] ++ [Complete 0 stat2] ++
          [Complete 0 None; Complete 0 None]).
  rewrite !run_app.
  assert (E1 : run path [CallOpen; CallOpen] st =
               upd_env (fun e => set_tasks [[AwaitStat (filename (this st))];
                                            [AwaitStat (filename (this st))]] e) st).
  { open_state st. unfold call_open. simpl. rewrite Hf. simpl. rewrite ?Hf. reflexivity. }
  rewrite E1. clear E1.
  assert (E2 : exists size1,
             run path [Complete 0 stat1]
               (upd_env (fun e => set_tasks [[AwaitStat (filename (this st))];
                                             [AwaitStat (filename (this st))]] e) st) =
             upd_this (set_fileSize size1)
               (upd_env (fun e => set_tasks [[AwaitStat (filename (this st))];
                                             [AwaitOpenStream (filename (this st)) FlagW]] e) st)).
  { open_state st.
    match goal with |- context [open_after_stat path (io_stat ?p ?f ?e) ?k ?x] =>
      destruct (open_after_stat_passes path p f e k x H1) as [size1 ->]
    end. by exists size1. }
  destruct E2 as [size1 ->].
  assert (E3 : exists size2,
             run path [Complete 0 stat2]
               (upd_this (set_fileSize size1)
                  (upd_env (fun e => set_tasks [[AwaitStat (filename (this st))];
                                                [AwaitOpenStream (filename (this st)) FlagW]] e) st)) =
             upd_this (set_fileSize size2)
               (upd_env (fun e => set_tasks [[AwaitOpenStream (filename (this st)) FlagW];
                                             [AwaitOpenStream (filename (this st)) FlagW]] e) st)).
  { open_state st.
    match goal with |- context [open_after_stat path (io_stat ?p ?f ?e) ?k ?x] =>
      destruct (open_after_stat_passes path p f e k x H2) as [size2 ->]
    end. by exists size2. }
  destruct E3 as [size2 ->].
  exists size2. open_state st. cbn.
  rewrite insert_insert_eq, length_app, <- !app_assoc. simpl.
  by rewrite Nat.add_1_r.
Qed.

(** X8. open() is not guarded against a second call made before the first
    one completed: both calls pass the assertions, both create a stream on
    the target file and both resolve. The writer keeps the second stream;
    the first one is referenced by nothing and still takes data, also
    after close() has closed the writer. *)
Theorem second_open_leaks_first_stream (path : PathModule) (st : State)
    (stat1 stat2 : option Error) :
  never_opened st -> stat_passes stat1 -> stat_passes stat2 ->
  let first := length (streams (env st)) in
  let st' :=
    run path [CallOpen; CallOpen; Complete 0 stat1; Complete 0 stat2;
              Complete 0 None; Complete 0 None] st in
  let st'' := run path [CallClose; Complete 0 None; Complete 0 None] st' in
  streams (env st') =
    streams (env st) ++
    [mkStream (filename (this st)) FlagW true; mkStream (filename (this st)) FlagW true] /\
  stream (this st') = Some (S first) /\
  settled (env st') = settled (env st) ++ [(OpOpen, None); (OpOpen, None)] /\
  tasks (env st') = [] /\
  stream (this st'') = None /\ closed (this st'') = true /\
  settled (env st'') = settled (env st') ++ [(OpClose, None)] /\
  writable_path (env st'') first = Some (filename (this st)) /\
  writable_path (env st'') (S first) = None.
Proof.
  intros Hnew H1 H2. cbv zeta.
  destruct (two_opens_effect path st stat1 stat2 Hnew H1 H2) as [size ->].
  destruct Hnew as (Hf & Hs & Hc & Hcl & Hr & Hq & Htm & Hto & Ht).
  open_state st.
  do 4 (split; [reflexivity |]).
  unfold call_close. simpl. unfold close_after_end, close_after_close. simpl.
  do 3 (split; [reflexivity |]).
  unfold StreamRef in *.
  assert (E : forall (l : list WriteStream) (a b : WriteStream),
             (alter unwritable (S (length l)) (alter unwritable (S (length l)) (l ++ [a; b])))
             = l ++ [a; unwritable b]).
  { intros l a b. induction l as [| x l IH]; [reflexivity |].
    simpl. f_equal. exact IH. }
  rewrite E.
  assert (L : forall (l : list WriteStream) (a b : WriteStream),
             (l ++ [a; b]) !! length l = Some a /\
             (l ++ [a; b]) !! S (length l) = Some b).
  { intros l a b. induction l as [| x l IH]; [by split | exact IH]. }
  destruct (L e_streams (mkStream v_filename FlagW true)
              (unwritable (mkStream v_filename FlagW true))) as [-> ->].
  done.
Qed.

(** *** maxFiles *)

Lemma finish_maxFiles (path : PathModule) (m : Number) (op : Op) (r : option Error)
    (k : Task) (st : State) :
  finish path op r k (upd_this (set_maxFiles m) st) =
  upd_this (set_maxFiles m) (finish path op r k st).
Proof.
  revert op r. induction k as [| fr k IH]; intros op r; [by open_state st |].
  destruct fr; cbn [finish];
    first [ apply IH | destruct r; [apply IH | by open_state st] | by open_state st ].
Qed.

Lemma call_close_maxFiles (path : PathModule) (m : Number) (k : Task) (st : State) :
  call_close path k (upd_this (set_maxFiles m) st) =
  upd_this (set_maxFiles m) (call_close path k st).
Proof.
  unfold call_close.
  assert (closed (this (upd_this (set_maxFiles m) st)) = closed (this st)) as ->
    by (by open_state st).
  assert (stream (this (upd_this (set_maxFiles m) st)) = stream (this st)) as ->
    by (by open_state st).
  destruct (closed (this st)); [apply finish_maxFiles |].
  destruct (stream (this st)); [by open_state st | apply finish_maxFiles].
Qed.

Lemma call_rotate_maxFiles (path : PathModule) (m : Number) (k : Task) (st : State) :
  call_rotate path k (upd_this (set_maxFiles m) st) =
  upd_this (set_maxFiles m) (call_rotate path k st).
Proof.
  unfold call_rotate.
  assert (rotating (this (upd_this (set_maxFiles m) st)) = rotating (this st)) as ->
    by (by open_state st).
  assert (closed (this (upd_this (set_maxFiles m) st)) = closed (this st)) as ->
    by (by open_state st).
  assert (stream (this (upd_this (set_maxFiles m) st)) = stream (this st)) as ->
    by (by open_state st).
  destruct (rotating (this st)); [apply finish_maxFiles |].
  destruct (_ || _); [apply finish_maxFiles |].
  assert (upd_this (set_rotating true) (upd_this (set_maxFiles m) st) =
          upd_this (set_maxFiles m) (upd_this (set_rotating true) st)) as ->
    by (by open_state st).
  assert (filename (this (upd_this (set_maxFiles m) (upd_this (set_rotating true) st))) =
          filename (this (upd_this (set_rotating true) st))) as ->
    by (by open_state st).
  destruct (negb _); [apply finish_maxFiles | apply call_close_maxFiles].
Qed.

Lemma writeTrace_maxFiles (path : PathModule) (m : Number) (j : Json) (st : State) :
  writeTrace path j (upd_this (set_maxFiles m) st) =
  (fst (writeTrace path j st), upd_this (set_maxFiles m) (snd (writeTrace path j st))).
Proof.
  assert (Hr' : rotating (this (upd_this (set_maxFiles m) st)) = rotating (this st))
    by (by open_state st).
  assert (Hc' : closing (this (upd_this (set_maxFiles m) st)) = closing (this st))
    by (by open_state st).
  assert (Hs' : stream (this (upd_this (set_maxFiles m) st)) = stream (this st))
    by (by open_state st).
  destruct (rotating (this st)) eqn:Hr.
  - rewrite !writeTrace_rotating by congruence. by open_state st.
  - destruct (stream (this st)) as [s |] eqn:Hs.
    + destruct (closing (this st)) eqn:Hc.
      * rewrite !writeTrace_rejected; auto; rewrite ?Hr', ?Hc'; auto.
      * rewrite (writeTrace_direct path j st s Hr Hc Hs).
        rewrite (writeTrace_direct path j _ s); [| congruence ..].
        assert (Hd : direct_write s j (upd_this (set_maxFiles m) st) =
                     upd_this (set_maxFiles m) (direct_write s j st)).
        { open_state st. unfold direct_write. simpl. by destruct v_firstEntry. }
        rewrite Hd.
        assert (fileSize (this (upd_this (set_maxFiles m) (direct_write s j st))) =
                fileSize (this (direct_write s j st))) as ->
          by (by destruct (direct_write s j st) as [[] ?]).
        assert (maxFileSize (this (upd_this (set_maxFiles m) (direct_write s j st))) =
                maxFileSize (this (direct_write s j st))) as ->
          by (by destruct (direct_write s j st) as [[] ?]).
        cbn [fst snd]. destruct (num_ge _ _); [| reflexivity].
        by rewrite call_rotate_maxFiles.
    + rewrite !writeTrace_rejected; auto; rewrite ?Hr', ?Hs'; auto.
Qed.

Lemma drain_maxFiles (path : PathModule) (m : Number) (fuel : nat) (st : State) :
  drain path fuel (upd_this (set_maxFiles m) st) =
  upd_this (set_maxFiles m) (drain path fuel st).
Proof.
  revert st. induction fuel as [| fuel IH]; intros st; [reflexivity |].
  cbn [drain].
  assert (_bufferedEntries (this (upd_this (set_maxFiles m) st)) =
          _bufferedEntries (this st)) as -> by (by open_state st).
  assert (rotating (this (upd_this (set_maxFiles m) st)) = rotating (this st)) as ->
    by (by open_state st).
  destruct (_bufferedEntries (this st)) as [| msg rest]; [reflexivity |].
  destruct (rotating (this st)); [reflexivity |].
  assert (upd_this (set_bufferedEntries rest) (upd_this (set_maxFiles m) st) =
          upd_this (set_maxFiles m) (upd_this (set_bufferedEntries rest) st)) as ->
    by (by open_state st).
  rewrite writeTrace_maxFiles.
  destruct (writeTrace path msg (upd_this (set_bufferedEntries rest) st)) as [[] st2];
    cbn [fst snd]; [apply IH | by open_state st2].
Qed.

Lemma call_open_maxFiles (path : PathModule) (m : Number) (k : Task) (st : State) :
  call_open path k (upd_this (set_maxFiles m) st) =
  upd_this (set_maxFiles m) (call_open path k st).
Proof.
  unfold call_open.
  assert (filename (this (upd_this (set_maxFiles m) st)) = filename (this st)) as ->
    by (by open_state st).
  assert (closed (this (upd_this (set_maxFiles m) st)) = closed (this st)) as ->
    by (by open_state st).
  assert (stream (this (upd_this (set_maxFiles m) st)) = stream (this st)) as ->
    by (by open_state st).
  repeat (case_if; [apply finish_maxFiles |]).
  by open_state st.
Qed.

Lemma retry_maxFiles (m : Number) (st : State) :
  retry (upd_this (set_maxFiles m) st) = upd_this (set_maxFiles m) (retry st).
Proof. unfold retry. open_state st. by destruct v_timer. Qed.

Lemma resume_maxFiles (path : PathModule) (m : Number) (t : Task) (fault : option Error)
    (st : State) :
  resume path t fault (upd_this (set_maxFiles m) st) =
  upd_this (set_maxFiles m) (resume path t fault st).
Proof.
  assert (He : env (upd_this (set_maxFiles m) st) = env st) by (by open_state st).
  destruct t as [| fr k]; [reflexivity |].
  destruct fr as [p | p fl | s | s | a b | |]; cbn [resume]; try reflexivity.
  - rewrite He. unfold open_after_stat. destruct (getFileSize_after_stat _).
    + apply finish_maxFiles.
    + by open_state st.
  - rewrite He. destruct (io_openStream p fl fault (env st)) as [[err | s] e];
      unfold open_after_openStream.
    + rewrite <- finish_maxFiles, <- retry_maxFiles; do 2 f_equal; try (by open_state st).
    + rewrite <- finish_maxFiles, <- drain_maxFiles; do 2 f_equal; try (by open_state st).
  - unfold close_after_end.
    assert (stream (this (upd_this (set_maxFiles m) st)) = stream (this st)) as ->
      by (by open_state st).
    destruct (stream (this st)); [by open_state st |].
    rewrite <- finish_maxFiles; f_equal; try (by open_state st).
  - unfold close_after_close. destruct fault;
      rewrite <- finish_maxFiles; f_equal; try (by open_state st).
  - rewrite He. destruct (io_rename a b fault (env st)) as [[err |] e];
      unfold rotate_after_rename.
    + rewrite <- finish_maxFiles; f_equal; try (by open_state st).
    + rewrite <- call_open_maxFiles; f_equal; try (by open_state st).
Qed.

Lemma step_maxFiles (path : PathModule) (m : Number) (ev : Event) (st : State) :
  step path ev (upd_this (set_maxFiles m) st) =
  upd_this (set_maxFiles m) (step path ev st).
Proof.
  destruct ev; cbn [step].
  - apply call_open_maxFiles.
  - apply call_close_maxFiles.
  - apply call_rotate_maxFiles.
  - rewrite writeTrace_maxFiles.
    destruct (writeTrace path json st) as [r st1]. cbn [fst snd]. by open_state st1.
  - assert (tasks (env (upd_this (set_maxFiles m) st)) = tasks (env st)) as ->
      by (by open_state st).
    destruct (tasks (env st) !! i) as [t |]; [| reflexivity].
    rewrite <- resume_maxFiles; f_equal; try (by open_state st).
  - assert (timeouts (env (upd_this (set_maxFiles m) st)) = timeouts (env st)) as ->
      by (by open_state st).
    destruct (timeouts (env st)) as [| d rest]; [reflexivity |].
    unfold timer_callback. rewrite <- call_open_maxFiles; f_equal; try (by open_state st).
  - unfold handleError, retry. open_state st.
    destruct v_stream; simpl; destruct v_timer; reflexivity.
Qed.

(** X9. maxFiles is validated and stored, and never read: along every run
    a writer behaves the same whatever its maxFiles is. The runs of two
    writers that differ in maxFiles alone differ in maxFiles alone: same
    files, same renames, same data handed to the streams, same answers.
    In particular no rotated file is ever removed for the sake of the
    limit. *)
Theorem maxFiles_is_never_used (path : PathModule) (m : Number) (evs : list Event)
    (st : State) :
  run path evs (upd_this (set_maxFiles m) st) =
  upd_this (set_maxFiles m) (run path evs st).
Proof.
  revert st. induction evs as [| ev evs IH]; intros st; [reflexivity |].
  cbn [run fold_left]. fold (run path evs (step path ev (upd_this (set_maxFiles m) st))).
  fold (run path evs (step path ev st)).
  rewrite step_maxFiles. apply IH.
Qed.

(** *** The further properties at concrete inputs *)

Lemma open_retries_until_success_witness :
  let attempts :=
    [(None, SystemError "EACCES"); (Some (SystemError "ENOENT"), SystemError "EMFILE")] in
  never_opened closed_small /\
  Forall (fun a => stat_passes (fst a)) attempts /\ stat_passes None /\
  closed (this (run flat_path (retried_open attempts None) closed_small)) = false.
Proof.
  intros attempts.
  assert (H1 : never_opened closed_small) by (repeat split; vm_compute; reflexivity).
  assert (H2 : Forall (fun a => stat_passes (fst a)) attempts)
    by (repeat constructor).
  assert (H3 : stat_passes None) by exact I.
  split; [exact H1 |]. split; [exact H2 |]. split; [exact H3 |].
  exact (proj1 (proj2 (open_retries_until_success flat_path closed_small attempts None
                         H1 H2 H3))).
Defined.

Lemma stream_error_recovers_witness :
  stream (this written_small) = Some 0%nat /\
  writable_path (env written_small) 0%nat = Some "trace.json" /\
  closed (this written_small) = false /\ rotating (this written_small) = false /\
  closing (this written_small) = false /\ tasks (env written_small) = [] /\
  timer (this written_small) = None /\ timeouts (env written_small) = [] /\
  _bufferedEntries (this written_small) = [] /\
  truthy_string (filename (this written_small)) = true /\
  stat_passes None /\
  closed (this (step flat_path (SinkError (SystemError "EIO")) written_small)) = true.
Proof.
  assert (H1 : stream (this written_small) = Some 0%nat) by (vm_compute; reflexivity).
  assert (H2 : writable_path (env written_small) 0%nat = Some "trace.json")
    by (vm_compute; reflexivity).
  assert (H3 : closed (this written_small) = false) by (vm_compute; reflexivity).
  assert (H4 : rotating (this written_small) = false) by (vm_compute; reflexivity).
  assert (H5 : closing (this written_small) = false) by (vm_compute; reflexivity).
  assert (H6 : tasks (env written_small) = []) by (vm_compute; reflexivity).
  assert (H7 : timer (this written_small) = None) by (vm_compute; reflexivity).
  assert (H8 : timeouts (env written_small) = []) by (vm_compute; reflexivity).
  assert (H9 : _bufferedEntries (this written_small) = []) by (vm_compute; reflexivity).
  assert (H10 : truthy_string (filename (this written_small)) = true)
    by (vm_compute; reflexivity).
  assert (H11 : stat_passes None) by exact I.
  do 11 (split; [assumption |]).
  exact (proj1 (stream_error_recovers flat_path written_small 0%nat "trace.json"
                  (SystemError "EIO") None [rec_b] H1 H2 H3 H4 H5 H6 H7 H8 H9 H10 H11)).
Defined.

Lemma close_refuses_later_records_witness :
  stream (this written_small) = Some 0%nat /\
  writable_path (env written_small) 0%nat = Some "trace.json" /\
  closed (this written_small) = false /\ rotating (this written_small) = false /\
  tasks (env written_small) = [] /\
  returned (env (run flat_path
                   ([CallClose] ++ map CallWriteTrace [rec_b] ++
                    [Complete 0 None] ++ map CallWriteTrace [] ++
                    [Complete 0 None] ++ map CallWriteTrace [rec_c]) written_small)) =
    returned (env written_small) ++ map (fun j => (j, false)) ([rec_b] ++ [] ++ [rec_c]).
Proof.
  assert (H1 : stream (this written_small) = Some 0%nat) by (vm_compute; reflexivity).
  assert (H2 : writable_path (env written_small) 0%nat = Some "trace.json")
    by (vm_compute; reflexivity).
  assert (H3 : closed (this written_small) = false) by (vm_compute; reflexivity).
  assert (H4 : rotating (this written_small) = false) by (vm_compute; reflexivity).
  assert (H5 : tasks (env written_small) = []) by (vm_compute; reflexivity).
  do 5 (split; [assumption |]).
  exact (proj1 (close_refuses_later_records flat_path written_small 0%nat "trace.json"
                  None [rec_b] [] [rec_c] H1 H2 H3 H4 H5)).
Defined.

Lemma close_keeps_pending_retry_witness :
  let st := run flat_path failed_open_run closed_small in
  truthy_string (filename (this st)) = true /\
  stream (this st) = None /\ closed (this st) = true /\
  timer (this st) = Some 1000%nat /\ timeouts (env st) = [1000%nat] /\
  tasks (env st) = [] /\ _bufferedEntries (this st) = [] /\ stat_passes None /\
  settled (env (step flat_path CallClose st)) =
    settled (env st) ++ [(OpClose, Some (AssertionError EmptyString))].
Proof.
  intros st.
  assert (H1 : truthy_string (filename (this st)) = true) by (vm_compute; reflexivity).
  assert (H2 : stream (this st) = None) by (vm_compute; reflexivity).
  assert (H3 : closed (this st) = true) by (vm_compute; reflexivity).
  assert (H4 : timer (this st) = Some 1000%nat) by (vm_compute; reflexivity).
  assert (H5 : timeouts (env st) = [1000%nat]) by (vm_compute; reflexivity).
  assert (H6 : tasks (env st) = []) by (vm_compute; reflexivity).
  assert (H7 : _bufferedEntries (this st) = []) by (vm_compute; reflexivity).
  assert (H8 : stat_passes None) by exact I.
  do 8 (split; [assumption |]).
  exact (proj1 (close_keeps_pending_retry flat_path st 1000%nat None
                  H1 H2 H3 H4 H5 H6 H7 H8)).
Defined.

Lemma records_without_length_never_rotate_witness :
  let evs :=
    [CallWriteTrace rec_a; CallWriteTrace rec_b; SinkError (SystemError "EIO");
     TimerFires; Complete 0 None; Complete 0 None; CallWriteTrace rec_c;
     CallClose; Complete 0 None; Complete 0 None] in
  no_rotation_under_way opened_small /\ Forall no_rotation_asked evs /\
  renames (env (run flat_path evs opened_small)) = renames (env opened_small).
Proof.
  intros evs.
  assert (H1 : no_rotation_under_way opened_small)
    by (split; [vm_compute; reflexivity | split; vm_compute; constructor]).
  assert (H2 : Forall no_rotation_asked evs)
    by (repeat constructor).
  split; [exact H1 |]. split; [exact H2 |].
  exact (proj1 (records_without_length_never_rotate flat_path evs opened_small H1 H2)).
Defined.

Lemma rotation_keeps_early_drops_late_witness :
  stream (this written_small) = Some 0%nat /\
  writable_path (env written_small) 0%nat = Some (filename (this written_small)) /\
  closed (this written_small) = false /\ rotating (this written_small) = false /\
  tasks (env written_small) = [] /\ _bufferedEntries (this written_small) = [] /\
  truthy_string (filename (this written_small)) = true /\
  Forall (fun j => json_length j = None) ([rec_b] ++ [] ++ [rec_c]) /\
  stat_passes None /\
  returned (env (run flat_path (rotation_with_writes [rec_b] [] [rec_c] [rec_a] [] None)
                   written_small)) =
    returned (env written_small) ++ map (fun j => (j, true)) ([rec_b] ++ [] ++ [rec_c]) ++
    map (fun j => (j, false)) ([rec_a] ++ []).
Proof.
  assert (H1 : stream (this written_small) = Some 0%nat) by (vm_compute; reflexivity).
  assert (H2 : writable_path (env written_small) 0%nat = Some (filename (this written_small)))
    by (vm_compute; reflexivity).
  assert (H3 : closed (this written_small) = false) by (vm_compute; reflexivity).
  assert (H4 : rotating (this written_small) = false) by (vm_compute; reflexivity).
  assert (H5 : tasks (env written_small) = []) by (vm_compute; reflexivity).
  assert (H6 : _bufferedEntries (this written_small) = []) by (vm_compute; reflexivity).
  assert (H7 : truthy_string (filename (this written_small)) = true)
    by (vm_compute; reflexivity).
  assert (H8 : Forall (fun j => json_length j = None) ([rec_b] ++ [] ++ [rec_c]))
    by (repeat constructor).
  assert (H9 : stat_passes None) by exact I.
  do 9 (split; [assumption |]).
  exact (proj1 (rotation_keeps_early_drops_late flat_path written_small 0%nat
                  [rec_b] [] [rec_c] [rec_a] [] None H1 H2 H3 H4 H5 H6 H7 H8 H9)).
Defined.

Lemma second_open_leaks_first_stream_witness :
  never_opened closed_small /\ stat_passes None /\
  stat_passes (Some (SystemError "ENOENT")) /\
  streams (env (run flat_path
                  [CallOpen; CallOpen; Complete 0 None;
                   Complete 0 (Some (SystemError "ENOENT"));
                   Complete 0 None; Complete 0 None] closed_small)) =
    streams (env closed_small) ++
    [mkStream (filename (this closed_small)) FlagW true;
     mkStream (filename (this closed_small)) FlagW true].
Proof.
  assert (H1 : never_opened closed_small) by (repeat split; vm_compute; reflexivity).
  assert (H2 : stat_passes None) by exact I.
  assert (H3 : stat_passes (Some (SystemError "ENOENT"))) by (vm_compute; reflexivity).
  split; [exact H1 |]. split; [exact H2 |]. split; [exact H3 |].
  exact (proj1 (second_open_leaks_first_stream flat_path closed_small None
                  (Some (SystemError "ENOENT")) H1 H2 H3)).
Defined.

Lemma firstEntry_never_reset_witness :
  let evs :=
    [CallRotate; Complete 0 None; Complete 0 None; Complete 0 None;
     Complete 0 None; Complete 0 None; CallWriteTrace rec_b] in
  firstEntry (this written_small) = false /\
  firstEntry (this (run flat_path evs written_small)) = false.
Proof.
  intros evs.
  assert (H1 : firstEntry (this written_small) = false) by (vm_compute; reflexivity).
  split; [exact H1 |].
  exact (firstEntry_never_reset flat_path evs written_small H1).
Defined.

(* ===================================================================== *)
(** ** Properties of lib/trace.js *)
(* ===================================================================== *)

(** What the constructor of the writer leaves besides the thresholds. *)
Lemma constructor_fields (o : Options) (w : Writer) :
  constructor (ArgObject o) = inr w ->
  opt_filename o = VString (filename w) /\
  stream w = None /\ closed w = true /\ closing w = false /\ rotating w = false /\
  _bufferedEntries w = [] /\ timer w = None /\ firstEntry w = true /\ id w = 0%N.
Proof.
  destruct o as [f mf ms]. unfold constructor, fromOptions. simpl.
  destruct f; try discriminate.
  unfold check_uint32, assert.
  destruct (not_nullish mf); [destruct mf; try discriminate |];
    (destruct (not_nullish ms); [destruct ms; try discriminate |]); simpl;
    repeat case_if; simpl; intros [= <-]; repeat split.
Qed.

(** X10. A PerformanceTraces that was constructed has an output: a file
    or the console. Its file, when it has one, is a writer as its own
    constructor leaves it, on the file name given in the options, which is
    not empty: open() on it passes its assertions, in any directory. There
    is no file exactly when the options give no name or an empty one.
    Without options the constructor throws a TypeError, although it tests
    for their absence. *)
Theorem traces_constructed_has_output (arg : PerformanceTraces.Arg)
    (t : PerformanceTraces.Traces) :
  PerformanceTraces.constructor arg = inr t ->
  (is_set (PerformanceTraces.file t) = true \/
   PerformanceTraces.console t = Some true) /\
  (forall w, PerformanceTraces.file t = Some w ->
     PerformanceTraces.filename t = Some (filename w) /\
     (exists is_object o,
        arg = PerformanceTraces.OptTruthy is_object o /\
        constructor (ArgObject (PerformanceTraces.opt_file o)) = inr w) /\
     forall files, never_opened (boot w files)) /\
  (PerformanceTraces.file t = None <->
   PerformanceTraces.no_filename t = true) /\
  PerformanceTraces.constructor PerformanceTraces.OptUndefined =
    inl (PerformanceTraces.Raised TypeError) /\
  PerformanceTraces.constructor PerformanceTraces.OptNull =
    inl (PerformanceTraces.Raised TypeError).
Proof.
  intros H.
  assert (Hmain :
    (is_set (PerformanceTraces.file t) = true \/
     PerformanceTraces.console t = Some true) /\
    (forall w, PerformanceTraces.file t = Some w ->
       PerformanceTraces.filename t = Some (filename w) /\
       (exists is_object o,
          arg = PerformanceTraces.OptTruthy is_object o /\
          constructor (ArgObject (PerformanceTraces.opt_file o)) = inr w) /\
       forall files, never_opened (boot w files)) /\
    (PerformanceTraces.file t = None <-> PerformanceTraces.no_filename t = true));
    [| destruct Hmain as (? & ? & ?); do 3 (split; [assumption |]); split; reflexivity].
  destruct arg as [| | | is_object o]; try discriminate H.
  destruct o as [c opts].
  unfold PerformanceTraces.constructor, PerformanceTraces.fromOptions in H.
  cbn [PerformanceTraces.opt_file PerformanceTraces.opt_console] in H.
  destruct (opt_filename opts) as [| | b | n | s |] eqn:Hname; simpl in H;
    try discriminate H.
  - (* no file name: undefined *)
    destruct c as [| | b | | |]; simpl in H; try discriminate H.
    destruct b; simpl in H; [| discriminate H].
    unfold PerformanceTraces.init in H. simpl in H. rewrite Hname in H. simpl in H.
    injection H as <-. simpl. split; [by right |]. split; [intros w [=] | done].
  - (* no file name: null *)
    destruct c as [| | b | | |]; simpl in H; try discriminate H.
    destruct b; simpl in H; [| discriminate H].
    unfold PerformanceTraces.init in H. simpl in H. rewrite Hname in H. simpl in H.
    injection H as <-. simpl. split; [by right |]. split; [intros w [=] | done].
  - (* a file name *)
    assert (Hcase :
      exists con,
        (truthy_string s = true \/ con = Some true) /\
        PerformanceTraces.init
          (PerformanceTraces.mkTraces (PerformanceTraces.OptTruthy is_object
             (PerformanceTraces.mkTracesOptions c opts)) (Some s) None con) = inr t).
    { destruct c as [| | b | | |]; simpl in H; try discriminate H.
      - unfold PerformanceTraces.no_filename in H. simpl in H.
        destruct (truthy_string s) eqn:Hs; simpl in H; [| discriminate H]. eauto.
      - unfold PerformanceTraces.no_filename in H. simpl in H.
        destruct (truthy_string s) eqn:Hs; simpl in H; [| discriminate H]. eauto.
      - unfold PerformanceTraces.no_filename, PerformanceTraces.no_console in H.
        simpl in H.
        destruct (truthy_string s) eqn:Hs; destruct b; simpl in H;
          try discriminate H; eauto. }
    clear H. destruct Hcase as (con & Hout & H).
    unfold PerformanceTraces.init in H. simpl in H. rewrite Hname in H. simpl in H.
    destruct (truthy_string s) eqn:Hs.
    + destruct is_object.
      * destruct (constructor (ArgObject opts)) as [e | w] eqn:Hw; [discriminate H |].
        injection H as <-. simpl.
        destruct (constructor_fields opts w Hw)
          as (Hf & H1 & H2 & H3 & H4 & H5 & H6 & H7 & H8).
        assert (Hs' : filename w = s) by congruence.
        split; [by left |]. split.
        -- intros w' [= <-]. split; [by rewrite Hs' |]. split; [eauto |].
           intros files. unfold never_opened, boot. simpl.
           rewrite Hs', Hs. repeat split; assumption.
        -- unfold PerformanceTraces.no_filename. simpl. rewrite Hs. split; discriminate.
      * simpl in H. discriminate H.
    + injection H as <-. simpl. destruct Hout as [? | ->]; [discriminate |].
      split; [by right |]. split; [intros w [=] |].
      unfold PerformanceTraces.no_filename. simpl. by rewrite Hs.
Qed.

(** The trace of a body without promises closes what it opens. *)
Lemma exec_synchronous {Value : Type} (b : PerformanceTraces.Behaviour Value)
    (st : PerformanceTraces.Tracing) :
  PerformanceTraces.all_synchronous Value b ->
  exists seg,
    PerformanceTraces.log (snd (PerformanceTraces.exec Value b st)) =
      PerformanceTraces.log st ++ seg /\
    (forall stack rest,
       PerformanceTraces.nested stack (seg ++ rest) = PerformanceTraces.nested stack rest) /\
    PerformanceTraces.chained (snd (PerformanceTraces.exec Value b st)) =
      PerformanceTraces.chained st /\
    PerformanceTraces.next_promise (snd (PerformanceTraces.exec Value b st)) =
      PerformanceTraces.next_promise st /\
    PerformanceTraces.synchronous Value (fst (PerformanceTraces.exec Value b st)).
Proof.
  revert st. induction b as [o | n target IHt k IHk]; intros st Hsync.
  - exists []. simpl. rewrite app_nil_r. repeat split; auto.
  - destruct Hsync as [Ht Hk]. cbn [PerformanceTraces.exec].
    unfold PerformanceTraces.apply.
    set (st1 := PerformanceTraces.mkTracing _ _ _).
    destruct (IHt st1 Ht) as (seg & Hlog & Hnest & Hch & Hnext & Ho).
    destruct (PerformanceTraces.exec Value target st1) as [o st2]. cbn [fst snd] in *.
    assert (Hgo : forall o' : PerformanceTraces.Outcome Value,
              PerformanceTraces.synchronous Value o' ->
              exists seg',
                PerformanceTraces.log
                  (snd (PerformanceTraces.exec Value (k o')
                          (PerformanceTraces.mkTracing
                             (PerformanceTraces.trace n "E" (PerformanceTraces.log st2))
                             (PerformanceTraces.chained st2)
                             (PerformanceTraces.next_promise st2)))) =
                PerformanceTraces.log st ++ seg' /\
                (forall stack rest,
                   PerformanceTraces.nested stack (seg' ++ rest) =
                   PerformanceTraces.nested stack rest) /\
                PerformanceTraces.chained
                  (snd (PerformanceTraces.exec Value (k o')
                          (PerformanceTraces.mkTracing
                             (PerformanceTraces.trace n "E" (PerformanceTraces.log st2))
                             (PerformanceTraces.chained st2)
                             (PerformanceTraces.next_promise st2)))) =
                PerformanceTraces.chained st /\
                PerformanceTraces.next_promise
                  (snd (PerformanceTraces.exec Value (k o')
                          (PerformanceTraces.mkTracing
                             (PerformanceTraces.trace n "E" (PerformanceTraces.log st2))
                             (PerformanceTraces.chained st2)
                             (PerformanceTraces.next_promise st2)))) =
                PerformanceTraces.next_promise st /\
                PerformanceTraces.synchronous Value
                  (fst (PerformanceTraces.exec Value (k o')
                          (PerformanceTraces.mkTracing
                             (PerformanceTraces.trace n "E" (PerformanceTraces.log st2))
                             (PerformanceTraces.chained st2)
                             (PerformanceTraces.next_promise st2))))).
    { intros o' Ho'.
      destruct (IHk o'
                  (PerformanceTraces.mkTracing
                     (PerformanceTraces.trace n "E" (PerformanceTraces.log st2))
                     (PerformanceTraces.chained st2)
                     (PerformanceTraces.next_promise st2)) (Hk o' Ho'))
        as (seg' & Hlog' & Hnest' & Hch' & Hnext' & Ho2).
      exists ((n, "B") :: seg ++ [(n, "E")] ++ seg').
      split; [| split; [| split; [| split]]].
      - rewrite Hlog'. simpl. unfold PerformanceTraces.trace. rewrite Hlog.
        subst st1. simpl. unfold PerformanceTraces.trace.
        by rewrite <- !app_assoc.
      - intros stack rest. simpl.
        rewrite <- !app_assoc. rewrite Hnest. simpl.
        rewrite String.eqb_refl. simpl. apply Hnest'.
      - rewrite Hch'. simpl. rewrite Hch. by subst st1.
      - rewrite Hnext'. simpl. rewrite Hnext. by subst st1.
      - exact Ho2. }
    destruct o as [v | e | p]; [apply Hgo; exact I | apply Hgo; exact I | destruct Ho].
Qed.

(** X11. A call through the proxy of timerifyFn, around a target that ends
    without a promise and whose nested timerified calls do too, traces
    'B' with the name [name:fn.name] before the target runs and 'E' with
    the same name after it, whether the target returned or threw; what
    the target traced in between is well nested; and the caller gets what
    the target returned or threw, unchanged. No promise is chained. *)
Theorem timerified_call_is_bracketed {Value : Type} (name fn_name : string)
    (target : PerformanceTraces.Behaviour Value) (st : PerformanceTraces.Tracing) :
  PerformanceTraces.all_synchronous Value target ->
  let n := PerformanceTraces.fullname name fn_name in
  let entered :=
    PerformanceTraces.mkTracing
      (PerformanceTraces.trace n "B" (PerformanceTraces.log st))
      (PerformanceTraces.chained st) (PerformanceTraces.next_promise st) in
  let r := PerformanceTraces.apply Value (PerformanceTraces.exec Value target) n st in
  fst r = fst (PerformanceTraces.exec Value target entered) /\
  PerformanceTraces.synchronous Value (fst r) /\
  (exists inner,
     PerformanceTraces.log (snd r) =
       PerformanceTraces.log st ++ [(n, "B")] ++ inner ++ [(n, "E")] /\
     PerformanceTraces.nested [] inner = true /\
     PerformanceTraces.nested [] ([(n, "B")] ++ inner ++ [(n, "E")]) = true) /\
  PerformanceTraces.chained (snd r) = PerformanceTraces.chained st /\
  PerformanceTraces.next_promise (snd r) = PerformanceTraces.next_promise st.
Proof.
  intros Hsync n entered r. subst r. unfold PerformanceTraces.apply. fold entered.
  destruct (exec_synchronous target entered Hsync) as (seg & Hlog & Hnest & Hch & Hnext & Ho).
  destruct (PerformanceTraces.exec Value target entered) as [o st2]. cbn [fst snd] in *.
  assert (Hin : PerformanceTraces.nested [] seg = true).
  { specialize (Hnest [] []). by rewrite app_nil_r in Hnest. }
  assert (Hall : PerformanceTraces.nested [] ([(n, "B")] ++ seg ++ [(n, "E")]) = true).
  { simpl. rewrite Hnest. simpl. by rewrite String.eqb_refl. }
  destruct o as [v | e | p]; [| | destruct Ho]; cbn [fst snd PerformanceTraces.log
    PerformanceTraces.chained PerformanceTraces.next_promise];
    (split; [reflexivity |]); (split; [exact I |]);
    (split; [| by split]);
    exists seg; (split; [| by split]);
    unfold PerformanceTraces.trace; rewrite Hlog; subst entered; simpl;
    unfold PerformanceTraces.trace; by rewrite <- !app_assoc.
Qed.

Lemma timerified_call_is_bracketed_witness :
  let inner : PerformanceTraces.Behaviour nat :=
    PerformanceTraces.Done nat (PerformanceTraces.Threw nat 7%nat) in
  let target : PerformanceTraces.Behaviour nat :=
    PerformanceTraces.Call nat "db:get" inner (fun o => PerformanceTraces.Done nat o) in
  let st := PerformanceTraces.mkTracing [] [] 0 in
  PerformanceTraces.all_synchronous nat target /\
  fst (PerformanceTraces.apply nat (PerformanceTraces.exec nat target)
         (PerformanceTraces.fullname "app" "load") st) =
  fst (PerformanceTraces.exec nat target
         (PerformanceTraces.mkTracing
            (PerformanceTraces.trace (PerformanceTraces.fullname "app" "load") "B"
               (PerformanceTraces.log st))
            (PerformanceTraces.chained st) (PerformanceTraces.next_promise st))).
Proof.
  intros inner target st.
  assert (H : PerformanceTraces.all_synchronous nat target)
    by (simpl; split; [exact I | intros o Ho; exact Ho]).
  split; [exact H |].
  exact (proj1 (timerified_call_is_bracketed "app" "load" target st H)).
Defined.

(** The call of the witness, computed: the inner function throws, both
    calls are closed, innermost first, and the exception reaches the
    caller. *)
Example timerified_call_trace :
  let inner : PerformanceTraces.Behaviour nat :=
    PerformanceTraces.Done nat (PerformanceTraces.Threw nat 7%nat) in
  let target : PerformanceTraces.Behaviour nat :=
    PerformanceTraces.Call nat "db:get" inner (fun o => PerformanceTraces.Done nat o) in
  PerformanceTraces.apply nat (PerformanceTraces.exec nat target)
    (PerformanceTraces.fullname "app" "load") (PerformanceTraces.mkTracing [] [] 0) =
  (PerformanceTraces.Threw nat 7%nat,
   PerformanceTraces.mkTracing
     [("app:load", "B"); ("db:get", "B"); ("db:get", "E"); ("app:load", "E")] [] 0).
Proof. reflexivity. Qed.

Lemma traces_constructed_has_output_witness :
  let arg :=
    PerformanceTraces.OptTruthy true
      (PerformanceTraces.mkTracesOptions (VBoolean false)
         (mkOptions (VString "trace.json") VUndefined VUndefined)) in
  let t :=
    PerformanceTraces.mkTraces arg (Some "trace.json")
      (Some (set_filename "trace.json" initial)) (Some false) in
  PerformanceTraces.constructor arg = inr t /\
  (is_set (PerformanceTraces.file t) = true \/ PerformanceTraces.console t = Some true).
Proof.
  intros arg t.
  assert (H : PerformanceTraces.constructor arg = inr t) by (vm_compute; reflexivity).
  split; [exact H |].
  exact (proj1 (traces_constructed_has_output arg t H)).
Defined.

(* ===================================================================== *)
(** ** Properties of lib/performance.js *)
(* ===================================================================== *)

(** X12. new PerformanceLogger(options) succeeds without options, with the
    console as its output. With options it succeeds exactly when
    filename is absent or a string, console is absent or a boolean, and an
    output is left: a file name that is not empty, or the console, which
    stays on unless the options turn it off. A logger that was constructed
    always has an output. *)
Theorem logger_constructed_has_output (arg : PerformanceTraces.Arg)
    (l : PerformanceLogger.Logger) :
  (PerformanceLogger.constructor arg = inr l <->
   ((arg = PerformanceTraces.OptUndefined \/ arg = PerformanceTraces.OptNull) /\
    l = PerformanceLogger.mkLogger true None) \/
   (exists is_object o,
      arg = PerformanceTraces.OptTruthy is_object o /\
      (not_nullish (opt_filename (PerformanceTraces.opt_file o)) = false /\
       PerformanceLogger.filename l = None \/
       exists s, opt_filename (PerformanceTraces.opt_file o) = VString s /\
                 PerformanceLogger.filename l = Some s) /\
      (not_nullish (PerformanceTraces.opt_console o) = false /\
       PerformanceLogger.console l = true \/
       exists b, PerformanceTraces.opt_console o = VBoolean b /\
                 PerformanceLogger.console l = b) /\
      ((exists s, PerformanceLogger.filename l = Some s /\ truthy_string s = true) \/
       PerformanceLogger.console l = true))) /\
  (PerformanceLogger.constructor arg = inr l ->
   (exists s, PerformanceLogger.filename l = Some s /\ truthy_string s = true) \/
   PerformanceLogger.console l = true).
Proof.
  assert (Hiff :
    PerformanceLogger.constructor arg = inr l <->
    ((arg = PerformanceTraces.OptUndefined \/ arg = PerformanceTraces.OptNull) /\
     l = PerformanceLogger.mkLogger true None) \/
    (exists is_object o,
       arg = PerformanceTraces.OptTruthy is_object o /\
       (not_nullish (opt_filename (PerformanceTraces.opt_file o)) = false /\
        PerformanceLogger.filename l = None \/
        exists s, opt_filename (PerformanceTraces.opt_file o) = VString s /\
                  PerformanceLogger.filename l = Some s) /\
       (not_nullish (PerformanceTraces.opt_console o) = false /\
        PerformanceLogger.console l = true \/
        exists b, PerformanceTraces.opt_console o = VBoolean b /\
                  PerformanceLogger.console l = b) /\
       ((exists s, PerformanceLogger.filename l = Some s /\ truthy_string s = true) \/
        PerformanceLogger.console l = true))).
  { destruct l as [lc lf]. split.
    - intros H. destruct arg as [| | | is_object [c [f mf ms]]].
      { left. split; [tauto |]. by injection H as <- <-. }
      { left. split; [tauto |]. by injection H as <- <-. }
      { discriminate H. }
      right. exists is_object, (PerformanceTraces.mkTracesOptions c (mkOptions f mf ms)).
      split; [reflexivity |].
      unfold PerformanceLogger.constructor, PerformanceLogger.fromOptions in H.
      simpl in *.
      destruct f as [| | fb | fn | fs |]; simpl in H; try discriminate H;
        destruct c as [| | cb | cn | cs |]; simpl in H; try discriminate H;
        try destruct cb; try destruct (truthy_string fs) eqn:Hfs; simpl in H;
        try discriminate H; injection H as <- <-; simpl;
        repeat split; eauto 6.
    - intros [[[-> | ->] ->] | (is_object & [c [f mf ms]] & -> & Hf & Hc & Hout)];
        [reflexivity | reflexivity |].
      unfold PerformanceLogger.constructor, PerformanceLogger.fromOptions. simpl in *.
      destruct Hf as [[Hf ->] | (s & -> & ->)]; simpl;
        destruct Hc as [[Hc ->] | (b & -> & ->)]; simpl; rewrite ?Hf, ?Hc; simpl;
        destruct Hout as [(s' & Hs' & Ht) | Hcon]; simpl in *;
        try discriminate; try (injection Hs' as <-); rewrite ?Ht; simpl;
        try subst; try reflexivity;
        try (destruct (truthy_string s); reflexivity). }
  split; [exact Hiff |].
  intros H. apply Hiff in H.
  destruct H as [[_ ->] | (_ & _ & _ & _ & _ & H)]; [by right | exact H].
Qed.

Lemma markMeasures_chain (ms : list string) (s : Performance.Session)
    (tl : Performance.Timeline) :
  Performance.lastname s ∈ Performance.marks tl ->
  exists s' tl',
    Performance.markMeasures ms s tl = Some (s', tl') /\
    Performance.name s' = Performance.name s /\
    Performance.lastname s' =
      Performance.last_mark (Performance.name s) (Performance.lastname s) ms /\
    Performance.marks tl' =
      Performance.marks tl ++ map (fun m => Performance.name s +:+ "-" +:+ m) ms /\
    Performance.measures tl' =
      Performance.measures tl ++
      Performance.chain (Performance.name s) (Performance.lastname s) ms.
Proof.
  revert s tl. induction ms as [| m ms IH]; intros s tl Hin.
  - exists s, tl. simpl. by rewrite !app_nil_r.
  - cbn [Performance.markMeasures]. unfold Performance.markMeasure, Performance.measure.
    cbn [Performance.mark Performance.marks Performance.measures].
    rewrite bool_decide_eq_true_2 by (apply elem_of_app; by left).
    rewrite bool_decide_eq_true_2 by (apply elem_of_app; right; apply list_elem_of_here).
    cbn [andb].
    destruct (IH (Performance.mkSession (Performance.name s)
                    (Performance.name s +:+ "-" +:+ m))
                 (Performance.mkTimeline
                    (Performance.marks tl ++ [Performance.name s +:+ "-" +:+ m])
                    (Performance.measures tl ++
                     [(Performance.name s +:+ "-" +:+ m, Performance.lastname s,
                       Performance.name s +:+ "-" +:+ m)])))
      as (s' & tl' & Hrun & Hname & Hlast & Hmarks & Hmeas).
    { simpl. apply elem_of_app. right. apply list_elem_of_here. }
    exists s', tl'. split; [exact Hrun |]. simpl in *.
    split; [exact Hname |]. split; [exact Hlast |].
    split; [by rewrite Hmarks, <- app_assoc | by rewrite Hmeas, <- app_assoc].
Qed.


Lemma no_colon_digits (d : Decimal.uint) :
  Performance.no_colon (NilEmpty.string_of_uint d) = true.
Proof. induction d; simpl; auto. Qed.

Lemma decimal_inj (i j : N) : decimal i = decimal j -> i = j.
Proof.
  unfold decimal. intros H.
  assert (Some (N.to_uint i) = Some (N.to_uint j)) as [= H']
    by (rewrite <- !NilEmpty.usu; by rewrite H).
  rewrite <- (DecimalN.Unsigned.of_to i), <- (DecimalN.Unsigned.of_to j). by rewrite H'.
Qed.

Lemma string_app_cons (c : Ascii.ascii) (a b : string) :
  String c a +:+ b = String c (a +:+ b).
Proof. reflexivity. Qed.

Lemma string_app_nil (b : string) : EmptyString +:+ b = b.
Proof. reflexivity. Qed.

Lemma no_colon_app (a b : string) :
  Performance.no_colon (a +:+ String (Ascii.ascii_of_nat 58) b) = false.
Proof.
  induction a as [| x a IH]; [reflexivity |].
  rewrite string_app_cons. simpl. rewrite IH. apply andb_false_r.
Qed.

Lemma colon_suffix_inj (a b da db : string) :
  Performance.no_colon da = true -> Performance.no_colon db = true ->
  a +:+ ":" +:+ da = b +:+ ":" +:+ db -> a = b /\ da = db.
Proof.
  intros Ha Hb. revert b. induction a as [| c a IH]; intros [| c' b] H;
    rewrite ?string_app_cons, ?string_app_nil in H.
  - by injection H as ->.
  - exfalso. injection H as <- ->. rewrite no_colon_app in Ha. discriminate Ha.
  - exfalso. injection H as -> <-. rewrite no_colon_app in Hb. discriminate Hb.
  - injection H as -> H. destruct (IH b H) as [-> ->]. by split.
Qed.

(** X14. Two calls of start never give the same session name, whatever
    labels they are given: the counter that is appended tells them apart.
    Equal session names come from equal labels and the same value of the
    counter (below 2^53, where every call gets a value of its own). *)
Theorem sessions_have_distinct_names (label1 label2 : string) (ID1 ID2 : N)
    (tl1 tl2 : Performance.Timeline) :
  (ID1 < 2 ^ 53)%N -> (ID2 < 2 ^ 53)%N ->
  Performance.name (fst (fst (Performance.start label1 ID1 tl1))) =
  Performance.name (fst (fst (Performance.start label2 ID2 tl2))) ->
  label1 = label2 /\ ID1 = ID2.
Proof.
  unfold Performance.start. simpl. intros _ _ H.
  apply colon_suffix_inj in H; [| apply no_colon_digits ..].
  destruct H as [-> H]. split; [reflexivity | by apply decimal_inj].
Qed.


Lemma sessions_have_distinct_names_witness :
  (3 < 2 ^ 53)%N /\
  Performance.name (fst (fst (Performance.start "load" 3 (Performance.mkTimeline [] [])))) =
  Performance.name (fst (fst (Performance.start "load" 3 (Performance.mkTimeline ["x"] [])))) /\
  "load" = "load" /\ 3%N = 3%N.
Proof.
  assert (H : (3 < 2 ^ 53)%N) by (vm_compute; reflexivity).
  assert (E : Performance.name
                (fst (fst (Performance.start "load" 3 (Performance.mkTimeline [] [])))) =
              Performance.name
                (fst (fst (Performance.start "load" 3 (Performance.mkTimeline ["x"] [])))))
    by reflexivity.
  split; [exact H |]. split; [exact E |].
  exact (sessions_have_distinct_names "load" "load" 3 3 (Performance.mkTimeline [] [])
           (Performance.mkTimeline ["x"] []) H H E).
Defined.

Lemma logger_constructed_has_output_witness :
  let arg :=
    PerformanceTraces.OptTruthy true
      (PerformanceTraces.mkTracesOptions VUndefined
         (mkOptions (VString "perf.log") VUndefined VUndefined)) in
  let l := PerformanceLogger.mkLogger true (Some "perf.log") in
  PerformanceLogger.constructor arg = inr l /\
  ((exists s, PerformanceLogger.filename l = Some s /\ truthy_string s = true) \/
   PerformanceLogger.console l = true).
Proof.
  intros arg l.
  assert (H : PerformanceLogger.constructor arg = inr l) by (vm_compute; reflexivity).
  split; [exact H |].
  exact (proj2 (logger_constructed_has_output arg l) H).
Defined.

(* ===================================================================== *)
(** ** Properties of the stream helpers *)
(* ===================================================================== *)

Lemma remove_last_absent (name : StreamHelpers.EventName) (l : StreamHelpers.Listener)
    (ls : list (StreamHelpers.EventName * StreamHelpers.Listener * bool)) :
  ~ Exists (fun r => fst (fst r) = name /\ snd (fst r) = l) ls ->
  StreamHelpers.remove_last name l ls = ls.
Proof.
  induction ls as [| [[n x] o] rest IH]; intros H; [reflexivity |].
  cbn [StreamHelpers.remove_last]. rewrite Exists_cons in H. cbn [fst snd] in H.
  rewrite (bool_decide_eq_false_2 (n = name /\ x = l)) by tauto.
  cbn [andb]. rewrite IH by tauto. reflexivity.
Qed.

Lemma remove_last_final (name : StreamHelpers.EventName) (l : StreamHelpers.Listener)
    (o : bool) (ls : list (StreamHelpers.EventName * StreamHelpers.Listener * bool)) :
  StreamHelpers.remove_last name l (ls ++ [(name, l, o)]) = ls.
Proof.
  induction ls as [| [[n x] o'] rest IH]; cbn [StreamHelpers.remove_last app].
  - rewrite (bool_decide_eq_true_2 (name = name /\ l = l)) by done.
    rewrite bool_decide_eq_false_2 by (intros H; inversion H). reflexivity.
  - rewrite (bool_decide_eq_true_2
               (Exists (fun r => fst (fst r) = name /\ snd (fst r) = l)
                  (rest ++ [(name, l, o)])))
      by (apply Exists_app; right; by constructor).
    cbn [negb]. rewrite andb_false_r. by rewrite IH.
Qed.

Lemma filter_not_name (name : StreamHelpers.EventName)
    (ls : list (StreamHelpers.EventName * StreamHelpers.Listener * bool)) :
  List.filter (fun r => bool_decide (fst (fst r) = name))
    (List.filter (fun r => negb (bool_decide (fst (fst r) = name))) ls) = [].
Proof.
  induction ls as [| r rest IH]; [reflexivity |].
  cbn [List.filter]. destruct (bool_decide (fst (fst r) = name)) eqn:E;
    cbn [negb List.filter]; rewrite ?E; exact IH.
Qed.

Lemma filter_nothing {A : Type} (f : A -> bool) (l : list A) :
  Forall (fun x => f x = false) l -> List.filter f l = [].
Proof.
  induction 1 as [| x l Hx _ IH]; [reflexivity |].
  cbn [List.filter]. by rewrite Hx.
Qed.

(** What closeStream leaves registered: the listeners for other events,
    then its own two. *)
Lemma closeStream_listeners (em : StreamHelpers.Emitter) :
  exists rest,
    Forall (fun r => fst (fst r) <> StreamHelpers.EvError /\
                     fst (fst r) <> StreamHelpers.EvClose) rest /\
    (forall name, name <> StreamHelpers.EvError -> name <> StreamHelpers.EvClose ->
       List.filter (fun r => bool_decide (fst (fst r) = name)) rest =
       List.filter (fun r => bool_decide (fst (fst r) = name)) (StreamHelpers.listeners em)) /\
    StreamHelpers.closeStream em =
    StreamHelpers.mkEmitter
      (rest ++ [(StreamHelpers.EvError, StreamHelpers.CloseOnError, true);
                (StreamHelpers.EvClose, StreamHelpers.CloseOnClose, true)])
      (S (StreamHelpers.close_calls em)) (StreamHelpers.end_calls em)
      (StreamHelpers.opened em) (StreamHelpers.ended em) (StreamHelpers.closed em)
      (StreamHelpers.handled em) (StreamHelpers.unhandled em).
Proof.
  destruct em as [ls cc ec po pe pc hd un].
  exists (List.filter (fun r => negb (bool_decide (fst (fst r) = StreamHelpers.EvClose)))
            (List.filter (fun r => negb (bool_decide (fst (fst r) = StreamHelpers.EvError)))
               ls)).
  split; [| split].
  - induction ls as [| r ls IH]; [constructor |].
    cbn [List.filter].
    destruct (bool_decide (fst (fst r) = StreamHelpers.EvError)) eqn:E1; cbn [negb];
      [exact IH |].
    cbn [List.filter].
    destruct (bool_decide (fst (fst r) = StreamHelpers.EvClose)) eqn:E2; cbn [negb];
      [exact IH |].
    constructor; [| exact IH].
    apply bool_decide_eq_false in E1. apply bool_decide_eq_false in E2. by split.
  - intros name H1 H2. cbn [StreamHelpers.listeners].
    induction ls as [| r ls IH]; [reflexivity |].
    cbn [List.filter].
    destruct (bool_decide (fst (fst r) = StreamHelpers.EvError)) eqn:E1; cbn [negb].
    + apply bool_decide_eq_true in E1.
      rewrite (bool_decide_eq_false_2 (fst (fst r) = name)) by congruence. exact IH.
    + cbn [List.filter].
      destruct (bool_decide (fst (fst r) = StreamHelpers.EvClose)) eqn:E2; cbn [negb].
      * apply bool_decide_eq_true in E2.
        rewrite (bool_decide_eq_false_2 (fst (fst r) = name)) by congruence. exact IH.
      * cbn [List.filter]. destruct (bool_decide (fst (fst r) = name)); by rewrite IH.
  - unfold StreamHelpers.closeStream, StreamHelpers.removeAllListeners,
      StreamHelpers.once, StreamHelpers.close, StreamHelpers.set_listeners.
    cbn [StreamHelpers.listeners StreamHelpers.close_calls StreamHelpers.end_calls
         StreamHelpers.opened StreamHelpers.ended StreamHelpers.closed
         StreamHelpers.handled StreamHelpers.unhandled].
    by rewrite <- app_assoc.
Qed.

(** X15. closeStream takes the stream over: whatever was registered for
    ['error'] and ['close'] before, the handler of stream errors that
    open() installed included, is removed, and its own two listeners are
    the only ones for these events; listeners for other events stay. When
    the stream then closes, the promise resolves; when it fails, the
    promise is rejected with the error and the handler of stream errors is
    not called. Either way both listeners are gone afterwards and no
    listener for ['error'] is left: a later error of the stream is
    unhandled. *)
Theorem closeStream_takes_over_errors (em : StreamHelpers.Emitter) (err later : Error) :
  let em1 := StreamHelpers.closeStream em in
  let closes := StreamHelpers.emit StreamHelpers.EvClose err em1 in
  let fails := StreamHelpers.emit StreamHelpers.EvError err em1 in
  StreamHelpers.listeners_of StreamHelpers.EvError em1 = [StreamHelpers.CloseOnError] /\
  StreamHelpers.listeners_of StreamHelpers.EvClose em1 = [StreamHelpers.CloseOnClose] /\
  (forall name, name <> StreamHelpers.EvError -> name <> StreamHelpers.EvClose ->
     StreamHelpers.listeners_of name em1 = StreamHelpers.listeners_of name em) /\
  StreamHelpers.close_calls em1 = S (StreamHelpers.close_calls em) /\
  StreamHelpers.closed closes = StreamHelpers.settle StreamHelpers.Resolved
                                  (StreamHelpers.closed em) /\
  StreamHelpers.closed fails = StreamHelpers.settle (StreamHelpers.Rejected err)
                                 (StreamHelpers.closed em) /\
  StreamHelpers.handled closes = StreamHelpers.handled em /\
  StreamHelpers.handled fails = StreamHelpers.handled em /\
  StreamHelpers.unhandled fails = StreamHelpers.unhandled em /\
  StreamHelpers.listeners_of StreamHelpers.EvError closes = [] /\
  StreamHelpers.listeners_of StreamHelpers.EvClose closes = [] /\
  StreamHelpers.listeners_of StreamHelpers.EvError fails = [] /\
  StreamHelpers.listeners_of StreamHelpers.EvClose fails = [] /\
  StreamHelpers.unhandled (StreamHelpers.emit StreamHelpers.EvError later closes) =
    StreamHelpers.unhandled em ++ [later] /\
  StreamHelpers.unhandled (StreamHelpers.emit StreamHelpers.EvError later fails) =
    StreamHelpers.unhandled em ++ [later].
Proof.
  cbv zeta.
  destruct (closeStream_listeners em) as (rest & Hrest & Hother & ->).
  assert (Herr : List.filter (fun r => bool_decide (fst (fst r) = StreamHelpers.EvError)) rest
                 = []).
  { apply filter_nothing. eapply Forall_impl; [exact Hrest |]. cbn beta.
    intros r [H _]. by apply bool_decide_eq_false_2. }
  assert (Hclo : List.filter (fun r => bool_decide (fst (fst r) = StreamHelpers.EvClose)) rest
                 = []).
  { apply filter_nothing. eapply Forall_impl; [exact Hrest |]. cbn beta.
    intros r [_ H]. by apply bool_decide_eq_false_2. }
  assert (Hno1 : forall l, ~ Exists (fun r => fst (fst r) = StreamHelpers.EvError /\
                                              snd (fst r) = l) rest).
  { intros l H. apply Exists_exists in H. destruct H as (r & Hin & H1 & _).
    rewrite Forall_forall in Hrest. by destruct (Hrest r Hin). }
  assert (Hno2 : forall l, ~ Exists (fun r => fst (fst r) = StreamHelpers.EvClose /\
                                              snd (fst r) = l) rest).
  { intros l H. apply Exists_exists in H. destruct H as (r & Hin & H1 & _).
    rewrite Forall_forall in Hrest. by destruct (Hrest r Hin). }
  assert (E1 : StreamHelpers.remove_last StreamHelpers.EvClose StreamHelpers.CloseOnClose
                 (rest ++ [(StreamHelpers.EvError, StreamHelpers.CloseOnError, true);
                           (StreamHelpers.EvClose, StreamHelpers.CloseOnClose, true)]) =
               rest ++ [(StreamHelpers.EvError, StreamHelpers.CloseOnError, true)]).
  { transitivity
      (StreamHelpers.remove_last StreamHelpers.EvClose StreamHelpers.CloseOnClose
         ((rest ++ [(StreamHelpers.EvError, StreamHelpers.CloseOnError, true)]) ++
          [(StreamHelpers.EvClose, StreamHelpers.CloseOnClose, true)]));
      [by rewrite <- app_assoc | apply remove_last_final]. }
  assert (E2 : StreamHelpers.remove_last StreamHelpers.EvError StreamHelpers.CloseOnError
                 (rest ++ [(StreamHelpers.EvError, StreamHelpers.CloseOnError, true)]) = rest)
    by apply remove_last_final.
  assert (E3 : StreamHelpers.remove_last StreamHelpers.EvError StreamHelpers.CloseOnError
                 (rest ++ [(StreamHelpers.EvError, StreamHelpers.CloseOnError, true);
                           (StreamHelpers.EvClose, StreamHelpers.CloseOnClose, true)]) =
               rest ++ [(StreamHelpers.EvClose, StreamHelpers.CloseOnClose, true)]).
  { clear -Hno1. induction rest as [| [[n x] o] rest IH].
    - reflexivity.
    - cbn [StreamHelpers.remove_last app].
      rewrite (bool_decide_eq_false_2 (n = StreamHelpers.EvError /\ x = StreamHelpers.CloseOnError)).
      + cbn [andb]. rewrite IH; [reflexivity |].
        intros l H. apply (Hno1 l). by apply Exists_cons_tl.
      + intros [-> ->]. apply (Hno1 StreamHelpers.CloseOnError). by constructor. }
  assert (E4 : StreamHelpers.remove_last StreamHelpers.EvClose StreamHelpers.CloseOnClose
                 (rest ++ [(StreamHelpers.EvClose, StreamHelpers.CloseOnClose, true)]) = rest)
    by apply remove_last_final.
  assert (E7 : StreamHelpers.remove_last StreamHelpers.EvError StreamHelpers.CloseOnError
                 (rest ++ [(StreamHelpers.EvClose, StreamHelpers.CloseOnClose, true)]) =
               rest ++ [(StreamHelpers.EvClose, StreamHelpers.CloseOnClose, true)]).
  { apply remove_last_absent. intros H. apply Exists_app in H.
    destruct H as [H | H]; [by apply (Hno1 _ H) |].
    apply Exists_cons in H. destruct H as [[H _] | H]; [discriminate H | inversion H]. }
  assert (E5 : forall l, StreamHelpers.remove_last StreamHelpers.EvError l rest = rest)
    by (intros l; apply remove_last_absent, Hno1).
  assert (E6 : forall l, StreamHelpers.remove_last StreamHelpers.EvClose l rest = rest)
    by (intros l; apply remove_last_absent, Hno2).
  assert (T1 : bool_decide (StreamHelpers.EvError = StreamHelpers.EvError) = true)
    by reflexivity.
  assert (T2 : bool_decide (StreamHelpers.EvClose = StreamHelpers.EvClose) = true)
    by reflexivity.
  assert (T3 : bool_decide (StreamHelpers.EvError = StreamHelpers.EvClose) = false)
    by reflexivity.
  assert (T4 : bool_decide (StreamHelpers.EvClose = StreamHelpers.EvError) = false)
    by reflexivity.
  destruct em as [ls cc ec po pe pc hd un].
  cbn [StreamHelpers.close_calls StreamHelpers.end_calls StreamHelpers.opened
       StreamHelpers.ended StreamHelpers.closed StreamHelpers.handled
       StreamHelpers.unhandled StreamHelpers.listeners] in *.
  set (own := [(StreamHelpers.EvError, StreamHelpers.CloseOnError, true);
               (StreamHelpers.EvClose, StreamHelpers.CloseOnClose, true)]) in *.
  assert (Hc : StreamHelpers.emit StreamHelpers.EvClose err
                 (StreamHelpers.mkEmitter (rest ++ own) (S cc) ec po pe pc hd un) =
               StreamHelpers.mkEmitter rest (S cc) ec po pe
                 (StreamHelpers.settle StreamHelpers.Resolved pc) hd un).
  { unfold StreamHelpers.emit. cbn [StreamHelpers.listeners].
    rewrite List.filter_app, Hclo. subst own.
    cbn [List.filter fst snd app]. rewrite T2, T3.
    cbn [fold_left fst snd StreamHelpers.call StreamHelpers.removeListener
           StreamHelpers.set_listeners StreamHelpers.listeners StreamHelpers.close_calls
           StreamHelpers.end_calls StreamHelpers.opened StreamHelpers.ended
           StreamHelpers.closed StreamHelpers.handled StreamHelpers.unhandled].
    by rewrite E1, E2, E6. }
  assert (Hf : StreamHelpers.emit StreamHelpers.EvError err
                 (StreamHelpers.mkEmitter (rest ++ own) (S cc) ec po pe pc hd un) =
               StreamHelpers.mkEmitter rest (S cc) ec po pe
                 (StreamHelpers.settle (StreamHelpers.Rejected err) pc) hd un).
  { unfold StreamHelpers.emit. cbn [StreamHelpers.listeners].
    rewrite List.filter_app, Herr. subst own.
    cbn [List.filter fst snd app]. rewrite T1, T4.
    cbn [fold_left fst snd StreamHelpers.call StreamHelpers.removeListener
           StreamHelpers.set_listeners StreamHelpers.listeners StreamHelpers.close_calls
           StreamHelpers.end_calls StreamHelpers.opened StreamHelpers.ended
           StreamHelpers.closed StreamHelpers.handled StreamHelpers.unhandled].
    by rewrite E3, E7, E4. }
  assert (Hl : forall p,
             StreamHelpers.emit StreamHelpers.EvError later
               (StreamHelpers.mkEmitter rest (S cc) ec po pe p hd un) =
             StreamHelpers.mkEmitter rest (S cc) ec po pe p hd (un ++ [later])).
  { intros p. unfold StreamHelpers.emit. cbn [StreamHelpers.listeners].
    by rewrite Herr. }
  rewrite Hc, Hf, !Hl.
  unfold StreamHelpers.listeners_of. cbn [StreamHelpers.listeners StreamHelpers.closed
    StreamHelpers.handled StreamHelpers.unhandled StreamHelpers.close_calls].
  rewrite !List.filter_app, Herr, Hclo. subst own.
  cbn [List.filter fst snd app]. rewrite T1, T2, T3, T4. cbn [map fst snd].
  split; [reflexivity |]. split; [reflexivity |].
  split.
  { intros name H1 H2. rewrite List.filter_app, Hother by assumption.
    cbn [List.filter fst snd].
    rewrite (bool_decide_eq_false_2 (StreamHelpers.EvError = name)) by congruence.
    rewrite (bool_decide_eq_false_2 (StreamHelpers.EvClose = name)) by congruence.
    by rewrite app_nil_r. }
  repeat split; reflexivity.
Qed.

Lemma remove_last_Forall (P : StreamHelpers.EventName * StreamHelpers.Listener * bool -> Prop)
    (name : StreamHelpers.EventName) (l : StreamHelpers.Listener)
    (ls : list (StreamHelpers.EventName * StreamHelpers.Listener * bool)) :
  Forall P ls -> Forall P (StreamHelpers.remove_last name l ls).
Proof.
  induction 1 as [| [[n x] o] rest Hx Hrest IH]; [constructor |].
  cbn [StreamHelpers.remove_last]. destruct (_ && _); [exact Hrest | by constructor].
Qed.

(** What every listener leaves alone: the promise of endStream is never
    rejected, and the registrations only go. *)
Lemma call_keeps_end (l : StreamHelpers.Listener) (err : Error) (em : StreamHelpers.Emitter)
    (P : StreamHelpers.EventName * StreamHelpers.Listener * bool -> Prop) :
  (StreamHelpers.not_rejected (StreamHelpers.ended em) ->
   StreamHelpers.not_rejected (StreamHelpers.ended (StreamHelpers.call l err em))) /\
  (l <> StreamHelpers.EndResolve ->
   StreamHelpers.ended (StreamHelpers.call l err em) = StreamHelpers.ended em) /\
  (Forall P (StreamHelpers.listeners em) ->
   Forall P (StreamHelpers.listeners (StreamHelpers.call l err em))).
Proof.
  destruct em as [ls cc ec po pe pc hd un].
  destruct l; cbn; repeat split; try done; try (by destruct pe);
    intros H; repeat apply remove_last_Forall; exact H.
Qed.

(** The listeners of one event, called in turn. *)
Lemma listeners_keep_end (name : StreamHelpers.EventName) (err : Error)
    (now : list (StreamHelpers.EventName * StreamHelpers.Listener * bool))
    (P : StreamHelpers.EventName * StreamHelpers.Listener * bool -> Prop)
    (em0 : StreamHelpers.Emitter) :
  Forall (fun r => fst (fst r) = name) now ->
  let em' :=
    fold_left
      (fun (em : StreamHelpers.Emitter)
           (r : StreamHelpers.EventName * StreamHelpers.Listener * bool) =>
         StreamHelpers.call (snd (fst r)) err
           (if snd r then StreamHelpers.removeListener (fst (fst r)) (snd (fst r)) em
            else em)) now em0 in
  (StreamHelpers.not_rejected (StreamHelpers.ended em0) ->
   StreamHelpers.not_rejected (StreamHelpers.ended em')) /\
  (Forall P (StreamHelpers.listeners em0) -> Forall P (StreamHelpers.listeners em')) /\
  (Forall (fun r => snd (fst r) <> StreamHelpers.EndResolve) now ->
   StreamHelpers.ended em' = StreamHelpers.ended em0).
Proof.
  intros Hnow. revert em0. induction Hnow as [| r now Hr _ IH]; intros em0; [by repeat split |].
  cbn [fold_left].
  set (em1 := if snd r then StreamHelpers.removeListener (fst (fst r)) (snd (fst r)) em0
              else em0).
  assert (H1 : StreamHelpers.ended em1 = StreamHelpers.ended em0)
    by (subst em1; destruct (snd r); by destruct em0).
  assert (H2 : Forall P (StreamHelpers.listeners em0) ->
               Forall P (StreamHelpers.listeners em1)).
  { subst em1. destruct (snd r); [| done]. destruct em0. cbn.
    apply remove_last_Forall. }
  destruct (call_keeps_end (snd (fst r)) err em1 P) as (C1 & C2 & C3).
  destruct (IH (StreamHelpers.call (snd (fst r)) err em1)) as (I1 & I2 & I3).
  split; [| split].
  - intros H. apply I1, C1. by rewrite H1.
  - intros HP. apply I2, C3, H2, HP.
  - intros Hall. apply Forall_cons in Hall. destruct Hall as [Hr' Hall].
    rewrite (I3 Hall), (C2 Hr'), H1. reflexivity.
Qed.

Lemma emit_unfold (name : StreamHelpers.EventName) (err : Error)
    (em : StreamHelpers.Emitter) :
  List.filter (fun r => bool_decide (fst (fst r) = name)) (StreamHelpers.listeners em) <> [] \/
  name <> StreamHelpers.EvError ->
  StreamHelpers.emit name err em =
  fold_left
    (fun (em : StreamHelpers.Emitter)
         (r : StreamHelpers.EventName * StreamHelpers.Listener * bool) =>
       StreamHelpers.call (snd (fst r)) err
         (if snd r then StreamHelpers.removeListener (fst (fst r)) (snd (fst r)) em
          else em))
    (List.filter (fun r => bool_decide (fst (fst r) = name)) (StreamHelpers.listeners em)) em.
Proof.
  intros H. unfold StreamHelpers.emit.
  destruct (List.filter _ _) as [| r0 now0]; [| reflexivity].
  destruct H as [H | H]; [done |]. by destruct name.
Qed.

Lemma filter_names (name : StreamHelpers.EventName)
    (ls : list (StreamHelpers.EventName * StreamHelpers.Listener * bool)) :
  Forall (fun r => fst (fst r) = name)
    (List.filter (fun r => bool_decide (fst (fst r) = name)) ls).
Proof.
  apply Forall_forall. intros r Hin.
  apply list_elem_of_In, filter_In in Hin. destruct Hin as [_ Hin].
  by apply bool_decide_eq_true in Hin.
Qed.

Lemma emit_keeps_end (name : StreamHelpers.EventName) (err : Error)
    (em : StreamHelpers.Emitter) :
  (StreamHelpers.not_rejected (StreamHelpers.ended em) ->
   StreamHelpers.not_rejected (StreamHelpers.ended (StreamHelpers.emit name err em))) /\
  (StreamHelpers.resolve_on_finish_only em ->
   StreamHelpers.resolve_on_finish_only (StreamHelpers.emit name err em) /\
   (name <> StreamHelpers.EvFinish ->
    StreamHelpers.ended (StreamHelpers.emit name err em) = StreamHelpers.ended em)).
Proof.
  unfold StreamHelpers.resolve_on_finish_only.
  set (P := fun r : StreamHelpers.EventName * StreamHelpers.Listener * bool =>
              snd (fst r) = StreamHelpers.EndResolve -> fst (fst r) = StreamHelpers.EvFinish).
  destruct (List.filter (fun r => bool_decide (fst (fst r) = name))
              (StreamHelpers.listeners em)) as [| r0 now0] eqn:Enow.
  - destruct name.
    + unfold StreamHelpers.emit. rewrite Enow. destruct em; cbn. by repeat split.
    + rewrite emit_unfold by (right; discriminate). rewrite Enow. by repeat split.
    + rewrite emit_unfold by (right; discriminate). rewrite Enow. by repeat split.
    + rewrite emit_unfold by (right; discriminate). rewrite Enow. by repeat split.
  - rewrite emit_unfold by (left; by rewrite Enow).
    destruct (listeners_keep_end name err _ P em (filter_names name (StreamHelpers.listeners em)))
      as (F1 & F2 & F3).
    split; [exact F1 |]. intros HP. split; [by apply F2 |].
    intros Hname. apply F3. apply Forall_forall. intros r Hin Heq.
    apply list_elem_of_In, filter_In in Hin. destruct Hin as [Hin Hn].
    apply bool_decide_eq_true in Hn. apply Hname. rewrite <- Hn.
    rewrite Forall_forall in HP. apply HP; [by apply list_elem_of_In | exact Heq].
Qed.

Lemma emits_keep_end (evs : list (StreamHelpers.EventName * Error))
    (em : StreamHelpers.Emitter) :
  (StreamHelpers.not_rejected (StreamHelpers.ended em) ->
   StreamHelpers.not_rejected (StreamHelpers.ended (StreamHelpers.emits evs em))) /\
  (StreamHelpers.resolve_on_finish_only em ->
   Forall (fun ev => fst ev <> StreamHelpers.EvFinish) evs ->
   StreamHelpers.ended (StreamHelpers.emits evs em) = StreamHelpers.ended em).
Proof.
  revert em. induction evs as [| ev evs IH]; intros em; [by split |].
  cbn [StreamHelpers.emits fold_left].
  fold (StreamHelpers.emits evs (StreamHelpers.emit (fst ev) (snd ev) em)).
  destruct (emit_keeps_end (fst ev) (snd ev) em) as [E1 E2].
  destruct (IH (StreamHelpers.emit (fst ev) (snd ev) em)) as [I1 I2].
  split.
  - intros H. apply I1, E1, H.
  - intros HP Hall. apply Forall_cons in Hall. destruct Hall as [Hev Hall].
    destruct (E2 HP) as [HP' Hsame]. rewrite (I2 HP' Hall). by apply Hsame.
Qed.

(** X16. endStream has no failure path. Its promise is never rejected,
    whatever the stream emits; it stays pending for as long as the stream
    does not emit ['finish'], and ['finish'] resolves it. An error of the
    stream during the wait goes to the handler that open() installed, when
    it is still the listener for ['error'], and leaves the promise
    pending: the caller of endStream is not told. *)
Theorem endStream_cannot_reject (em : StreamHelpers.Emitter)
    (evs : list (StreamHelpers.EventName * Error)) (err : Error) :
  StreamHelpers.ended em = StreamHelpers.Pending ->
  StreamHelpers.resolve_on_finish_only em ->
  let waiting := StreamHelpers.endStream em in
  StreamHelpers.end_calls waiting = S (StreamHelpers.end_calls em) /\
  StreamHelpers.not_rejected (StreamHelpers.ended (StreamHelpers.emits evs waiting)) /\
  (Forall (fun ev => fst ev <> StreamHelpers.EvFinish) evs ->
   StreamHelpers.ended (StreamHelpers.emits evs waiting) = StreamHelpers.Pending) /\
  StreamHelpers.ended (StreamHelpers.emit StreamHelpers.EvFinish err waiting) =
    StreamHelpers.Resolved /\
  (StreamHelpers.listeners_of StreamHelpers.EvError em = [StreamHelpers.WriterOnError] ->
   let failed := StreamHelpers.emit StreamHelpers.EvError err waiting in
   StreamHelpers.handled failed = StreamHelpers.handled em ++ [err] /\
   StreamHelpers.ended failed = StreamHelpers.Pending /\
   StreamHelpers.unhandled failed = StreamHelpers.unhandled em).
Proof.
  intros Hpending Honly waiting.
  assert (Hw : StreamHelpers.ended waiting = StreamHelpers.Pending /\
               StreamHelpers.resolve_on_finish_only waiting /\
               StreamHelpers.listeners waiting =
                 StreamHelpers.listeners em ++
                 [(StreamHelpers.EvFinish, StreamHelpers.EndResolve, true)] /\
               StreamHelpers.handled waiting = StreamHelpers.handled em /\
               StreamHelpers.unhandled waiting = StreamHelpers.unhandled em).
  { subst waiting. destruct em as [ls cc ec po pe pc hd un]. cbn in *.
    repeat split; try done.
    unfold StreamHelpers.resolve_on_finish_only in *. cbn in *.
    apply Forall_app. split; [exact Honly |]. by repeat constructor. }
  destruct Hw as (Hw1 & Hw2 & Hw3 & Hw4 & Hw5).
  destruct (emits_keep_end evs waiting) as [K1 K2].
  split; [subst waiting; by destruct em |].
  split; [apply K1; by rewrite Hw1 |].
  split; [intros Hall; by rewrite (K2 Hw2 Hall) |].
  split.
  - rewrite emit_unfold by (right; discriminate).
    rewrite Hw3, List.filter_app. cbn [List.filter fst snd].
    assert (bool_decide (StreamHelpers.EvFinish = StreamHelpers.EvFinish) = true) as ->
      by reflexivity.
    rewrite fold_left_app. cbn [fold_left fst snd].
    match goal with |- context [fold_left ?f ?l waiting] =>
      destruct (listeners_keep_end StreamHelpers.EvFinish err l (fun _ => True) waiting
                  (filter_names _ _)) as (F1 & _ & _);
      set (em1 := fold_left f l waiting) in *
    end.
    assert (Hnr : StreamHelpers.not_rejected (StreamHelpers.ended em1))
      by (apply F1; by rewrite Hw1).
    destruct em1 as [ls1 cc1 ec1 po1 pe1 pc1 hd1 un1]. cbn in *.
    by destruct pe1.
  - intros Herr failed. subst failed.
    unfold StreamHelpers.listeners_of in Herr.
    assert (Hf : exists o,
              List.filter (fun r => bool_decide (fst (fst r) = StreamHelpers.EvError))
                (StreamHelpers.listeners waiting) =
              [(StreamHelpers.EvError, StreamHelpers.WriterOnError, o)]).
    { rewrite Hw3, List.filter_app. cbn [List.filter fst snd].
      assert (bool_decide (StreamHelpers.EvFinish = StreamHelpers.EvError) = false) as ->
        by reflexivity.
      rewrite app_nil_r.
      pose proof (filter_names StreamHelpers.EvError (StreamHelpers.listeners em)) as Hn.
      destruct (List.filter _ (StreamHelpers.listeners em)) as [| [[n x] o] [| r2 rest]];
        try discriminate Herr.
      injection Herr as ->. apply Forall_cons in Hn. destruct Hn as [Hn _].
      cbn in Hn. subst n. by exists o. }
    destruct Hf as [o Hf].
    rewrite emit_unfold by (left; by rewrite Hf). rewrite Hf.
    cbn [fold_left fst snd].
    destruct waiting as [ls cc ec po pe pc hd un]. cbn in *. subst.
    destruct o; cbn; done.
Qed.

Lemma endStream_cannot_reject_witness :
  let em :=
    StreamHelpers.mkEmitter [(StreamHelpers.EvError, StreamHelpers.WriterOnError, true)]
      0 0 StreamHelpers.Resolved StreamHelpers.Pending StreamHelpers.Pending [] [] in
  let evs := [(StreamHelpers.EvError, SystemError "EIO");
              (StreamHelpers.EvClose, SystemError "EIO")] in
  StreamHelpers.ended em = StreamHelpers.Pending /\
  StreamHelpers.resolve_on_finish_only em /\
  Forall (fun ev => fst ev <> StreamHelpers.EvFinish) evs /\
  StreamHelpers.listeners_of StreamHelpers.EvError em = [StreamHelpers.WriterOnError] /\
  StreamHelpers.ended (StreamHelpers.emits evs (StreamHelpers.endStream em)) =
    StreamHelpers.Pending /\
  StreamHelpers.handled
    (StreamHelpers.emit StreamHelpers.EvError (SystemError "EIO") (StreamHelpers.endStream em))
  = StreamHelpers.handled em ++ [SystemError "EIO"].
Proof.
  intros em evs.
  assert (H1 : StreamHelpers.ended em = StreamHelpers.Pending) by reflexivity.
  assert (H2 : StreamHelpers.resolve_on_finish_only em)
    by (repeat constructor; discriminate).
  assert (H3 : Forall (fun ev => fst ev <> StreamHelpers.EvFinish) evs)
    by (repeat constructor; discriminate).
  assert (H4 : StreamHelpers.listeners_of StreamHelpers.EvError em =
               [StreamHelpers.WriterOnError]) by reflexivity.
  split; [exact H1 |]. split; [exact H2 |]. split; [exact H3 |]. split; [exact H4 |].
  destruct (endStream_cannot_reject em evs (SystemError "EIO") H1 H2)
    as (_ & _ & K3 & _ & K5).
  split; [exact (K3 H3) | exact (proj1 (K5 H4))].
Defined.

Lemma remove_last_app_l (name : StreamHelpers.EventName) (l : StreamHelpers.Listener)
    (a b : list (StreamHelpers.EventName * StreamHelpers.Listener * bool)) :
  ~ Exists (fun r => fst (fst r) = name /\ snd (fst r) = l) b ->
  StreamHelpers.remove_last name l (a ++ b) = StreamHelpers.remove_last name l a ++ b.
Proof.
  intros Hb. induction a as [| [[n x] o] a IH].
  - cbn [app StreamHelpers.remove_last]. by apply remove_last_absent.
  - cbn [app StreamHelpers.remove_last].
    assert (E : bool_decide (Exists (fun r => fst (fst r) = name /\ snd (fst r) = l) (a ++ b)) =
                bool_decide (Exists (fun r => fst (fst r) = name /\ snd (fst r) = l) a)).
    { apply bool_decide_ext. rewrite Exists_app. tauto. }
    rewrite E. destruct (_ && _); [reflexivity |]. by rewrite IH.
Qed.

(** Listeners of others, called in turn, change nothing but their own
    registrations. *)
Lemma foreign_listeners_quiet (err : Error)
    (now fl tail : list (StreamHelpers.EventName * StreamHelpers.Listener * bool))
    (em0 : StreamHelpers.Emitter) :
  Forall StreamHelpers.foreign now -> Forall StreamHelpers.foreign fl ->
  Forall (fun r => ~ StreamHelpers.foreign r) tail ->
  StreamHelpers.listeners em0 = fl ++ tail ->
  exists fl',
    Forall StreamHelpers.foreign fl' /\
    fold_left
      (fun (em : StreamHelpers.Emitter)
           (r : StreamHelpers.EventName * StreamHelpers.Listener * bool) =>
         StreamHelpers.call (snd (fst r)) err
           (if snd r then StreamHelpers.removeListener (fst (fst r)) (snd (fst r)) em
            else em)) now em0 =
    StreamHelpers.set_listeners (fl' ++ tail) em0.
Proof.
  intros Hnow. revert fl em0. induction Hnow as [| r now Hr _ IH]; intros fl em0 Hfl Htail Hls.
  - exists fl. split; [exact Hfl |]. cbn [fold_left]. rewrite <- Hls. by destruct em0.
  - cbn [fold_left].
    destruct r as [[n x] o]. unfold StreamHelpers.foreign in Hr. cbn [fst snd] in *.
    destruct x as [| | | | | | k]; try (by destruct Hr).
    assert (Hno : ~ Exists (fun r => fst (fst r) = n /\ snd (fst r) = StreamHelpers.Foreign k)
                    tail).
    { intros H. apply Exists_exists in H. destruct H as (r & Hin & _ & Hx).
      rewrite Forall_forall in Htail. apply (Htail r Hin).
      unfold StreamHelpers.foreign. by rewrite Hx. }
    destruct o.
    + destruct (IH (StreamHelpers.remove_last n (StreamHelpers.Foreign k) fl)
                  (StreamHelpers.call (StreamHelpers.Foreign k) err
                     (StreamHelpers.removeListener n (StreamHelpers.Foreign k) em0)))
        as (fl' & Hfl' & Hfold).
      * by apply remove_last_Forall.
      * exact Htail.
      * destruct em0. cbn in *. subst. by apply remove_last_app_l.
      * exists fl'. split; [exact Hfl' |]. rewrite Hfold. by destruct em0.
    + destruct (IH fl (StreamHelpers.call (StreamHelpers.Foreign k) err em0))
        as (fl' & Hfl' & Hfold); try assumption.
      exists fl'. split; [exact Hfl' |]. exact Hfold.
Qed.

Lemma filter_foreign (name : StreamHelpers.EventName)
    (fl : list (StreamHelpers.EventName * StreamHelpers.Listener * bool)) :
  Forall StreamHelpers.foreign fl ->
  Forall StreamHelpers.foreign
    (List.filter (fun r => bool_decide (fst (fst r) = name)) fl).
Proof.
  intros H. apply Forall_forall. intros r Hin.
  apply list_elem_of_In, filter_In in Hin. destruct Hin as [Hin _].
  rewrite Forall_forall in H. apply H. by apply list_elem_of_In.
Qed.

(** Once openStream has settled and cleaned up, the stream has only the
    listeners of others, and nothing the stream emits changes the promise
    or closes the stream again. *)
Lemma settled_open_stays (evs : list (StreamHelpers.EventName * Error))
    (em : StreamHelpers.Emitter) :
  Forall StreamHelpers.foreign (StreamHelpers.listeners em) ->
  Forall StreamHelpers.foreign (StreamHelpers.listeners (StreamHelpers.emits evs em)) /\
  StreamHelpers.opened (StreamHelpers.emits evs em) = StreamHelpers.opened em /\
  StreamHelpers.close_calls (StreamHelpers.emits evs em) = StreamHelpers.close_calls em.
Proof.
  revert em. induction evs as [| [name err] evs IH]; intros em Hf; [by repeat split |].
  cbn [StreamHelpers.emits fold_left fst snd].
  fold (StreamHelpers.emits evs (StreamHelpers.emit name err em)).
  assert (Hstep : Forall StreamHelpers.foreign
                    (StreamHelpers.listeners (StreamHelpers.emit name err em)) /\
                  StreamHelpers.opened (StreamHelpers.emit name err em) =
                    StreamHelpers.opened em /\
                  StreamHelpers.close_calls (StreamHelpers.emit name err em) =
                    StreamHelpers.close_calls em).
  { destruct (List.filter (fun r => bool_decide (fst (fst r) = name))
                (StreamHelpers.listeners em)) as [| r0 now0] eqn:Enow.
    - destruct name;
        [unfold StreamHelpers.emit; rewrite Enow; by destruct em | ..];
        rewrite emit_unfold by (right; discriminate); rewrite Enow; by repeat split.
    - rewrite emit_unfold by (left; by rewrite Enow).
      destruct (foreign_listeners_quiet err
                  (List.filter (fun r => bool_decide (fst (fst r) = name))
                     (StreamHelpers.listeners em))
                  (StreamHelpers.listeners em) [] em)
        as (fl' & Hfl' & ->).
      + by apply filter_foreign.
      + exact Hf.
      + constructor.
      + by rewrite app_nil_r.
      + rewrite app_nil_r. by destruct em. }
  destruct Hstep as (S1 & S2 & S3).
  destruct (IH _ S1) as (I1 & I2 & I3).
  split; [exact I1 |]. split; congruence.
Qed.

(** X17. openStream settles by the first ['open'] or ['error'] that the
    new stream emits and by nothing else: ['open'] resolves its promise,
    ['error'] rejects it with the error after one call of stream.close().
    From then on neither of its two listeners is registered (only the
    listeners of others are left), the promise keeps its outcome and the
    stream is not closed again, whatever the stream emits later. Until
    then the promise is pending and both listeners are the last ones
    registered. *)
Theorem openStream_settles_once
    (others : list (StreamHelpers.EventName * StreamHelpers.Listener * bool))
    (evs : list (StreamHelpers.EventName * Error)) :
  Forall StreamHelpers.foreign others ->
  let em := StreamHelpers.emits evs (StreamHelpers.openStream (StreamHelpers.fresh others)) in
  StreamHelpers.opened em = StreamHelpers.first_outcome evs /\
  match StreamHelpers.first_outcome evs with
  | StreamHelpers.Pending =>
      StreamHelpers.close_calls em = 0%nat /\
      exists fl,
        Forall StreamHelpers.foreign fl /\
        StreamHelpers.listeners em =
          fl ++ [(StreamHelpers.EvError, StreamHelpers.OpenOnError, true);
                 (StreamHelpers.EvOpen, StreamHelpers.OpenOnOpen, true)]
  | StreamHelpers.Resolved =>
      StreamHelpers.close_calls em = 0%nat /\
      Forall StreamHelpers.foreign (StreamHelpers.listeners em)
  | StreamHelpers.Rejected _ =>
      StreamHelpers.close_calls em = 1%nat /\
      Forall StreamHelpers.foreign (StreamHelpers.listeners em)
  end.
Proof.
  intros Hothers. cbv zeta.
  set (own := [(StreamHelpers.EvError, StreamHelpers.OpenOnError, true);
               (StreamHelpers.EvOpen, StreamHelpers.OpenOnOpen, true)]).
  assert (Hown : Forall (fun r => ~ StreamHelpers.foreign r) own)
    by (subst own; repeat constructor; intros []).
  assert (Hgen : forall fl em0,
    Forall StreamHelpers.foreign fl ->
    StreamHelpers.listeners em0 = fl ++ own ->
    StreamHelpers.opened em0 = StreamHelpers.Pending ->
    StreamHelpers.close_calls em0 = 0%nat ->
    StreamHelpers.opened (StreamHelpers.emits evs em0) = StreamHelpers.first_outcome evs /\
    match StreamHelpers.first_outcome evs with
    | StreamHelpers.Pending =>
        StreamHelpers.close_calls (StreamHelpers.emits evs em0) = 0%nat /\
        exists fl',
          Forall StreamHelpers.foreign fl' /\
          StreamHelpers.listeners (StreamHelpers.emits evs em0) = fl' ++ own
    | StreamHelpers.Resolved =>
        StreamHelpers.close_calls (StreamHelpers.emits evs em0) = 0%nat /\
        Forall StreamHelpers.foreign (StreamHelpers.listeners (StreamHelpers.emits evs em0))
    | StreamHelpers.Rejected _ =>
        StreamHelpers.close_calls (StreamHelpers.emits evs em0) = 1%nat /\
        Forall StreamHelpers.foreign (StreamHelpers.listeners (StreamHelpers.emits evs em0))
    end).
  { induction evs as [| [name err] evs IH]; intros fl em0 Hfl Hls Hop Hcc.
    - cbn. split; [exact Hop |]. split; [exact Hcc |]. by exists fl.
    - cbn [StreamHelpers.emits fold_left fst snd].
      fold (StreamHelpers.emits evs (StreamHelpers.emit name err em0)).
      assert (Hne : List.filter (fun r => bool_decide (fst (fst r) = name))
                      (StreamHelpers.listeners em0) <> [] \/ name <> StreamHelpers.EvError).
      { destruct name; try (right; discriminate). left.
        rewrite Hls, List.filter_app. subst own. cbn [List.filter fst snd].
        assert (bool_decide (StreamHelpers.EvError = StreamHelpers.EvError) = true) as ->
          by reflexivity.
        intros H. apply app_eq_nil in H. destruct H as [_ H]. discriminate H. }
      rewrite (emit_unfold name err em0 Hne).
      rewrite Hls, List.filter_app, fold_left_app.
      destruct (foreign_listeners_quiet err
                  (List.filter (fun r => bool_decide (fst (fst r) = name)) fl)
                  fl own em0 (filter_foreign name fl Hfl) Hfl Hown Hls)
        as (fl' & Hfl' & ->).
      assert (Hno1 : ~ Exists (fun r => fst (fst r) = StreamHelpers.EvError /\
                                        snd (fst r) = StreamHelpers.OpenOnError) fl').
      { intros H. apply Exists_exists in H. destruct H as (r & Hin & _ & Hx).
        rewrite Forall_forall in Hfl'. specialize (Hfl' r Hin).
        unfold StreamHelpers.foreign in Hfl'. by rewrite Hx in Hfl'. }
      assert (Hno2 : ~ Exists (fun r => fst (fst r) = StreamHelpers.EvOpen /\
                                        snd (fst r) = StreamHelpers.OpenOnOpen) fl').
      { intros H. apply Exists_exists in H. destruct H as (r & Hin & _ & Hx).
        rewrite Forall_forall in Hfl'. specialize (Hfl' r Hin).
        unfold StreamHelpers.foreign in Hfl'. by rewrite Hx in Hfl'. }
      assert (R1 : StreamHelpers.remove_last StreamHelpers.EvError StreamHelpers.OpenOnError
                     (fl' ++ own) =
                   fl' ++ [(StreamHelpers.EvOpen, StreamHelpers.OpenOnOpen, true)]).
      { subst own. clear -Hno1. induction fl' as [| [[n x] o] fl' IH]; [reflexivity |].
        cbn [StreamHelpers.remove_last app].
        rewrite (bool_decide_eq_false_2
                   (n = StreamHelpers.EvError /\ x = StreamHelpers.OpenOnError)).
        - cbn [andb]. rewrite IH; [reflexivity |]. intros H. apply Hno1.
          by apply Exists_cons_tl.
        - intros [-> ->]. apply Hno1. by constructor. }
      assert (R2 : StreamHelpers.remove_last StreamHelpers.EvOpen StreamHelpers.OpenOnOpen
                     (fl' ++ [(StreamHelpers.EvOpen, StreamHelpers.OpenOnOpen, true)]) = fl')
        by apply remove_last_final.
      assert (R3 : StreamHelpers.remove_last StreamHelpers.EvOpen StreamHelpers.OpenOnOpen
                     (fl' ++ own) =
                   fl' ++ [(StreamHelpers.EvError, StreamHelpers.OpenOnError, true)]).
      { subst own.
        transitivity
          (StreamHelpers.remove_last StreamHelpers.EvOpen StreamHelpers.OpenOnOpen
             ((fl' ++ [(StreamHelpers.EvError, StreamHelpers.OpenOnError, true)]) ++
              [(StreamHelpers.EvOpen, StreamHelpers.OpenOnOpen, true)]));
          [by rewrite <- app_assoc | apply remove_last_final]. }
      assert (R4 : StreamHelpers.remove_last StreamHelpers.EvError StreamHelpers.OpenOnError
                     (fl' ++ [(StreamHelpers.EvError, StreamHelpers.OpenOnError, true)]) = fl')
        by apply remove_last_final.
      assert (R5 : StreamHelpers.remove_last StreamHelpers.EvError StreamHelpers.OpenOnError
                     (fl' ++ [(StreamHelpers.EvOpen, StreamHelpers.OpenOnOpen, true)]) =
                   fl' ++ [(StreamHelpers.EvOpen, StreamHelpers.OpenOnOpen, true)]).
      { apply remove_last_absent. intros H. apply Exists_app in H.
        destruct H as [H | H]; [by apply Hno1 |].
        apply Exists_cons in H. destruct H as [[H _] | H]; [discriminate H | inversion H]. }
      assert (R6 : StreamHelpers.remove_last StreamHelpers.EvError StreamHelpers.OpenOnError fl'
                   = fl') by (by apply remove_last_absent).
      assert (R7 : StreamHelpers.remove_last StreamHelpers.EvOpen StreamHelpers.OpenOnOpen fl'
                   = fl') by (by apply remove_last_absent).
      destruct em0 as [ls cc ec po pe pc hd un].
      cbn [StreamHelpers.listeners StreamHelpers.opened StreamHelpers.close_calls] in Hls, Hop, Hcc.
      subst ls po cc.
      destruct name; subst own; cbn [List.filter fst snd];
        rewrite ?(bool_decide_eq_true_2 (StreamHelpers.EvError = StreamHelpers.EvError)),
                ?(bool_decide_eq_true_2 (StreamHelpers.EvOpen = StreamHelpers.EvOpen)),
                ?(bool_decide_eq_false_2 (StreamHelpers.EvError = StreamHelpers.EvOpen)),
                ?(bool_decide_eq_false_2 (StreamHelpers.EvOpen = StreamHelpers.EvError)),
                ?(bool_decide_eq_false_2 (StreamHelpers.EvError = StreamHelpers.EvFinish)),
                ?(bool_decide_eq_false_2 (StreamHelpers.EvOpen = StreamHelpers.EvFinish)),
                ?(bool_decide_eq_false_2 (StreamHelpers.EvError = StreamHelpers.EvClose)),
                ?(bool_decide_eq_false_2 (StreamHelpers.EvOpen = StreamHelpers.EvClose))
          by done;
        cbn [fold_left fst snd StreamHelpers.call StreamHelpers.removeListener
               StreamHelpers.set_listeners StreamHelpers.close StreamHelpers.settle
               StreamHelpers.listeners StreamHelpers.close_calls StreamHelpers.end_calls
               StreamHelpers.opened StreamHelpers.ended StreamHelpers.closed
               StreamHelpers.handled StreamHelpers.unhandled StreamHelpers.first_outcome].
      + (* 'error' *)
        rewrite R1, R5, R2.
        match goal with |- context [StreamHelpers.emits evs ?x] =>
          destruct (settled_open_stays evs x) as (S1 & S2 & S3); [exact Hfl' |];
          rewrite S2, S3
        end.
        by repeat split.
      + (* 'open' *)
        rewrite R3, R4, R7.
        match goal with |- context [StreamHelpers.emits evs ?x] =>
          destruct (settled_open_stays evs x) as (S1 & S2 & S3); [exact Hfl' |];
          rewrite S2, S3
        end.
        by repeat split.
      + (* 'finish' *)
        apply (IH fl'); try done.
      + (* 'close' *)
        apply (IH fl'); try done. }
  assert (Hls : StreamHelpers.listeners (StreamHelpers.openStream (StreamHelpers.fresh others))
                = others ++ own).
  { subst own. cbn. by rewrite <- app_assoc. }
  exact (Hgen others (StreamHelpers.openStream (StreamHelpers.fresh others)) Hothers Hls
           eq_refl eq_refl).
Qed.

Lemma openStream_settles_once_witness :
  let others := [(StreamHelpers.EvClose, StreamHelpers.Foreign 0, false)] in
  let evs := [(StreamHelpers.EvError, SystemError "EACCES");
              (StreamHelpers.EvClose, SystemError "EACCES");
              (StreamHelpers.EvOpen, SystemError "EACCES")] in
  Forall StreamHelpers.foreign others /\
  StreamHelpers.opened
    (StreamHelpers.emits evs (StreamHelpers.openStream (StreamHelpers.fresh others))) =
  StreamHelpers.first_outcome evs.
Proof.
  intros others evs.
  assert (H : Forall StreamHelpers.foreign others) by (repeat constructor).
  split; [exact H |].
  exact (proj1 (openStream_settles_once others evs H)).
Defined.
